(** * lib/helpers/request.js: the HTTP request engine of the OpenID client

    A shallow embedding of [request], [send], [setDefaults] and the
    completion step that maintains the DPoP nonce cache, together with
    the properties the specification states about them.

    JavaScript objects that the code mutates and shares (the header maps)
    live in an object store and are referred to by location, so that
    aliasing between the caller's options, the hook's result, the
    process-wide defaults and the merged options is visible.  Calls into
    the host (http, https, http2, the proof capability, the options hook)
    are recorded in a trace, in the order the code makes them. *)

From Stdlib Require Import ZArith Ascii String Bool Lia.
From Stdlib.Strings Require Import Byte.
From stdpp Require Import base list strings pretty.

Set Warnings "-register-all".

Open Scope string_scope.
Open Scope list_scope.

(** ** Values *)

Abbreviation bytes := (list byte).

(** Immutable data: what JSON payloads, form fields and query maps are.
    [JNum] holds the numbers that are integers; a number with a fraction
    is a host value ([VHost]), printed by the host. *)
Inductive json : Type :=
| JNull
| JBool (b : bool)
| JNum (z : Z)
| JStr (s : string)
| JArr (items : list json)
| JObj (fields : list (string * json)).

(** A JavaScript value that is not a mutable plain object: [undefined],
    data, a Buffer, or an opaque host value (an agent, a lookup function,
    key material handles, a number that is not an integer). *)
Inductive val : Type :=
| VUndef
| VJson (j : json)
| VBuf (b : bytes)
| VHost (id : nat).

Abbreviation loc := nat.

(** The value of a property of an options object: a value, or a reference
    to a plain object held in the store (a header map). *)
Inductive oval : Type :=
| OVal (v : val)
| ORef (l : loc).

Definition VStr (s : string) : val := VJson (JStr s).
Definition VNum (z : Z) : val := VJson (JNum z).
Definition VBool (b : bool) : val := VJson (JBool b).

(** A flat plain object (own enumerable properties in insertion order). *)
Abbreviation obj := (list (string * val)).
(** An options object: its properties may refer to flat plain objects. *)
Abbreviation oobj := (list (string * oval)).
(** The object store: a list of objects, a location is an index. *)
Abbreviation store := (list obj).

(** ** Property access on insertion-ordered objects *)

Section Props.
Context {A : Type}.

Fixpoint prop_lookup (o : list (string * A)) (k : string) : option A :=
  match o with
  | [] => None
  | (k', v) :: o' => if String.eqb k k' then Some v else prop_lookup o' k
  end.

(** [o[k] = v]: an existing property keeps its place, a new one is added
    last. *)
Fixpoint prop_set (o : list (string * A)) (k : string) (v : A) : list (string * A) :=
  match o with
  | [] => [(k, v)]
  | (k', v') :: o' =>
      if String.eqb k k' then (k', v) :: o' else (k', v') :: prop_set o' k v
  end.

(** [delete o[k]] *)
Fixpoint prop_delete (o : list (string * A)) (k : string) : list (string * A) :=
  match o with
  | [] => []
  | (k', v') :: o' =>
      if String.eqb k k' then prop_delete o' k else (k', v') :: prop_delete o' k
  end.
End Props.

(** [o[k]] reads [undefined] for a missing property. *)
Definition vget (o : obj) (k : string) : val :=
  match prop_lookup o k with Some v => v | None => VUndef end.
Definition oget (o : oobj) (k : string) : oval :=
  match prop_lookup o k with Some v => v | None => OVal VUndef end.

(** ** Truthiness, strict tests and string conversion *)

Definition truthy (v : val) : bool :=
  match v with
  | VUndef => false
  | VJson JNull => false
  | VJson (JBool b) => b
  | VJson (JNum z) => negb (Z.eqb z 0)
  | VJson (JStr s) => negb (String.eqb s "")
  | _ => true
  end.

Definition otruthy (v : oval) : bool :=
  match v with
  | OVal v => truthy v
  | ORef _ => true
  end.

(** [typeof v === 'undefined'] *)
Definition is_undef (v : val) : bool :=
  match v with VUndef => true | _ => false end.
Definition is_undefined (v : oval) : bool :=
  match v with OVal VUndef => true | _ => false end.

(** ** The host's built-ins

    [URL], [JSON], [querystring] and the conversion of structured values
    to strings belong to the platform, and [package.json] is not part of
    this module; the code is verified for any behaviour of them. *)

(** What the code reads from a parsed [URL] (its [href] is determined by
    these). *)
Record URL := {
  protocol : string;
  origin : string;
  pathname : string;
  searchParams : list (string * string);
  hash : string
}.

Class Host := {
  (** [new URL(s)]: [None] when the constructor throws. *)
  URL_parse : string -> option URL;
  (** [JSON.stringify(v)] *)
  JSON_stringify : oval -> string;
  (** [JSON.parse(buffer)]: [None] when it throws a SyntaxError. *)
  JSON_parse : bytes -> option json;
  (** [querystring.stringify(v)] *)
  querystring_stringify : oval -> string;
  (** [String(v)] for arrays, objects, buffers and host values, and for
      the integers that are printed with an exponent or are not exactly
      representable (those outside the safe integers). *)
  structured_toString : val -> string;
  (** The UTF-16 code units of a string, each as a string: what the
      indexed properties of a string are. *)
  code_units : string -> list string;
  (** [Object.entries(v)], the values as strings, for buffers and host
      values. *)
  structured_entries : val -> list (string * string);
  (** [`${pkg.name}/${pkg.version} (${pkg.homepage})`] *)
  pkg_user_agent : string
}.

Section Engine.
Context `{Host}.

(** [Number.isSafeInteger(z)]: the integers that a number holds exactly
    and that are printed as their decimal digits. *)
Definition safe_integer (z : Z) : bool := (Z.abs z <? 2 ^ 53)%Z.

Definition ToString (v : val) : string :=
  match v with
  | VUndef => "undefined"
  | VJson JNull => "null"
  | VJson (JBool true) => "true"
  | VJson (JBool false) => "false"
  | VJson (JNum z) => if safe_integer z then pretty z else structured_toString v
  | VJson (JStr s) => s
  | _ => structured_toString v
  end.

Definition OToString (v : oval) : string :=
  match v with
  | OVal v => ToString v
  | ORef _ => "[object Object]"
  end.

(** [Buffer.from(s)] of a string: its UTF-8 encoding (strings are held in
    that encoding). *)
Definition utf8 (s : string) : bytes := list_byte_of_string s.

(** [Buffer.from(body)] / what [write(body)] puts on the wire, for the
    strings and buffers a request body is. *)
Definition Buffer_from (v : oval) : bytes :=
  match v with
  | OVal (VJson (JStr s)) => utf8 s
  | OVal (VBuf b) => b
  | _ => []
  end.

(** [Buffer.byteLength(body)] *)
Definition Buffer_byteLength (v : oval) : Z := Z.of_nat (length (Buffer_from v)).

(** [Buffer.concat(parts)] *)
Definition Buffer_concat (parts : list bytes) : bytes := concat parts.

(** ** [NQCHAR = /^[\x21\x23-\x5B\x5D-\x7E]+$/] *)

Definition nqchar (c : ascii) : bool :=
  let n := N_of_ascii c in
  (N.eqb n 0x21 || (N.leb 0x23 n && N.leb n 0x5B) || (N.leb 0x5D n && N.leb n 0x7E))%N.

Definition NQCHAR_test (s : string) : bool :=
  match list_ascii_of_string s with
  | [] => false
  | cs => forallb nqchar cs
  end.

(** [/^(https?:)$/.test(protocol)] *)
Definition http_protocol (p : string) : bool :=
  String.eqb p "http:" || String.eqb p "https:".

(** ** The nonce cache: [new LRU({ max: 100 })]

    Entries are kept most recently used first. *)

Abbreviation LRU := (list (string * val)).
Definition LRU_max : nat := 100.

Definition lru_peek (c : LRU) (k : string) : val := vget c k.

(** [nonces.get(k)]: the value ([undefined] when absent); a hit becomes
    the most recently used entry. *)
Definition lru_get (c : LRU) (k : string) : val * LRU :=
  match prop_lookup c k with
  | Some v => (v, (k, v) :: prop_delete c k)
  | None => (VUndef, c)
  end.

(** [nonces.set(k, v)]: the entry becomes the most recently used one and
    the least recently used entries beyond the capacity are dropped. *)
Definition lru_set (c : LRU) (k : string) (v : val) : LRU :=
  take LRU_max ((k, v) :: prop_delete c k).

(** ** Responses, errors and host calls *)

Inductive DecodeMode := ModeJson | ModeBuffer.

(** The [body] property of a response: not defined, an accessor whose
    getter closes over the collected chunks, or a data property. *)
Inductive BodyProp :=
| NoBody
| Getter (mode : DecodeMode) (parts : list bytes)
| Data (value : val).

Record Response := {
  statusCode : val;
  headers : obj;
  body : BodyProp
}.

Inductive Error :=
| TypeError (message : string)
| RPError (message : string)
| SyntaxError
| HostError (id : nat).

(** A thrown error with its [response] property, when one was defined. *)
Record Thrown := {
  thrown : Error;
  err_response : option Response
}.

Inductive Result (A : Type) :=
| Ok (a : A)
| Throw (e : Thrown).
Arguments Ok {A} a.
Arguments Throw {A} e.

Definition raise {A} (e : Error) : Result A :=
  Throw {| thrown := e; err_response := None |}.

(** What a host callback does: return or throw. *)
Inductive Completion (A : Type) :=
| Returns (a : A)
| Throws (e : Error).
Arguments Returns {A} a.
Arguments Throws {A} e.

(** The first argument of [dpopProof]. *)
Record ProofPayload := {
  htu : string;
  htm : oval;
  nonce : val
}.

(** The object a callback returns: its property values are values, flat
    objects that the callback made, or objects of the store that it was
    given (the header map of the options it is shown). *)
Inductive lval :=
| LVal (v : val)
| LObj (o : obj)
| LRef (l : loc).
Abbreviation lobj := (list (string * lval)).

(** [this]: the client the function is called on.  [HTTP_OPTIONS] is the
    customization hook, called with the parsed URL and the pre-merged
    options, whose header map it reads through the store.  That header
    map is not a copy: the hook may write to it, and may return it.  So
    the hook answers with the objects of the store it rewrote, each with
    its new content, and with the object it returns or the error it
    throws.  [dpopProof] is the proof-generation capability. *)
Record Client := {
  HTTP_OPTIONS :
    option (URL -> oobj -> store -> list (loc * obj) * Completion lobj);
  dpopProof : option (ProofPayload -> oval -> oval -> Completion val)
}.

(** The second argument of [request]: [{ accessToken, mTLS = false, DPoP }]. *)
Record Extras := {
  accessToken : oval;
  mTLS : bool;
  DPoP : oval
}.

(** Calls into the host, in program order. *)
Inductive event :=
| EvDpopProof (payload : ProofPayload) (key token : oval)
| EvOptsFn (url : URL) (merged : oobj)
| EvH2Connect (authority : string)
| EvH2Request (hdrs : obj)
| EvSetTimeout (ms : oval)
| EvH1Request (secure : bool) (url : URL) (opts : oobj) (hdrs : option obj)
| EvRemoveHeader (name : string)
| EvSetHeader (name : string) (value : val)
| EvWrite (data : bytes)
| EvEnd
| EvDestroy
| EvCloseStream
| EvCloseSession.

(** A call that opens a connection. *)
Definition opens_socket (e : event) : bool :=
  match e with
  | EvH2Connect _ | EvH1Request _ _ _ _ => true
  | _ => false
  end.

(** What the transport does once the request is sent: which of the
    'response', 'timeout' and 'error' events comes first and, after a
    response, the chunks of the body and whether the stream ends or fails. *)
Inductive Arrival :=
| Responded (status : Z) (hdrs : obj)
| TimedOut
| Errored (e : Error).

Record Exchange := {
  arrival : Arrival;
  chunks : list bytes;
  stream_error : option Error
}.

(** ** The state the function runs in *)

Record World := {
  heap : store;
  DEFAULT_HTTP_OPTIONS : option oobj;
  nonces : LRU;
  trace : list event;
  (** the object the caller passed as [options] *)
  options : oobj
}.

Definition M (A : Type) : Type := World -> Result A * World.

Definition ret {A} (a : A) : M A := fun w => (Ok a, w).
Definition throw {A} (e : Error) : M A := fun w => (raise e, w).
Definition bind {A B} (m : M A) (k : A -> M B) : M B :=
  fun w => match m w with
           | (Ok a, w') => k a w'
           | (Throw e, w') => (Throw e, w')
           end.

Notation "'do' x <- m ; k" := (bind m (fun x => k))
  (at level 10, x name, m at level 100, k at level 200).
Notation "'do' ' p <- m ; k" := (bind m (fun x => match x with p => k end))
  (at level 10, p pattern, m at level 100, k at level 200).
Notation "m ;; k" := (bind m (fun _ => k))
  (at level 100, k at level 200, right associativity).

Definition read {A} (f : World -> A) : M A := fun w => (Ok (f w), w).

Definition set_heap (h : store) : M unit := fun w =>
  (Ok tt, {| heap := h; DEFAULT_HTTP_OPTIONS := DEFAULT_HTTP_OPTIONS w;
             nonces := nonces w; trace := trace w; options := options w |}).
Definition set_nonces (c : LRU) : M unit := fun w =>
  (Ok tt, {| heap := heap w; DEFAULT_HTTP_OPTIONS := DEFAULT_HTTP_OPTIONS w;
             nonces := c; trace := trace w; options := options w |}).
Definition set_options (o : oobj) : M unit := fun w =>
  (Ok tt, {| heap := heap w; DEFAULT_HTTP_OPTIONS := DEFAULT_HTTP_OPTIONS w;
             nonces := nonces w; trace := trace w; options := o |}).
Definition set_defaults (d : option oobj) : M unit := fun w =>
  (Ok tt, {| heap := heap w; DEFAULT_HTTP_OPTIONS := d;
             nonces := nonces w; trace := trace w; options := options w |}).
Definition emit (e : event) : M unit := fun w =>
  (Ok tt, {| heap := heap w; DEFAULT_HTTP_OPTIONS := DEFAULT_HTTP_OPTIONS w;
             nonces := nonces w; trace := trace w ++ [e]; options := options w |}).

(** [{}] / an object literal: a new object in the store. *)
Definition alloc (o : obj) : M loc := fun w =>
  let l := length (heap w) in
  (Ok l, {| heap := heap w ++ [o]; DEFAULT_HTTP_OPTIONS := DEFAULT_HTTP_OPTIONS w;
            nonces := nonces w; trace := trace w; options := options w |}).

(** The flat plain object a value refers to, if it is one. *)
Definition plain (h : store) (v : oval) : option obj :=
  match v with
  | ORef l => h !! l
  | OVal _ => None
  end.

Definition lift {A} (c : Completion A) : M A :=
  match c with
  | Returns a => ret a
  | Throws e => throw e
  end.

(** ** The helpers [pick] and [defaults] *)

(** Modelled from the spec: [./pick] is not among the sources.  The hook
    is "permitted to influence only a restricted allow-list of fields":
    [pick(object, ...paths)] builds a new object holding, in the order of
    [paths], the properties of [object] that are not [undefined]. *)
Definition pick (object : oobj) (paths : list string) : oobj :=
  fold_left
    (fun o p => if is_undefined (oget object p) then o else prop_set o p (oget object p))
    paths [].

(** Modelled from the spec: [./defaults] is not among the sources.  The
    spec gives the process-wide defaults, which [request] passes as the
    last source, the lowest precedence, and lets the configuration call,
    which passes the new options before the current defaults, update
    them: a property of a source is copied only where the target has none
    yet ([undefined]), so earlier sources win; [__proto__] and
    [constructor] are never copied.  Nothing is cloned: a copied property
    that is an object is the source's own object. *)
Definition skipped_key (k : string) : bool :=
  String.eqb k "__proto__" || String.eqb k "constructor".

Definition fill_flat (target : obj) (kv : string * val) : obj :=
  let (k, value) := kv in
  if skipped_key k then target
  else if is_undef (vget target k) && negb (is_undef value)
       then prop_set target k value
       else target.

(** [defaults(target, source)] on a flat object, whose values are not
    plain objects themselves. *)
Definition defaults_flat (target source : obj) : obj :=
  fold_left fill_flat source target.

(** One property of a source of [defaults(deep, target, ...sources)]:
    fill it in when the target has none, then, when [deep] and both the
    target's and the source's values are plain objects, recur into them. *)
Definition fill (deep : bool) (acc : oobj * store) (kv : string * oval) : oobj * store :=
  let (target, h) := acc in
  let (k, value) := kv in
  if skipped_key k then acc
  else
    let target' :=
      if is_undefined (oget target k) && negb (is_undefined value)
      then prop_set target k value
      else target in
    let h' :=
      if deep then
        match oget target' k, value with
        | ORef lt, ORef ls =>
            match h !! lt, h !! ls with
            | Some ot, Some os => <[lt := defaults_flat ot os]> h
            | _, _ => h
            end
        | _, _ => h
        end
      else h in
    (target', h').

(** [for (const source of sources)]; a source that is not a plain object
    ([undefined] here) is skipped. *)
Definition defaults_from (deep : bool) (acc : oobj * store) (source : option oobj)
  : oobj * store :=
  match source with
  | None => acc
  | Some s => fold_left (fill deep) s acc
  end.

Definition defaults (deep : bool) (target : oobj) (sources : list (option oobj))
  (h : store) : oobj * store :=
  fold_left (defaults_from deep) sources (target, h).

(** [defaultsDeep(target, ...sources)] as a step of the program. *)
Definition defaultsDeep (target : oobj) (sources : list (option oobj)) : M oobj :=
  do h <- read heap;
  let (o, h') := defaults true target sources h in
  set_heap h';;
  ret o.

(** The object a callback returned, with the objects it made put in the
    store. *)
Fixpoint alloc_lobj (o : lobj) : M oobj :=
  match o with
  | [] => ret []
  | (k, LVal v) :: o' =>
      do r <- alloc_lobj o';
      ret ((k, OVal v) :: r)
  | (k, LObj f) :: o' =>
      do l <- alloc f;
      do r <- alloc_lobj o';
      ret ((k, ORef l) :: r)
  | (k, LRef l) :: o' =>
      do r <- alloc_lobj o';
      ret ((k, ORef l) :: r)
  end.

(** The writes of a callback to objects of the store; a location that
    holds no object is not written. *)
Definition write_all (ws : list (loc * obj)) (h : store) : store :=
  fold_left (fun h w => <[fst w := snd w]> h) ws h.

(** [optsFn.call(this, url, merged)]: the hook runs on the store as it
    is, leaves its writes there, and returns or throws. *)
Definition call_hook (optsFn : URL -> oobj -> store -> list (loc * obj) * Completion lobj)
  (url : URL) (merged : oobj) : M lobj :=
  fun w =>
    let (ws, c) := optsFn url merged (heap w) in
    let w' := {| heap := write_all ws (heap w);
                 DEFAULT_HTTP_OPTIONS := DEFAULT_HTTP_OPTIONS w;
                 nonces := nonces w; trace := trace w; options := options w |} in
    match c with
    | Returns r => (Ok r, w')
    | Throws e => (raise e, w')
    end.

(** ** [allowed] and [setDefaults] *)

Definition allowed : list string :=
  ["agent"; "ca"; "cert"; "crl"; "headers"; "key"; "lookup"; "passphrase";
   "pfx"; "timeout"; "http2"].

Definition setDefaults (props : list string) (opts : oobj) : M unit :=
  do d <- read DEFAULT_HTTP_OPTIONS;
  do r <- defaultsDeep []
            [Some (match props with [] => opts | _ => pick opts props end); d];
  set_defaults (Some r).

(** The module's initialisation:
    [setDefaults([], { headers: { 'User-Agent': ... }, timeout: 3500 })]
    and [const nonces = new LRU({ max: 100 })]. *)
Definition module_init : M unit :=
  do l <- alloc [("User-Agent", VStr pkg_user_agent)];
  setDefaults [] [("headers", ORef l); ("timeout", OVal (VNum 3500))].

Definition initial_world : World :=
  {| heap := []; DEFAULT_HTTP_OPTIONS := None; nonces := []; trace := [];
     options := [] |}.

Definition setDefaults_exported : oobj -> M unit := setDefaults allowed.

(** ** [send(req, body, contentType)] *)

(** What [req] is: the stream [http2request] opened, or the request
    object of [http.request] / [https.request]. *)
Inductive Req := ClientHttp2Stream | ClientRequest.

Definition send (req : Req) (body : oval) (contentType : option string) : M unit :=
  match req, otruthy body with
  | ClientHttp2Stream, true =>
      emit (EvWrite (Buffer_from body));;
      emit EvEnd
  | _, _ =>
      match contentType with
      | Some ct =>
          match req with
          | ClientRequest =>
              emit (EvRemoveHeader "content-type");;
              emit (EvSetHeader "content-type" (VStr ct))
          | ClientHttp2Stream =>
              (* an http2 stream has no header methods *)
              throw (TypeError "req.removeHeader is not a function")
          end
      | None => ret tt
      end;;
      (if otruthy body then
         emit (EvRemoveHeader "content-length");;
         emit (EvSetHeader "content-length" (VNum (Buffer_byteLength body)));;
         emit (EvWrite (Buffer_from body))
       else ret tt);;
      emit EvEnd
  end.

(** ** [request], before the exchange (lines 89 to 169) *)

Definition invalid_url : Error := TypeError "only valid absolute URLs can be requested".

(** [url = new URL(options.url); delete options.url; assert(...)] *)
Definition parse_url : M URL :=
  do o <- read options;
  match URL_parse (OToString (oget o "url")) with
  | None => throw invalid_url
  | Some url =>
      set_options (prop_delete o "url");;
      if http_protocol (protocol url) then ret url else throw invalid_url
  end.

(** [obj.k = v] through a value: a property of the plain object it refers
    to; assigning to a property of a primitive does nothing. *)
Definition assign (target : oval) (k : string) (v : val) : M unit :=
  match target with
  | ORef l =>
      do h <- read heap;
      match h !! l with
      | Some o => set_heap (<[l := prop_set o k v]> h)
      | None => ret tt
      end
  | OVal _ => ret tt
  end.

(** [if (DPoP && 'dpopProof' in this) { ... }]; [opts] is still the
    caller's [options] here. *)
Definition inject_proof (this : Client) (x : Extras) (url : URL) (nonceKey : string)
  : M unit :=
  match otruthy (DPoP x), dpopProof this with
  | true, Some prove =>
      (* opts.headers = opts.headers || {} *)
      do o <- read options;
      do hs <- (if otruthy (oget o "headers") then ret (oget o "headers")
                else do l <- alloc []; ret (ORef l));
      set_options (prop_set o "headers" hs);;
      do o' <- read options;
      do c <- read nonces;
      let (n, c') := lru_get c nonceKey in
      set_nonces c';;
      let payload :=
        {| htu := origin url ++ pathname url; htm := oget o' "method"; nonce := n |} in
      emit (EvDpopProof payload (DPoP x) (accessToken x));;
      do proof <- lift (prove payload (DPoP x) (accessToken x));
      assign hs "DPoP" proof
  | _, _ => ret tt
  end.

(** [userOptions = pick(optsFn.call(this, url, defaultsDeep({}, opts,
    DEFAULT_HTTP_OPTIONS)), ...allowed)] when the hook is set, then
    [opts = defaultsDeep({}, userOptions, opts, DEFAULT_HTTP_OPTIONS)]. *)
Definition merge_options (this : Client) (url : URL) : M oobj :=
  do d <- read DEFAULT_HTTP_OPTIONS;
  do userOptions <-
    match HTTP_OPTIONS this with
    | Some optsFn =>
        do o <- read options;
        do merged <- defaultsDeep [] [Some o; d];
        emit (EvOptsFn url merged);;
        do r <- call_hook optsFn url merged;
        do r' <- alloc_lobj r;
        ret (Some (pick r' allowed))
    | None => ret None
    end;
  do o <- read options;
  defaultsDeep [] [userOptions; Some o; d].

Definition mTLS_missing : Error := TypeError "mutual-TLS certificate and key not set".

(** [url.searchParams.delete(key)] and [url.searchParams.set(key, value)] *)
Definition usp_delete (q : list (string * string)) (k : string) : list (string * string) :=
  prop_delete q k.

Fixpoint usp_set (q : list (string * string)) (k v : string) : list (string * string) :=
  match q with
  | [] => [(k, v)]
  | (k', v') :: q' =>
      if String.eqb k k' then (k', v) :: prop_delete q' k
      else (k', v') :: usp_set q' k v
  end.

(** The indexed properties of an array or of a string. *)
Definition indexed {A} (xs : list A) : list (string * A) :=
  imap (fun i x => (pretty i, x)) xs.

(** [Object.entries(opts.searchParams)], each value as the string
    [searchParams.set] makes of it: the properties of an object, the
    indexed elements of an array and the indexed code units of a string;
    a number or a boolean has none. *)
Definition search_entries (h : store) (v : oval) : list (string * string) :=
  match v with
  | OVal (VJson (JObj fields)) => map (fun kv => (fst kv, ToString (VJson (snd kv)))) fields
  | OVal (VJson (JArr items)) => indexed (map (fun j => ToString (VJson j)) items)
  | OVal (VJson (JStr s)) => indexed (code_units s)
  | OVal (VJson _) | OVal VUndef => []
  | OVal v => structured_entries v
  | ORef l =>
      match h !! l with
      | Some o => map (fun kv => (fst kv, ToString (snd kv))) o
      | None => []
      end
  end.

Definition with_searchParams (url : URL) (q : list (string * string)) : URL :=
  {| protocol := protocol url; origin := origin url; pathname := pathname url;
     searchParams := q; hash := hash url |}.

(** [for (const [key, value] of Object.entries(opts.searchParams)) { ... }] *)
Definition merge_search (h : store) (url : URL) (opts : oobj) : URL :=
  if otruthy (oget opts "searchParams") then
    with_searchParams url
      (fold_left (fun q kv => usp_set (usp_delete q (fst kv)) (fst kv) (snd kv))
         (search_entries h (oget opts "searchParams")) (searchParams url))
  else url.

(** [for (const [key, value] of Object.entries(opts.headers || {}))
      if (value === undefined) delete opts.headers[key]] *)
Definition drop_undefined (o : obj) : obj :=
  fold_left (fun acc kv => if is_undef (snd kv) then prop_delete acc (fst kv) else acc) o o.

Definition strip_headers (opts : oobj) : M unit :=
  match oget opts "headers" with
  | ORef l =>
      do h <- read heap;
      match h !! l with
      | Some o => set_heap (<[l := drop_undefined o]> h)
      | None => ret tt
      end
  | OVal _ => ret tt
  end.

(** [Object.assign(target, source)] for a source that is a plain object
    or [undefined]. *)
Definition Object_assign (target : obj) (source : option obj) : obj :=
  match source with
  | Some s => fold_left (fun t kv => prop_set t (fst kv) (snd kv)) s target
  | None => target
  end.

(** The header block of the http2 branch (lines 149 to 164). *)
Definition http2_headers (url : URL) (hdrs : option obj) (json form body : oval) : obj :=
  let headers := Object_assign [(":path", VStr (pathname url))] hdrs in
  if otruthy json then
    prop_set (prop_set (prop_set headers ":method" (VStr "POST"))
      "content-type" (VStr "application/json"))
      "content-length" (VNum (Z.of_nat (length (utf8 (JSON_stringify json)))))
  else if otruthy form then
    prop_set (prop_set (prop_set headers ":method" (VStr "POST"))
      "content-type" (VStr "application/x-www-form-urlencoded"))
      "content-length" (VNum (Z.of_nat (length (utf8 (querystring_stringify form)))))
  else if otruthy body then
    prop_set (prop_set headers ":method" (VStr "POST"))
      "content-length" (VNum (Z.of_nat (length (Buffer_from body))))
  else headers.

(** The local variables the exchange closes over. *)
Record Prepared := {
  p_url : URL;
  p_nonceKey : string;
  p_opts : oobj;
  p_form : oval;
  p_responseType : oval;
  p_json : oval;
  p_body : oval;
  p_req : Req
}.

(** [http2request(url, headers); req.setTimeout(opts.timeout)], or
    [(url.protocol === 'https:' ? https.request : http.request)(url.href, opts)]. *)
Definition open_request (url : URL) (opts : oobj) (json form body : oval) : M Req :=
  do h <- read heap;
  if otruthy (oget opts "http2") then
    emit (EvH2Connect (origin url));;
    emit (EvH2Request (http2_headers url (plain h (oget opts "headers")) json form body));;
    emit (EvSetTimeout (oget opts "timeout"));;
    ret ClientHttp2Stream
  else
    emit (EvH1Request (String.eqb (protocol url) "https:") url opts
            (plain h (oget opts "headers")));;
    ret ClientRequest.

(** The rest element of [({ form, responseType, json, body, ...opts } = opts)]:
    a new object with the remaining properties. *)
Definition rest_of (opts : oobj) : oobj :=
  prop_delete (prop_delete (prop_delete (prop_delete opts "form") "responseType")
                 "json") "body".

(** [if (mTLS && !opts.pfx && !(opts.key && opts.cert))] *)
Definition lacks_mTLS_material (x : Extras) (opts : oobj) : bool :=
  mTLS x && negb (otruthy (oget opts "pfx"))
  && negb (otruthy (oget opts "key") && otruthy (oget opts "cert")).

(** Lines 114 to 169: the merge, the mutual-TLS check, the query
    parameters, the destructuring, the header clean-up and the creation
    of the request. *)
Definition resolve (this : Client) (x : Extras) (url : URL) (nonceKey : string)
  : M Prepared :=
  do opts <- merge_options this url;
  (if lacks_mTLS_material x opts then throw mTLS_missing else ret tt);;
  do h <- read heap;
  let url := merge_search h url opts in
  (* ({ form, responseType, json, body, ...opts } = opts) *)
  let form := oget opts "form" in
  let responseType := oget opts "responseType" in
  let json := oget opts "json" in
  let body := oget opts "body" in
  let opts := rest_of opts in
  strip_headers opts;;
  do req <- open_request url opts json form body;
  ret {| p_url := url; p_nonceKey := nonceKey; p_opts := opts; p_form := form;
         p_responseType := responseType; p_json := json; p_body := body;
         p_req := req |}.

(** Lines 89 to 169: everything before the async function is called. *)
Definition prepare (this : Client) (x : Extras) : M Prepared :=
  do url <- parse_url;
  let nonceKey := (origin url ++ pathname url)%string in
  inject_proof this x url nonceKey;;
  resolve this x url nonceKey.

(** ** The exchange (lines 170 to 238) *)

(** Lines 171 to 179. *)
Definition transmit (p : Prepared) : M unit :=
  if otruthy (p_json p) then
    send (p_req p) (OVal (VStr (JSON_stringify (p_json p)))) (Some "application/json")
  else if otruthy (p_form p) then
    send (p_req p) (OVal (VStr (querystring_stringify (p_form p))))
      (Some "application/x-www-form-urlencoded")
  else if otruthy (p_body p) then
    send (p_req p) (p_body p) None
  else
    send (p_req p) (OVal VUndef) None.

(** Modelled from the spec: [RPError] comes from [../errors], which is not
    among the sources; the timeout error "carries the configured
    duration" in its message, the string it is constructed with. *)
Definition timeout_error (opts : oobj) : Error :=
  RPError ("outgoing request timed out after " ++ OToString (oget opts "timeout") ++ "ms").

Definition unsupported_responseType : Error :=
  TypeError "unsupported responseType request option".

(** [switch (responseType)]: the two decoders, or the [default] case. *)
Definition decode_mode (responseType : oval) : option DecodeMode :=
  match responseType with
  | OVal VUndef => Some ModeBuffer
  | OVal (VJson (JStr s)) =>
      if String.eqb s "json" then Some ModeJson
      else if String.eqb s "buffer" then Some ModeBuffer
      else None
  | _ => None
  end.

(** [Object.defineProperty(response, 'body', ...)] *)
Definition define_body (r : Response) (b : BodyProp) : Response :=
  {| statusCode := statusCode r; headers := headers r; body := b |}.

(** The object the 'response' event delivers.  On http2 it is the header
    block, which carries the status as [:status]; the code wraps it:
    [response = {headers: response}; response.statusCode =
    response.headers[':status']]. *)
Definition incoming (opts : oobj) (status : Z) (hdrs : obj) : Response :=
  if otruthy (oget opts "http2") then
    let block := (":status", VNum status) :: hdrs in
    {| statusCode := vget block ":status"; headers := block; body := NoBody |}
  else
    {| statusCode := VNum status; headers := hdrs; body := NoBody |}.

(** The body of the async function.  Besides its completion it yields the
    final value of the variable [response], which the handlers attached
    at lines 239 to 248 read. *)
Definition exchange (p : Prepared) (net : Exchange) (w : World)
  : option Response * Result Response * World :=
  match transmit p w with
  | (Throw e, w1) => (None, Throw e, w1)
  | (Ok _, w1) =>
      (* [response] = await Promise.race([once(req, 'response'), once(req, 'timeout')]) *)
      match arrival net with
      | Errored e => (None, raise e, w1)
      | TimedOut =>
          (None, raise (timeout_error (p_opts p)), snd (emit EvDestroy w1))
      | Responded status hdrs =>
          let response := incoming (p_opts p) status hdrs in
          match stream_error net with
          | Some e => (Some response, raise e, w1)
          | None =>
              let w2 :=
                if otruthy (oget (p_opts p) "http2")
                then snd ((emit EvCloseStream;; emit EvCloseSession) w1)
                else w1 in
              let parts := chunks net in
              match parts with
              | [] => (Some response, Ok response, w2)
              | _ :: _ =>
                  match decode_mode (p_responseType p) with
                  | Some mode =>
                      let response := define_body response (Getter mode parts) in
                      (Some response, Ok response, w2)
                  | None => (Some response, raise unsupported_responseType, w2)
                  end
              end
          end
      end
  end.

(** [.catch((err) => { if (response) Object.defineProperty(err,
    'response', { value: response }); throw err; })] *)
Definition on_rejected (response : option Response) (r : Result Response)
  : Result Response :=
  match r, response with
  | Throw e, Some resp => Throw {| thrown := thrown e; err_response := Some resp |}
  | _, _ => r
  end.

(** [.finally(() => { ... nonces.set(nonceKey, dpopNonce) ... })] *)
Definition on_finally (nonceKey : string) (response : option Response) : M unit :=
  let dpopNonce :=
    match response with
    | Some resp => vget (headers resp) "dpop-nonce"
    | None => VUndef
    end in
  if truthy dpopNonce && NQCHAR_test (ToString dpopNonce) then
    do c <- read nonces;
    set_nonces (lru_set c nonceKey dpopNonce)
  else ret tt.

(** ** [request(options, { accessToken, mTLS = false, DPoP } = {})]

    [options] is the object held in the world's [options] field. *)
Definition request (this : Client) (x : Extras) (net : Exchange) : M Response :=
  fun w =>
    match prepare this x w with
    | (Throw e, w1) => (Throw e, w1)
    | (Ok p, w1) =>
        let '(response, r, w2) := exchange p net w1 in
        (on_rejected response r, snd (on_finally (p_nonceKey p) response w2))
    end.

(** ** Reading [response.body] *)

(** The getters of lines 204 to 215 and 223 to 227.  When [JSON.parse]
    throws, [value] is still the concatenated buffer, and the [finally]
    block defines it as the data property before the error, which refers
    to the same response object, leaves the getter. *)
Definition get_body (r : Response) : Result val * Response :=
  match body r with
  | NoBody => (Ok VUndef, r)
  | Data value => (Ok value, r)
  | Getter ModeBuffer parts =>
      let value := VBuf (Buffer_concat parts) in
      (Ok value, define_body r (Data value))
  | Getter ModeJson parts =>
      let value := Buffer_concat parts in
      match JSON_parse value with
      | Some j => (Ok (VJson j), define_body r (Data (VJson j)))
      | None =>
          let r' := define_body r (Data (VBuf value)) in
          (Throw {| thrown := SyntaxError; err_response := Some r' |}, r')
      end
  end.

(** Whether reading [body] runs a getter, that is, decodes. *)
Definition getter_backed (r : Response) : bool :=
  match body r with
  | Getter _ _ => true
  | _ => false
  end.

(** [n] successive reads of [body]: their completions, how many of them
    ran the decoder, and the response afterwards. *)
Fixpoint read_body (n : nat) (r : Response) : list (Result val) * nat * Response :=
  match n with
  | O => ([], O, r)
  | S n' =>
      let (c, r1) := get_body r in
      let '(cs, k, r2) := read_body n' r1 in
      (c :: cs, ((if getter_backed r then 1 else 0) + k)%nat, r2)
  end.

End Engine.

Abbreviation lobj := (list (string * lval)).
Abbreviation LRU := (list (string * val)).

Arguments Ok {A} a.
Arguments Throw {A} e.
Arguments Returns {A} a.
Arguments Throws {A} e.

(** ** A reference host

    A small instance of the platform's built-ins, enough to run the model
    on examples: URLs of the form [scheme://authority/path?query#hash],
    and JSON restricted to integers and strings without escapes. *)
Module Reference.

Definition is_char (c : ascii) (d : ascii) : bool := Ascii.eqb c d.

(** The longest prefix without a stop character, and the rest. *)
Fixpoint span_until (stop : ascii -> bool) (s : list ascii) : list ascii * list ascii :=
  match s with
  | [] => ([], [])
  | c :: s' =>
      if stop c then ([], s)
      else let (a, b) := span_until stop s' in (c :: a, b)
  end.

Definition str (s : list ascii) : string := string_of_list_ascii s.

(** Splits on a separator character. *)
Fixpoint split_on (sep : ascii) (s : list ascii) (cur : list ascii) : list (list ascii) :=
  match s with
  | [] => [rev cur]
  | c :: s' =>
      if Ascii.eqb c sep then rev cur :: split_on sep s' []
      else split_on sep s' (c :: cur)
  end.

Definition query_pair (s : list ascii) : string * string :=
  let (k, v) := span_until (is_char "=") s in
  (str k, str (tl v)).

Definition parse_query (s : list ascii) : list (string * string) :=
  match s with
  | [] => []
  | _ => map query_pair (split_on "&" s [])
  end.

Definition is_lower (c : ascii) : bool :=
  (N.leb 97 (N_of_ascii c) && N.leb (N_of_ascii c) 122)%N.

Definition parse_url (s : string) : option URL :=
  let (scheme, rest) := span_until (is_char ":") (list_ascii_of_string s) in
  match scheme, rest with
  | _ :: _, ":" :: "/" :: "/" :: rest =>
      if forallb is_lower scheme then
        let stop c := is_char "/" c || is_char "?" c || is_char "#" c in
        let (authority, rest) := span_until stop rest in
        let (path, rest) := span_until (fun c => is_char "?" c || is_char "#" c) rest in
        let (query, frag) := span_until (is_char "#") (match rest with "?" :: q => q | _ => rest end) in
        match authority with
        | [] => None
        | _ =>
            Some {| protocol := str (scheme ++ [":"]);
                    origin := str (scheme ++ [":"; "/"; "/"] ++ authority);
                    pathname := match path with [] => "/" | _ => str path end;
                    searchParams := parse_query query;
                    hash := str frag |}
        end
      else None
  | _, _ => None
  end%char.

Definition join (sep : string) (l : list string) : string :=
  match l with
  | [] => ""
  | s :: l' => fold_left (fun acc t => acc ++ sep ++ t) l' s
  end%string.

Definition dquote : string := String (ascii_of_nat 34) EmptyString.

Definition quote (s : string) : string :=
  (dquote ++ s ++ dquote)%string.

(** [JSON.stringify] of data. *)
Fixpoint stringify (j : json) : string :=
  match j with
  | JNull => "null"
  | JBool true => "true"
  | JBool false => "false"
  | JNum z => pretty z
  | JStr s => quote s
  | JArr items => "[" ++ join "," (map stringify items) ++ "]"
  | JObj fields =>
      "{" ++ join "," (map (fun kv => quote (fst kv) ++ ":" ++ stringify (snd kv)) fields) ++ "}"
  end%string.

Definition is_space (c : ascii) : bool :=
  (is_char " " c || is_char "009" c || is_char "010" c || is_char "013" c)%char.

Fixpoint skip_ws (s : list ascii) : list ascii :=
  match s with
  | c :: s' => if is_space c then skip_ws s' else s
  | [] => []
  end.

Definition is_digit (c : ascii) : bool :=
  (N.leb 48 (N_of_ascii c) && N.leb (N_of_ascii c) 57)%N.

Definition digits_value (ds : list ascii) : Z :=
  fold_left (fun acc d => (10 * acc + Z.of_N (N_of_ascii d - 48))%Z) ds 0%Z.

(** An integer literal: no leading zeros, no fraction, no exponent. *)
Definition parse_int (s : list ascii) : option (Z * list ascii) :=
  let (neg, s1) := match s with "-"%char :: r => (true, r) | _ => (false, s) end in
  let (ds, rest) := span_until (fun c => negb (is_digit c)) s1 in
  match ds with
  | [] => None
  | "0"%char :: _ :: _ => None
  | _ =>
      match rest with
      | "."%char :: _ | "e"%char :: _ | "E"%char :: _ => None
      | _ => Some (if neg then (- digits_value ds)%Z else digits_value ds, rest)
      end
  end.

(** A string literal after its opening quote: no escapes, no control
    characters. *)
Definition parse_chars (s : list ascii) : option (string * list ascii) :=
  let stop c := Ascii.eqb c (ascii_of_nat 34) || is_char "\" c
                || N.ltb (N_of_ascii c) 32 in
  let (cs, rest) := span_until stop s in
  match rest with
  | q :: rest' => if Ascii.eqb q (ascii_of_nat 34) then Some (str cs, rest') else None
  | [] => None
  end.

(** The elements of an array after the first, up to the closing bracket. *)
Fixpoint parse_items (value : list ascii -> option (json * list ascii)) (n : nat)
  (s : list ascii) : option (list json * list ascii) :=
  match n with
  | O => None
  | S n' =>
      match skip_ws s with
      | "]"%char :: rest => Some ([], rest)
      | ","%char :: rest =>
          match value rest with
          | Some (j, rest') =>
              match parse_items value n' rest' with
              | Some (js, rest'') => Some (j :: js, rest'')
              | None => None
              end
          | None => None
          end
      | _ => None
      end
  end.

Definition parse_member (value : list ascii -> option (json * list ascii))
  (s : list ascii) : option (string * json * list ascii) :=
  match skip_ws s with
  | q :: rest =>
      if Ascii.eqb q (ascii_of_nat 34) then
        match parse_chars rest with
        | Some (k, rest') =>
            match skip_ws rest' with
            | ":"%char :: rest'' =>
                match value rest'' with
                | Some (j, r) => Some (k, j, r)
                | None => None
                end
            | _ => None
            end
        | None => None
        end
      else None
  | [] => None
  end.

(** The members of an object after the first, up to the closing brace. *)
Fixpoint parse_members (value : list ascii -> option (json * list ascii)) (n : nat)
  (s : list ascii) : option (list (string * json) * list ascii) :=
  match n with
  | O => None
  | S n' =>
      match skip_ws s with
      | "}"%char :: rest => Some ([], rest)
      | ","%char :: rest =>
          match parse_member value rest with
          | Some (k, j, rest') =>
              match parse_members value n' rest' with
              | Some (ms, rest'') => Some ((k, j) :: ms, rest'')
              | None => None
              end
          | None => None
          end
      | _ => None
      end
  end.

Definition starts_with (p s : list ascii) : option (list ascii) :=
  if decide (firstn (length p) s = p)
  then Some (skipn (length p) s) else None.

Fixpoint parse_value (fuel : nat) (s : list ascii) : option (json * list ascii) :=
  match fuel with
  | O => None
  | S fuel' =>
      let s := skip_ws s in
      match s with
      | [] => None
      | c :: rest =>
          if Ascii.eqb c (ascii_of_nat 34) then
            match parse_chars rest with
            | Some (t, r) => Some (JStr t, r)
            | None => None
            end
          else if is_char "[" c then
            match skip_ws rest with
            | "]"%char :: r => Some (JArr [], r)
            | _ =>
                match parse_value fuel' rest with
                | Some (j, r) =>
                    match parse_items (parse_value fuel') (length r) r with
                    | Some (js, r') => Some (JArr (j :: js), r')
                    | None => None
                    end
                | None => None
                end
            end
          else if is_char "{" c then
            match skip_ws rest with
            | "}"%char :: r => Some (JObj [], r)
            | _ =>
                match parse_member (parse_value fuel') rest with
                | Some (k, j, r) =>
                    match parse_members (parse_value fuel') (length r) r with
                    | Some (ms, r') => Some (JObj ((k, j) :: ms), r')
                    | None => None
                    end
                | None => None
                end
            end
          else
            match starts_with (list_ascii_of_string "null") s,
                  starts_with (list_ascii_of_string "true") s,
                  starts_with (list_ascii_of_string "false") s with
            | Some r, _, _ => Some (JNull, r)
            | _, Some r, _ => Some (JBool true, r)
            | _, _, Some r => Some (JBool false, r)
            | _, _, _ =>
                match parse_int s with
                | Some (z, r) => Some (JNum z, r)
                | None => None
                end
            end
      end
  end.

(** [JSON.parse] of the bytes of a buffer. *)
Definition parse (b : bytes) : option json :=
  let s := map ascii_of_byte b in
  match parse_value (S (length s)) s with
  | Some (j, rest) => match skip_ws rest with [] => Some j | _ => None end
  | None => None
  end.

(** [querystring.stringify] of a map of strings made of unreserved
    characters. *)
Definition form_encode (v : oval) : string :=
  match v with
  | OVal (VJson (JObj fields)) =>
      join "&" (map (fun kv =>
                       (fst kv ++ "=" ++ match snd kv with JStr s => s | j => stringify j end)%string)
                  fields)
  | _ => ""
  end.

#[export] Instance host : Host := {|
  URL_parse := parse_url;
  JSON_stringify := fun v => match v with OVal (VJson j) => stringify j | _ => "{}" end;
  JSON_parse := parse;
  querystring_stringify := form_encode;
  structured_toString := fun _ => "[object Object]";
  code_units := fun s => map (fun c => String c EmptyString) (list_ascii_of_string s);
  structured_entries := fun _ => [];
  pkg_user_agent := "openid-client/5.1.0 (https://github.com/panva/node-openid-client)"
|}.

End Reference.


(** ** Notions the properties are stated with *)

Section Notions.
Context `{Host}.

(** The caller's [url] option is an absolute http or https URL. *)
Definition absolute_http_url (o : oobj) : bool :=
  match URL_parse (OToString (oget o "url")) with
  | Some url => http_protocol (protocol url)
  | None => false
  end.

(** The test of the completion step: [dpopNonce && NQCHAR.test(dpopNonce)]. *)
Definition cacheable (v : val) : bool :=
  truthy v && NQCHAR_test (ToString v).

(** The host calls a run made: what the trace gained. *)
Definition calls (w w' : World) : list event :=
  drop (length (trace w)) (trace w').

Definition lower_char (c : ascii) : ascii :=
  let n := N_of_ascii c in
  if (N.leb 65 n && N.leb n 90)%N then ascii_of_N (n + 32) else c.

Definition lower (s : string) : string :=
  string_of_list_ascii (map lower_char (list_ascii_of_string s)).

(** The header fields of the outgoing message, as the host calls of a run
    determine them: the header map the request was created with, then
    [removeHeader], which goes by lower-cased name, and [setHeader], which
    [send] calls with a lower-case name right after it has removed the
    field of that name. *)
Definition wire_headers_step (hs : obj) (e : event) : obj :=
  match e with
  | EvH2Request hdrs => hdrs
  | EvH1Request _ _ _ (Some hdrs) => hdrs
  | EvRemoveHeader name =>
      List.filter (fun kv => negb (String.eqb (lower (fst kv)) (lower name))) hs
  | EvSetHeader name value => prop_set hs name value
  | _ => hs
  end.

Definition wire_headers (evs : list event) : obj :=
  fold_left wire_headers_step evs [].

(** The values a header map holds for a field name, under any spelling
    of the name: header names are case-insensitive on the wire. *)
Definition fields (hs : obj) (name : string) : list val :=
  map snd (List.filter (fun kv => String.eqb (lower (fst kv)) (lower name)) hs).

(** The header map holds the field [name] under no other spelling. *)
Definition spelled (hs : obj) (name : string) : Prop :=
  forall k v, In (k, v) hs -> lower k = lower name -> k = name.

(** The header map a request is created with, if any, holds the payload
    fields [content-type] and [content-length] under no other spelling. *)
Definition payload_fields_spelled (hdrs : option obj) : Prop :=
  match hdrs with
  | Some hs => spelled hs "content-type" /\ spelled hs "content-length"
  | None => True
  end.

(** The bytes written to the request, in order. *)
Definition wire_body (evs : list event) : bytes :=
  concat (omap (fun e => match e with EvWrite data => Some data | _ => None end) evs).

(** The world after the body has been drained: on http2 the stream and
    the session are closed. *)
Definition drained (p : Prepared) (w : World) : World :=
  if otruthy (oget (p_opts p) "http2")
  then snd (bind (emit EvCloseStream) (fun _ => emit EvCloseSession) w)
  else w.

(** The error a completion threw, if it threw. *)
Definition thrown_by {A} (r : Result A) : option Error :=
  match r with
  | Throw e => Some (thrown e)
  | Ok _ => None
  end.

(** Host calls that put nothing on the wire: they leave the outgoing
    header fields and body as they are. *)
Definition inert (e : event) : bool :=
  match e with
  | EvH2Request _ | EvH1Request _ _ _ _ | EvRemoveHeader _ | EvSetHeader _ _
  | EvWrite _ => false
  | _ => true
  end.

(** [a] when it is defined, else [b]. *)
Definition defined_or (a b : oval) : oval :=
  if is_undefined a then b else a.

(** The first defined value of a list, [undefined] when there is none. *)
Definition precedence (vs : list oval) : oval :=
  fold_right defined_or (OVal VUndef) vs.

(** A property of a source of [defaults], which may be [undefined]. *)
Definition source_get (s : option oobj) (k : string) : oval :=
  match s with
  | Some o => oget o k
  | None => OVal VUndef
  end.

(** The object [alloc_lobj] builds from a literal when the store has [n]
    objects, and the objects it adds to the store. *)
Fixpoint lobj_alloc (n : nat) (r : lobj) : oobj * list obj :=
  match r with
  | [] => ([], [])
  | (k, LVal v) :: r' =>
      let (o, hs) := lobj_alloc n r' in ((k, OVal v) :: o, hs)
  | (k, LObj f) :: r' =>
      let (o, hs) := lobj_alloc (S n) r' in ((k, ORef n) :: o, f :: hs)
  | (k, LRef l) :: r' =>
      let (o, hs) := lobj_alloc n r' in ((k, ORef l) :: o, hs)
  end.

(** What the hook is shown: [defaultsDeep({}, opts, DEFAULT_HTTP_OPTIONS)],
    and the store that merge leaves. *)
Definition premerged (w : World) : oobj * store :=
  defaults true [] [Some (options w); DEFAULT_HTTP_OPTIONS w] (heap w).

(** The store in which the final merge starts: the store [h] left by the
    merge of [premerged], with the hook's writes [ws] and the objects it
    made for its answer [r]. *)
Definition hooked (ws : list (loc * obj)) (r : lobj) (h : store) : store :=
  write_all ws h ++ snd (lobj_alloc (length (write_all ws h)) r).

(** [a] when it is defined, else [b]. *)
Definition vdefined_or (a b : val) : val := if is_undef a then b else a.

(** The entry [k] of the header map a value refers to in the store [h];
    [undefined] when the value is no object of the store. *)
Definition header_of (h : store) (v : oval) (k : string) : val :=
  match v with
  | ORef l => match h !! l with Some o => vget o k | None => VUndef end
  | OVal _ => VUndef
  end.

(** The nested merge of [defaultsDeep] for one property: when both the
    target's and the source's values are objects of the store, the
    target's object is filled from the source's. *)
Definition deep_fill (h : store) (target source : oval) : store :=
  match target, source with
  | ORef lt, ORef ls =>
      match h !! lt, h !! ls with
      | Some ot, Some os => <[lt := defaults_flat ot os]> h
      | _, _ => h
      end
  | _, _ => h
  end.

(** Only [headers] holds an object of the store: the other nested values
    of the options are data. *)
Definition flat (o : oobj) : Prop := forall k l, In (k, ORef l) o -> k = "headers".

Definition flat_source (s : option oobj) : Prop :=
  match s with Some o => flat o | None => True end.

(** Every object of the store has one value per key. *)
Definition well_keyed (h : store) : Prop :=
  forall l o, h !! l = Some o -> NoDup (map fst o).

(** What the hook answers in world [w]. *)
Definition hook_answer (this : Client) (url : URL) (w : World)
  : option (list (loc * obj) * Completion lobj) :=
  match HTTP_OPTIONS this with
  | Some optsFn => Some (optsFn url (fst (premerged w)) (snd (premerged w)))
  | None => None
  end.

(** The store in which the final merge of the options starts: as the
    hook has left it when one is installed and returns, else the store of
    the call. *)
Definition merge_store (this : Client) (url : URL) (w : World) : store :=
  match hook_answer this url w with
  | Some (ws, Returns r) => hooked ws r (snd (premerged w))
  | Some (ws, Throws _) => write_all ws (snd (premerged w))
  | None => heap w
  end.

(** Objects have one value per key. *)
Definition unique_keys {A} (o : list (string * A)) : Prop := NoDup (map fst o).

Definition unique_source (s : option oobj) : Prop :=
  match s with Some o => unique_keys o | None => True end.

(** The caller's [headers] option is absent (or otherwise falsy), or it
    is a plain object. *)
Definition headers_ready (o : oobj) (h : store) : Prop :=
  match oget o "headers" with
  | ORef l => exists hs, h !! l = Some hs /\ unique_keys hs
  | OVal v => truthy v = false
  end.

(** The hook, if there is one, returns no [headers], or returns the
    [headers] of the options it was shown. *)
Definition hook_keeps_header_map (this : Client) : Prop :=
  match HTTP_OPTIONS this with
  | Some optsFn =>
      forall url merged h ws r, optsFn url merged h = (ws, Returns r) ->
        match prop_lookup r "headers" with
        | None => True
        | Some (LVal v) => v = VUndef \/ oget merged "headers" = OVal v
        | Some (LRef l) => oget merged "headers" = ORef l
        | Some (LObj _) => False
        end
  | None => True
  end.

(** The hook returns a header map that it made. *)
Definition hook_makes_headers (this : Client) : Prop :=
  match HTTP_OPTIONS this with
  | Some optsFn =>
      forall url merged h ws r, optsFn url merged h = (ws, Returns r) ->
        match prop_lookup r "headers" with
        | Some (LObj _) => True
        | _ => False
        end
  | None => False
  end.

(** The hook returns a header map that it made, with no entry [k]. *)
Definition hook_makes_headers_without (this : Client) (k : string) : Prop :=
  match HTTP_OPTIONS this with
  | Some optsFn =>
      forall url merged h ws r, optsFn url merged h = (ws, Returns r) ->
        match prop_lookup r "headers" with
        | Some (LObj f) => vget f k = VUndef
        | _ => False
        end
  | None => False
  end.

(** What the hook writes and answers is well-formed: the objects have one
    value per key, and among the properties of the answer only [headers]
    is a plain object. *)
Definition tidy_answer (ws : list (loc * obj)) (r : lobj) : Prop :=
  Forall (fun wr => unique_keys (snd wr)) ws /\
  forall k v, In (k, v) r ->
    match v with
    | LVal _ => True
    | LObj f => k = "headers" /\ unique_keys f
    | LRef _ => k = "headers"
    end.

Definition tidy_hook (this : Client) : Prop :=
  match HTTP_OPTIONS this with
  | Some optsFn =>
      forall url merged h ws r, optsFn url merged h = (ws, Returns r) -> tidy_answer ws r
  | None => True
  end.

(** A step respects a relation between worlds when every run of it, normal
    or abrupt, relates the world before to the world after. *)
Definition respects {A} (R : World -> World -> Prop) (m : M A) : Prop :=
  forall w r w', m w = (r, w') -> R w w'.

(** The trace only grows. *)
Definition extends (w w' : World) : Prop :=
  exists evs, trace w' = trace w ++ evs.

(** Steps that leave a component of the world alone. *)
Definition keeps {B} (f : World -> B) (w w' : World) : Prop := f w' = f w.

(** Steps that make only inert host calls. *)
Definition quiet (w w' : World) : Prop :=
  exists evs, trace w' = trace w ++ evs /\ Forall (fun e => inert e = true) evs.

(** The host calls of [prepare]: inert ones (the proof capability, the
    hook), then the creation of the request. *)
Definition creation (p : Prepared) (hdrs : option obj) : list event :=
  match p_req p with
  | ClientHttp2Stream =>
      [EvH2Connect (origin (p_url p));
       EvH2Request (http2_headers (p_url p) hdrs (p_json p) (p_form p) (p_body p));
       EvSetTimeout (oget (p_opts p) "timeout")]
  | ClientRequest =>
      [EvH1Request (String.eqb (protocol (p_url p)) "https:") (p_url p) (p_opts p) hdrs]
  end.

(** Sending a JSON payload. *)
Definition json_transmission (p : Prepared) : list event :=
  let js := JSON_stringify (p_json p) in
  match p_req p with
  | ClientHttp2Stream => [EvWrite (utf8 js); EvEnd]
  | ClientRequest =>
      [EvRemoveHeader "content-type";
       EvSetHeader "content-type" (VStr "application/json");
       EvRemoveHeader "content-length";
       EvSetHeader "content-length" (VNum (Z.of_nat (length (utf8 js))));
       EvWrite (utf8 js); EvEnd]
  end.

(** The loop of [drop_undefined], for any snapshot [l] and live object. *)
Definition drop_step (acc : obj) (kv : string * val) : obj :=
  if is_undef (snd kv) then prop_delete acc (fst kv) else acc.

(** A well-formed object keeps its defined properties (and stays
    well-formed). *)
Definition obj_le (o o' : obj) : Prop :=
  unique_keys o ->
  unique_keys o' /\ forall k, is_undef (vget o k) = false -> vget o' k = vget o k.

(** The store only gains: every object stays where it is, and is kept
    in the sense of [obj_le]. *)
Definition heap_le (h h' : store) : Prop :=
  forall l o, h !! l = Some o -> exists o', h' !! l = Some o' /\ obj_le o o'.

(** Steps under which the store only gains. *)
Definition grows (w w' : World) : Prop := heap_le (heap w) (heap w').

(** The hook, if there is one, only adds to the objects it is given: its
    writes, whether it then returns or throws, leave the defined
    properties of every object as they are. *)
Definition hook_only_adds (this : Client) : Prop :=
  match HTTP_OPTIONS this with
  | Some optsFn =>
      forall url merged h ws c, optsFn url merged h = (ws, c) ->
        heap_le h (write_all ws h)
  | None => True
  end.

(** The world in which the proof is requested, and the request made. *)
Definition proof_request (x : Extras) (url : URL) (key : string) (wa : World)
  : oval * ProofPayload * World :=
  let o := options wa in
  let fresh := negb (otruthy (oget o "headers")) in
  let hs := if fresh then ORef (length (heap wa)) else oget o "headers" in
  let payload :=
    {| htu := (origin url ++ pathname url)%string;
       htm := oget (prop_set o "headers" hs) "method";
       nonce := fst (lru_get (nonces wa) key) |} in
  (hs, payload,
   {| heap := if fresh then (heap wa ++ [[]])%list else heap wa;
      DEFAULT_HTTP_OPTIONS := DEFAULT_HTTP_OPTIONS wa;
      nonces := snd (lru_get (nonces wa) key);
      trace := trace wa ++ [EvDpopProof payload (DPoP x) (accessToken x)];
      options := prop_set o "headers" hs |}).

(** The options as merged at line 121, for a call that gets that far:
    lines 89 to 121. *)
Definition resolved_options (this : Client) (x : Extras) : M oobj :=
  bind parse_url (fun url =>
    bind (inject_proof this x url (origin url ++ pathname url)%string)
      (fun _ => merge_options this url)).

(** The stage of a call that a host call belongs to: the proof
    capability, the hook, the creation of the request, sending, and what
    follows the race. *)
Definition stage (e : event) : nat :=
  match e with
  | EvDpopProof _ _ _ => 0
  | EvOptsFn _ _ => 1
  | EvH2Connect _ | EvH2Request _ | EvSetTimeout _ | EvH1Request _ _ _ _ => 2
  | EvRemoveHeader _ | EvSetHeader _ _ | EvWrite _ | EvEnd => 3
  | EvDestroy | EvCloseStream | EvCloseSession => 4
  end.

(** Host calls from stage [n] on, in the order of the stages. *)
Fixpoint staged (n : nat) (evs : list event) : bool :=
  match evs with
  | [] => true
  | e :: evs' => Nat.leb n (stage e) && staged (stage e) evs'
  end.

(** Steps whose host calls all satisfy [P]. *)
Definition emits (P : event -> bool) (w w' : World) : Prop :=
  exists evs, trace w' = trace w ++ evs /\ Forall (fun e => P e = true) evs.

Definition offline (e : event) : bool := negb (opens_socket e).

Definition at_stage (n : nat) (e : event) : bool := Nat.eqb (stage e) n.

(** The connections a run opened. *)
Definition connections (evs : list event) : nat :=
  length (List.filter opens_socket evs).

(** The host calls of [transmit]. *)
Definition sent (p : Prepared) (w1 : World) : list event :=
  calls w1 (snd (transmit p w1)).

(** A request carries a payload when [json], [form] or [body] is truthy. *)
Definition has_payload (p : Prepared) : bool :=
  otruthy (p_json p) || otruthy (p_form p) || otruthy (p_body p).

(** The header map the request is created with, as an object. *)
Definition header_map (hdrs : option obj) : obj :=
  match hdrs with Some o => o | None => [] end.

(** Every cached nonce passes the test of the completion step, and the
    cache is within its capacity. *)
Definition cache_ok (c : LRU) : Prop :=
  Forall (fun kv => cacheable (snd kv) = true) c /\ (length c <= LRU_max)%nat.

Definition keeps_cache_ok (w w' : World) : Prop :=
  cache_ok (nonces w) -> cache_ok (nonces w').

(** A string or a buffer: what [Buffer.from] and [write] take as a body. *)
Definition is_data (v : oval) : bool :=
  match v with
  | OVal (VJson (JStr _)) | OVal (VBuf _) => true
  | _ => false
  end.

(** The characters of [NQCHAR], said otherwise: printable ASCII without
    the space, the double quote and the backslash. *)
Definition printable_unquoted (c : ascii) : bool :=
  let n := N_of_ascii c in
  (N.ltb 0x20 n && N.ltb n 0x7F && negb (N.eqb n 0x22) && negb (N.eqb n 0x5C))%N.

End Notions.

(** ** Example runs

    Concrete clients, options and exchanges, run on the reference host. *)
Module Scenario.
Import Reference.

(** The world after the module has been loaded, with the caller's options
    and the objects they refer to. *)
Definition booted : World := snd (module_init initial_world).

Definition calling (o : oobj) (objects : list obj) : World :=
  {| heap := heap booted ++ objects;
     DEFAULT_HTTP_OPTIONS := DEFAULT_HTTP_OPTIONS booted;
     nonces := nonces booted; trace := []; options := o |}.

(** The same world for a later call, with other options. *)
Definition again (w : World) (o : oobj) : World :=
  {| heap := heap w; DEFAULT_HTTP_OPTIONS := DEFAULT_HTTP_OPTIONS w;
     nonces := nonces w; trace := []; options := o |}.

Definition token_url : oval := OVal (VStr "https://op.example/token").

Definition plain_client : Client := {| HTTP_OPTIONS := None; dpopProof := None |}.

(** A capability whose proof shows the URI and the nonce it was given. *)
Definition dpop_client : Client :=
  {| HTTP_OPTIONS := None;
     dpopProof := Some (fun payload _ _ =>
       Returns (VStr ("proof for " ++ htu payload ++ " with nonce " ++ ToString (nonce payload)))) |}.

(** A hook that sets a timeout, a header, and a field outside the
    allow-list. *)
Definition hook_client : Client :=
  {| HTTP_OPTIONS := Some (fun _ _ _ =>
       ([], Returns [("timeout", LVal (VNum 1000));
                     ("headers", LObj [("X-Trace", VStr "on")]);
                     ("responseType", LVal (VStr "json"))]));
     dpopProof := None |}.

(** The same capability, behind a hook that returns a header map of its
    own: one without a [DPoP] entry, and one with. *)
Definition traced_dpop_client : Client :=
  {| HTTP_OPTIONS := Some (fun _ _ _ =>
       ([], Returns [("headers", LObj [("X-Trace", VStr "on")])]));
     dpopProof := dpopProof dpop_client |}.

Definition overriding_client : Client :=
  {| HTTP_OPTIONS := Some (fun _ _ _ =>
       ([], Returns [("headers", LObj [("DPoP", VStr "from-hook")])]));
     dpopProof := dpopProof dpop_client |}.

(** A hook that returns the header map of the options it is shown:
    [(url, options) => ({ headers: options.headers })]. *)
Definition echo_client : Client :=
  {| HTTP_OPTIONS := Some (fun _ merged _ =>
       ([], Returns [("headers", match oget merged "headers" with
                                 | ORef l => LRef l
                                 | OVal v => LVal v
                                 end)]));
     dpopProof := None |}.

Definition no_extras : Extras :=
  {| accessToken := OVal VUndef; mTLS := false; DPoP := OVal VUndef |}.

Definition dpop_extras : Extras :=
  {| accessToken := OVal (VStr "at"); mTLS := false; DPoP := OVal (VHost 1) |}.

Definition replies (status : Z) (hdrs : obj) (body : list bytes) : Exchange :=
  {| arrival := Responded status hdrs; chunks := body; stream_error := None |}.

Definition silence : Exchange :=
  {| arrival := TimedOut; chunks := []; stream_error := None |}.

(** An unsupported decode mode. *)
Definition text_options : oobj := [("url", token_url); ("responseType", OVal (VStr "text"))].

Definition json_options : oobj := [("url", token_url); ("responseType", OVal (VStr "json"))].

(** A JSON payload [{x: 1}], on either transport. *)
Definition post_options (h2 : bool) : oobj :=
  [("url", token_url); ("method", OVal (VStr "POST"));
   ("json", OVal (VJson (JObj [("x", JNum 1)]))); ("http2", OVal (VBool h2))].

(** Options with a timeout of their own and a headers object (at
    location 1) with an [undefined] entry. *)
Definition tuned_options : oobj :=
  [("url", token_url); ("timeout", OVal (VNum 5000)); ("headers", ORef 1)].

Definition tuned_headers : obj := [("Accept", VStr "application/json"); ("A", VUndef)].

Definition dpop_options : oobj := [("url", token_url); ("method", OVal (VStr "POST"))].

(** A header map that spells the content type its own way. *)
Definition typed_headers : obj := [("Content-Type", VStr "text/plain")].

Definition typed_post_options (h2 : bool) : oobj :=
  ("headers", ORef 1) :: post_options h2.

(** The URL of the examples, parsed. *)
Definition example_url : URL :=
  {| protocol := "https:"; origin := "https://op.example"; pathname := "/token";
     searchParams := []; hash := "" |}.

(** The world after a response with [dpop-nonce: abc123] from
    [https://op.example/token], ready for the next call. *)
Definition after_nonce : World :=
  again (snd (request plain_client no_extras
                (replies 401 [("dpop-nonce", VStr "abc123")] [])
                (calling dpop_options [])))
        dpop_options.

(** Mutual TLS requested. *)
Definition mtls_extras : Extras :=
  {| accessToken := OVal VUndef; mTLS := true; DPoP := OVal VUndef |}.

Definition bare_options : oobj := [("url", token_url)].

Definition pfx_options : oobj := [("url", token_url); ("pfx", OVal (VStr "p12"))].

(** No payload, on either transport. *)
Definition get_options (h2 : bool) : oobj :=
  [("url", token_url); ("http2", OVal (VBool h2))].

(** Form fields [{grant_type: 'refresh_token'}], on either transport. *)
Definition form_options (h2 : bool) : oobj :=
  [("url", token_url);
   ("form", OVal (VJson (JObj [("grant_type", JStr "refresh_token")])));
   ("body", OVal (VStr "ignored")); ("http2", OVal (VBool h2))].

(** The form [{}]. *)
Definition empty_form_options (h2 : bool) : oobj :=
  [("url", token_url); ("form", OVal (VJson (JObj []))); ("http2", OVal (VBool h2))].

(** A raw body, on either transport. *)
Definition body_options (h2 : bool) : oobj :=
  [("url", token_url); ("body", OVal (VStr "a=1")); ("http2", OVal (VBool h2))].

(** A URL with a query, and parameters to merge into it. *)
Definition search_options : oobj :=
  [("url", OVal (VStr "https://op.example/auth?scope=openid&state=old&ui=page"));
   ("searchParams", OVal (VJson (JObj [("state", JStr "new"); ("nonce", JStr "n1")])))].

Definition search_url : URL :=
  {| protocol := "https:"; origin := "https://op.example"; pathname := "/auth";
     searchParams := [("scope", "openid"); ("state", "old"); ("ui", "page")];
     hash := "" |}.

(** A capability that throws. *)
Definition failing_client : Client :=
  {| HTTP_OPTIONS := None; dpopProof := Some (fun _ _ _ => Throws (HostError 7)) |}.

(** A connection that fails before any response, and a stream that
    fails while the body is read. *)
Definition refused : Exchange :=
  {| arrival := Errored (HostError 1); chunks := []; stream_error := None |}.

Definition broken (status : Z) (hdrs : obj) : Exchange :=
  {| arrival := Responded status hdrs; chunks := []; stream_error := Some (HostError 2) |}.

End Scenario.
(** * Properties *)

(** ** Property access *)

Section PropLemmas.
Context {A : Type}.
Implicit Types (o : list (string * A)) (k : string).

Lemma prop_lookup_set_eq o k v : prop_lookup (prop_set o k v) k = Some v.
Proof.
  induction o as [|[k' v'] o IH]; simpl.
  - by rewrite String.eqb_refl.
  - destruct (String.eqb k k') eqn:E; simpl; rewrite E; [done | exact IH].
Qed.

Lemma prop_lookup_set_ne o k k' v :
  k <> k' -> prop_lookup (prop_set o k v) k' = prop_lookup o k'.
Proof.
  intros Hne. induction o as [|[k0 v0] o IH]; simpl.
  - destruct (String.eqb_spec k' k); [congruence | done].
  - destruct (String.eqb_spec k k0) as [->|]; simpl.
    + destruct (String.eqb_spec k' k0); [congruence | done].
    + by rewrite IH.
Qed.

Lemma prop_lookup_delete_eq o k : prop_lookup (prop_delete o k) k = None.
Proof.
  induction o as [|[k' v'] o IH]; simpl; [done|].
  destruct (String.eqb k k') eqn:E; simpl; [exact IH | by rewrite E].
Qed.

Lemma prop_lookup_delete_ne o k k' :
  k <> k' -> prop_lookup (prop_delete o k) k' = prop_lookup o k'.
Proof.
  intros Hne. induction o as [|[k0 v0] o IH]; simpl; [done|].
  destruct (String.eqb_spec k k0) as [->|]; simpl.
  - destruct (String.eqb_spec k' k0); [congruence | exact IH].
  - by rewrite IH.
Qed.

Lemma prop_lookup_In o k v : prop_lookup o k = Some v -> In (k, v) o.
Proof.
  induction o as [|[k' v'] o IH]; simpl; [done|].
  destruct (String.eqb_spec k k') as [->|]; [intros [= ->]; by left | auto].
Qed.

Lemma prop_delete_In o k k' v : In (k', v) (prop_delete o k) -> In (k', v) o /\ k <> k'.
Proof.
  induction o as [|[k0 v0] o IH]; simpl; [done|].
  destruct (String.eqb_spec k k0) as [->|].
  - intros Hin. destruct (IH Hin). auto.
  - intros [[= -> ->]|Hin]; [auto|]. destruct (IH Hin). auto.
Qed.

End PropLemmas.

Lemma vget_set_eq (o : obj) k v : vget (prop_set o k v) k = v.
Proof. unfold vget. by rewrite prop_lookup_set_eq. Qed.

Lemma vget_set_ne (o : obj) k k' v : k <> k' -> vget (prop_set o k v) k' = vget o k'.
Proof. intros. unfold vget. by rewrite prop_lookup_set_ne. Qed.

Lemma oget_set_eq (o : oobj) k v : oget (prop_set o k v) k = v.
Proof. unfold oget. by rewrite prop_lookup_set_eq. Qed.

Lemma oget_set_ne (o : oobj) k k' v : k <> k' -> oget (prop_set o k v) k' = oget o k'.
Proof. intros. unfold oget. by rewrite prop_lookup_set_ne. Qed.

Lemma oget_delete_ne (o : oobj) k k' : k <> k' -> oget (prop_delete o k) k' = oget o k'.
Proof. intros. unfold oget. by rewrite prop_lookup_delete_ne. Qed.

Section Properties.
Context `{Host}.

(** ** The lazy body *)

Lemma get_body_settles r : getter_backed (snd (get_body r)) = false.
Proof.
  unfold get_body, getter_backed.
  destruct r as [s h [|[|] parts|v]]; simpl; try done.
  by destruct (JSON_parse _).
Qed.

Lemma get_body_keeps_status r :
  statusCode (snd (get_body r)) = statusCode r /\ headers (snd (get_body r)) = headers r.
Proof.
  unfold get_body.
  destruct r as [s h [|[|] parts|v]]; simpl; try done.
  by destruct (JSON_parse _).
Qed.

(** A body that is not backed by a getter reads the same value every
    time, and reading it changes nothing. *)
Lemma get_body_settled r :
  getter_backed r = false ->
  exists v, get_body r = (Ok v, r) /\
            v = match body r with Data v => v | _ => VUndef end.
Proof.
  unfold get_body, getter_backed.
  destruct r as [s h [|m parts|v]]; simpl; intros E; try discriminate; eauto.
Qed.

Lemma read_body_settled n r v :
  getter_backed r = false ->
  get_body r = (Ok v, r) ->
  read_body n r = (repeat (Ok v) n, 0, r).
Proof.
  intros Hg Hv. induction n as [|n IH]; simpl; [done|].
  by rewrite Hv, IH, Hg.
Qed.

(** C9: the body is decoded at most once.  In any number of successive
    reads of [body] the decoder runs at most one time; once a read has
    returned a value, the property is a data property holding it, and
    every later read returns that same value without decoding again. *)
Theorem body_decoded_at_most_once (r : Response) :
  (forall n, snd (fst (read_body n r)) <= 1) /\
  (forall v r1, get_body r = (Ok v, r1) ->
     body r1 = Data v \/ (body r = NoBody /\ v = VUndef /\ r1 = r)) /\
  (forall v r1, get_body r = (Ok v, r1) ->
     forall n, read_body n r1 = (repeat (Ok v) n, 0, r1)).
Proof.
  split; [|split].
  - intros [|n]; simpl; [lia|].
    destruct (get_body r) as [c r1] eqn:E.
    pose proof (get_body_settles r) as Hs. rewrite E in Hs. simpl in Hs.
    destruct (get_body_settled r1 Hs) as (v & Hv & _).
    rewrite (read_body_settled n r1 v Hs Hv). simpl.
    destruct (getter_backed r); lia.
  - intros v r1. unfold get_body.
    destruct r as [s h [|[|] parts|v0]]; simpl.
    + intros [= <- <-]. right. done.
    + destruct (JSON_parse _); [|discriminate]. intros [= <- <-]. by left.
    + intros [= <- <-]. by left.
    + intros [= <- <-]. by left.
  - intros v r1 E n.
    pose proof (get_body_settles r) as Hs. rewrite E in Hs. simpl in Hs.
    destruct (get_body_settled r1 Hs) as (v' & Hv & Hv').
    assert (v' = v) as ->.
    { subst v'. revert E. unfold get_body.
      destruct r as [s h [|[|] parts|v0]]; simpl.
      - by intros [= <- <-].
      - destruct (JSON_parse _); [|discriminate]. by intros [= <- <-].
      - by intros [= <- <-].
      - by intros [= <- <-]. }
    by apply read_body_settled.
Qed.

(** ** Reasoning about steps *)

Lemma bind_inv {A B} (m : M A) (k : A -> M B) w r w' :
  bind m k w = (r, w') ->
  (exists a w1, m w = (Ok a, w1) /\ k a w1 = (r, w')) \/
  (exists e, m w = (Throw e, w') /\ r = Throw e).
Proof.
  unfold bind. destruct (m w) as [[a|e] w1]; [eauto | intros [= <- <-]; eauto].
Qed.

Lemma bind_ok {A B} (m : M A) (k : A -> M B) w a w1 :
  m w = (Ok a, w1) -> bind m k w = k a w1.
Proof. unfold bind. by intros ->. Qed.

Lemma bind_throw {A B} (m : M A) (k : A -> M B) w e w1 :
  m w = (Throw e, w1) -> bind m k w = (Throw e, w1).
Proof. unfold bind. by intros ->. Qed.

Section Respects.
Context (R : World -> World -> Prop) `{!PreOrder R}.

Lemma respects_ret {A} (a : A) : respects R (ret a).
Proof. intros w r w' [= <- <-]. reflexivity. Qed.

Lemma respects_throw {A} e : respects R (@throw A e).
Proof. intros w r w' [= <- <-]. reflexivity. Qed.

Lemma respects_read {A} (f : World -> A) : respects R (read f).
Proof. intros w r w' [= <- <-]. reflexivity. Qed.

Lemma respects_lift {A} (c : Completion A) : respects R (lift c).
Proof. destruct c; [apply respects_ret | apply respects_throw]. Qed.

Lemma respects_bind {A B} (m : M A) (k : A -> M B) :
  respects R m -> (forall a, respects R (k a)) -> respects R (bind m k).
Proof.
  intros Hm Hk w r w' E.
  destruct (bind_inv _ _ _ _ _ E) as [(a & w1 & E1 & E2)|(e & E1 & _)].
  - etransitivity; [exact (Hm _ _ _ E1) | exact (Hk _ _ _ _ E2)].
  - exact (Hm _ _ _ E1).
Qed.

End Respects.

#[local] Instance extends_preorder : PreOrder extends.
Proof.
  split.
  - intros w. exists []. by rewrite app_nil_r.
  - intros w1 w2 w3 [e1 E1] [e2 E2]. exists (e1 ++ e2).
    by rewrite E2, E1, app_assoc.
Qed.

#[local] Instance keeps_preorder {B} (f : World -> B) : PreOrder (keeps f).
Proof.
  split; [by intros w | intros w1 w2 w3 E1 E2; unfold keeps in *; congruence].
Qed.

(** The primitive steps: each changes one component of the world. *)
Ltac prim_step :=
  let E := fresh in
  intros ? ? ? E;
  unfold emit, set_heap, set_nonces, set_options, set_defaults, alloc in E;
  injection E as <- <-;
  first [ reflexivity
        | by (eexists; simpl; reflexivity)
        | by (exists []; simpl; rewrite app_nil_r)
        | by (eexists; split; [simpl; reflexivity | repeat constructor])
        | by (exists []; split; [simpl; by rewrite app_nil_r | constructor]) ].

Create HintDb steps.

(** The call of the hook changes the store only. *)
Ltac hook_step :=
  let E := fresh in
  intros ? ? ? E; unfold call_hook in E;
  match type of E with
  | context [let (_, _) := ?c in _] => destruct c as [? [?|?]]
  end;
  injection E as <- <-;
  first [ reflexivity
        | by (exists []; simpl; rewrite app_nil_r)
        | by (exists []; split; [simpl; by rewrite app_nil_r | constructor]) ].

(** Structural decomposition of a step built from binds and branches;
    the steps already characterised are looked up in [steps]. *)
Ltac step_cases :=
  repeat first
    [ solve [auto with steps nocore]
    | apply respects_ret; typeclasses eauto
    | apply respects_throw; typeclasses eauto
    | apply respects_read; typeclasses eauto
    | apply respects_lift; typeclasses eauto
    | apply respects_bind; [typeclasses eauto | | intros ?]
    | match goal with
      | |- respects _ (match ?x with _ => _ end) => destruct x eqn:?
      | |- respects _ (let (_, _) := ?x in _) => destruct x eqn:?
      end
    | prim_step ].

Lemma defaultsDeep_extends t srcs : respects extends (defaultsDeep t srcs).
Proof. unfold defaultsDeep. step_cases. Qed.

Lemma alloc_lobj_extends o : respects extends (alloc_lobj o).
Proof. induction o as [|[k [v|f|l]] o IH]; simpl; step_cases. Qed.

Lemma assign_extends t k v : respects extends (assign t k v).
Proof. unfold assign. step_cases. Qed.

Lemma strip_headers_extends o : respects extends (strip_headers o).
Proof. unfold strip_headers. step_cases. Qed.

Lemma call_hook_extends f url m : respects extends (call_hook f url m).
Proof. hook_step. Qed.

#[local] Hint Resolve defaultsDeep_extends alloc_lobj_extends assign_extends
  strip_headers_extends call_hook_extends : steps.

Lemma parse_url_extends : respects extends parse_url.
Proof. unfold parse_url. step_cases. Qed.

Lemma inject_proof_extends this x url k : respects extends (inject_proof this x url k).
Proof. unfold inject_proof. step_cases. Qed.

Lemma merge_options_extends this url : respects extends (merge_options this url).
Proof. unfold merge_options. step_cases. Qed.

Lemma open_request_extends url o j f b : respects extends (open_request url o j f b).
Proof. unfold open_request. step_cases. Qed.

#[local] Hint Resolve parse_url_extends inject_proof_extends merge_options_extends
  open_request_extends : steps.

Lemma prepare_extends this x : respects extends (prepare this x).
Proof. unfold prepare, resolve. step_cases. Qed.

Lemma resolve_extends' this x url k : respects extends (resolve this x url k).
Proof. unfold resolve. step_cases. Qed.

Lemma send_extends req b ct : respects extends (send req b ct).
Proof. unfold send. step_cases. Qed.

#[local] Hint Resolve prepare_extends send_extends : steps.

Lemma transmit_extends p : respects extends (transmit p).
Proof. unfold transmit. step_cases. Qed.

Lemma on_finally_extends k r : respects extends (on_finally k r).
Proof. unfold on_finally. step_cases. Qed.

(** ** [request] by cases *)

Lemma request_rejected this x net w e w1 :
  prepare this x w = (Throw e, w1) -> request this x net w = (Throw e, w1).
Proof. unfold request. by intros ->. Qed.

Lemma request_prepared this x net w p w1 :
  prepare this x w = (Ok p, w1) ->
  request this x net w =
    (on_rejected (fst (fst (exchange p net w1))) (snd (fst (exchange p net w1))),
     snd (on_finally (p_nonceKey p) (fst (fst (exchange p net w1)))
            (snd (exchange p net w1)))).
Proof.
  unfold request. intros ->. by destruct (exchange p net w1) as [[resp r] w2].
Qed.

Lemma exchange_unsent p net w1 e w2 :
  transmit p w1 = (Throw e, w2) -> exchange p net w1 = (None, Throw e, w2).
Proof. unfold exchange. by intros ->. Qed.

Lemma exchange_errored p net w1 u w2 e :
  transmit p w1 = (Ok u, w2) -> arrival net = Errored e ->
  exchange p net w1 = (None, raise e, w2).
Proof. unfold exchange. by intros -> ->. Qed.

Lemma exchange_timed_out p net w1 u w2 :
  transmit p w1 = (Ok u, w2) -> arrival net = TimedOut ->
  exchange p net w1 = (None, raise (timeout_error (p_opts p)), snd (emit EvDestroy w2)).
Proof. unfold exchange. by intros -> ->. Qed.

Lemma exchange_stream_failed p net w1 u w2 status hdrs e :
  transmit p w1 = (Ok u, w2) -> arrival net = Responded status hdrs ->
  stream_error net = Some e ->
  exchange p net w1 = (Some (incoming (p_opts p) status hdrs), raise e, w2).
Proof. unfold exchange. by intros -> -> ->. Qed.

Lemma exchange_collected p net w1 u w2 status hdrs :
  transmit p w1 = (Ok u, w2) -> arrival net = Responded status hdrs ->
  stream_error net = None ->
  exchange p net w1 =
    match chunks net with
    | [] => (Some (incoming (p_opts p) status hdrs),
             Ok (incoming (p_opts p) status hdrs), drained p w2)
    | _ :: _ =>
        match decode_mode (p_responseType p) with
        | Some mode =>
            (Some (define_body (incoming (p_opts p) status hdrs) (Getter mode (chunks net))),
             Ok (define_body (incoming (p_opts p) status hdrs) (Getter mode (chunks net))),
             drained p w2)
        | None =>
            (Some (incoming (p_opts p) status hdrs), raise unsupported_responseType,
             drained p w2)
        end
    end.
Proof. unfold exchange, drained. by intros -> -> ->. Qed.

Lemma incoming_status opts status hdrs :
  statusCode (incoming opts status hdrs) = VNum status.
Proof. unfold incoming. by destruct (otruthy _). Qed.

Lemma incoming_nonce opts status hdrs :
  vget (headers (incoming opts status hdrs)) "dpop-nonce" = vget hdrs "dpop-nonce".
Proof. unfold incoming. by destruct (otruthy _). Qed.

Lemma incoming_no_body opts status hdrs : body (incoming opts status hdrs) = NoBody.
Proof. unfold incoming. by destruct (otruthy _). Qed.

(** The variable [response] is set exactly when a response arrived, and
    it carries the arrived status line and headers. *)
Lemma exchange_response p net w1 :
  match fst (fst (exchange p net w1)) with
  | Some r =>
      exists u w2 status hdrs,
        transmit p w1 = (Ok u, w2) /\ arrival net = Responded status hdrs /\
        statusCode r = VNum status /\
        headers r = headers (incoming (p_opts p) status hdrs)
  | None =>
      (exists e w2, transmit p w1 = (Throw e, w2)) \/
      arrival net = TimedOut \/ (exists e, arrival net = Errored e)
  end.
Proof.
  destruct (transmit p w1) as [[u|e] w2] eqn:Et.
  2:{ rewrite (exchange_unsent _ _ _ _ _ Et). simpl. eauto. }
  destruct (arrival net) as [status hdrs| |e] eqn:Ea.
  - destruct (stream_error net) as [e|] eqn:Es.
    + rewrite (exchange_stream_failed _ _ _ _ _ _ _ _ Et Ea Es). simpl.
      exists u, w2, status, hdrs. by rewrite incoming_status.
    + rewrite (exchange_collected _ _ _ _ _ _ _ Et Ea Es).
      destruct (chunks net); [|destruct (decode_mode _)]; simpl;
        exists u, w2, status, hdrs; by rewrite incoming_status.
  - rewrite (exchange_timed_out _ _ _ _ _ Et Ea). simpl. auto.
  - rewrite (exchange_errored _ _ _ _ _ _ Et Ea). simpl. eauto.
Qed.

(** ** The completion step *)

Lemma on_finally_runs k resp w :
  on_finally k resp w =
    (Ok tt,
     let v := match resp with Some r => vget (headers r) "dpop-nonce" | None => VUndef end in
     if cacheable v
     then {| heap := heap w; DEFAULT_HTTP_OPTIONS := DEFAULT_HTTP_OPTIONS w;
             nonces := lru_set (nonces w) k v; trace := trace w; options := options w |}
     else w).
Proof.
  unfold on_finally, cacheable.
  destruct (truthy _ && NQCHAR_test _); reflexivity.
Qed.

Lemma on_finally_unset k w : on_finally k None w = (Ok tt, w).
Proof. reflexivity. Qed.

Lemma lru_peek_set c k v : lru_peek (lru_set c k v) k = v.
Proof. unfold lru_peek, lru_set, vget. simpl. by rewrite String.eqb_refl. Qed.

Lemma lru_get_peek c k : fst (lru_get c k) = lru_peek c k.
Proof. unfold lru_get, lru_peek, vget. by destruct (prop_lookup c k). Qed.

(** The cache never exceeds its capacity. *)
Lemma lru_set_bounded c k v : length (lru_set c k v) <= LRU_max.
Proof. unfold lru_set. rewrite length_take. lia. Qed.

(** A string with a character outside the class fails [NQCHAR]. *)
Lemma NQCHAR_rejects s :
  Exists (fun c => nqchar c = false) (list_ascii_of_string s) -> NQCHAR_test s = false.
Proof.
  unfold NQCHAR_test. intros Hex.
  destruct (list_ascii_of_string s) as [|c cs] eqn:E; [done|].
  apply not_true_is_false. intros Hall.
  rewrite forallb_forall in Hall.
  apply Exists_exists in Hex as (c' & Hin & Hc').
  apply list_elem_of_In in Hin. rewrite (Hall _ Hin) in Hc'. discriminate.
Qed.

Lemma nqchar_space : nqchar " " = false.
Proof. reflexivity. Qed.

Lemma transmit_keeps_nonces p : respects (keeps nonces) (transmit p).
Proof. unfold transmit, send. step_cases. Qed.

Lemma transmit_keeps_heap p : respects (keeps heap) (transmit p).
Proof. unfold transmit, send. step_cases. Qed.

Lemma transmit_keeps_options p : respects (keeps options) (transmit p).
Proof. unfold transmit, send. step_cases. Qed.

(** ** The steps of [prepare] *)

Ltac inv_bind E :=
  let a := fresh "a" in
  let w := fresh "w" in
  let E1 := fresh "E" in
  apply bind_inv in E as [(a & w & E1 & E)|(? & ? & ?)]; [|discriminate].

Lemma prepare_inv this x w p w1 :
  prepare this x w = (Ok p, w1) ->
  exists url wa wb opts wc wd,
    parse_url w = (Ok url, wa) /\
    inject_proof this x url (origin url ++ pathname url)%string wa = (Ok tt, wb) /\
    merge_options this url wb = (Ok opts, wc) /\
    lacks_mTLS_material x opts = false /\
    strip_headers (rest_of opts) wc = (Ok tt, wd) /\
    open_request (merge_search (heap wc) url opts) (rest_of opts)
      (oget opts "json") (oget opts "form") (oget opts "body") wd = (Ok (p_req p), w1) /\
    p = {| p_url := merge_search (heap wc) url opts;
           p_nonceKey := (origin url ++ pathname url)%string;
           p_opts := rest_of opts;
           p_form := oget opts "form";
           p_responseType := oget opts "responseType";
           p_json := oget opts "json";
           p_body := oget opts "body";
           p_req := p_req p |}.
Proof.
  unfold prepare. intros E.
  inv_bind E. inv_bind E. unfold resolve in E.
  inv_bind E. inv_bind E. inv_bind E. inv_bind E. inv_bind E.
  injection E as <- <-.
  repeat match goal with
         | Hr : read _ _ = _ |- _ => injection Hr as <- <-
         | Hm : (if ?b then _ else _) _ = _ |- _ =>
             destruct b eqn:?; [discriminate|]; injection Hm as <- <-
         | u : unit |- _ => destruct u
         end.
  eexists _, _, _, _, _, _. simpl. repeat split; eauto.
Qed.

Lemma parse_url_inv w url wa :
  parse_url w = (Ok url, wa) ->
  URL_parse (OToString (oget (options w) "url")) = Some url /\
  http_protocol (protocol url) = true /\
  wa = {| heap := heap w; DEFAULT_HTTP_OPTIONS := DEFAULT_HTTP_OPTIONS w;
          nonces := nonces w; trace := trace w;
          options := prop_delete (options w) "url" |}.
Proof.
  unfold parse_url, bind, read. 
  destruct (URL_parse _) as [u|]; [|discriminate]. simpl.
  destruct (http_protocol (protocol u)) eqn:Ep; [|discriminate].
  by intros [= <- <-].
Qed.

Lemma parse_url_fails w :
  absolute_http_url (options w) = false ->
  exists o, parse_url w =
    (raise invalid_url,
     {| heap := heap w; DEFAULT_HTTP_OPTIONS := DEFAULT_HTTP_OPTIONS w;
        nonces := nonces w; trace := trace w; options := o |}) /\
    (o = options w \/ o = prop_delete (options w) "url").
Proof.
  unfold absolute_http_url, parse_url, bind, read.
  destruct (URL_parse _) as [u|]; simpl.
  - intros ->. eexists. split; [reflexivity | by right].
  - intros _. exists (options w). split; [by destruct w | by left].
Qed.

Lemma prepare_needs_url this x w p w1 :
  prepare this x w = (Ok p, w1) -> absolute_http_url (options w) = true.
Proof.
  intros E. apply prepare_inv in E as (url & wa & _ & _ & _ & _ & E & _).
  apply parse_url_inv in E as (E1 & E2 & _).
  unfold absolute_http_url. by rewrite E1.
Qed.

(** When the async function returns, a response arrived and was drained
    without error, and the returned object is that response, with the
    lazy [body] defined when there were chunks. *)
Lemma exchange_ok_inv p net w1 r :
  snd (fst (exchange p net w1)) = Ok r ->
  exists u w2 status hdrs,
    transmit p w1 = (Ok u, w2) /\ arrival net = Responded status hdrs /\
    stream_error net = None /\
    statusCode r = VNum status /\
    headers r = headers (incoming (p_opts p) status hdrs) /\
    body r = match chunks net, decode_mode (p_responseType p) with
             | _ :: _, Some mode => Getter mode (chunks net)
             | _, _ => NoBody
             end /\
    (chunks net = [] \/ decode_mode (p_responseType p) <> None).
Proof.
  destruct (transmit p w1) as [[u|e] w2] eqn:Et.
  2:{ rewrite (exchange_unsent _ _ _ _ _ Et). discriminate. }
  destruct (arrival net) as [status hdrs| |e] eqn:Ea.
  - destruct (stream_error net) as [e|] eqn:Es.
    { rewrite (exchange_stream_failed _ _ _ _ _ _ _ _ Et Ea Es). discriminate. }
    rewrite (exchange_collected _ _ _ _ _ _ _ Et Ea Es).
    destruct (chunks net) as [|c cs] eqn:Ec; [|destruct (decode_mode _) eqn:Em];
      simpl; intros [= <-]; try discriminate.
    + exists u, w2, status, hdrs.
      rewrite incoming_status, incoming_no_body. repeat split; auto.
    + exists u, w2, status, hdrs. simpl.
      rewrite incoming_status. repeat split; auto.
  - rewrite (exchange_timed_out _ _ _ _ _ Et Ea). discriminate.
  - rewrite (exchange_errored _ _ _ _ _ _ Et Ea). discriminate.
Qed.

Lemma on_rejected_ok resp res r : on_rejected resp res = Ok r -> res = Ok r.
Proof. unfold on_rejected. destruct res, resp; congruence. Qed.

(** C8: a [url] option that is not an absolute http or https URL makes
    the call fail with the validation error before anything else
    happens: no host call is made (no socket is opened), the store and
    the nonce cache are unchanged.  For an absolute http(s) URL, an
    exchange in which the request is sent, a response arrives and its
    body is drained and can be decoded returns a response whose
    [statusCode] is the status that arrived; and whenever [request]
    returns a response, it is of that kind. *)
Theorem url_validated_before_dispatch this x net w :
  (absolute_http_url (options w) = false ->
     fst (request this x net w) = raise invalid_url /\
     trace (snd (request this x net w)) = trace w /\
     heap (snd (request this x net w)) = heap w /\
     nonces (snd (request this x net w)) = nonces w) /\
  (forall p w1 u w2 status hdrs,
     prepare this x w = (Ok p, w1) -> transmit p w1 = (Ok u, w2) ->
     arrival net = Responded status hdrs -> stream_error net = None ->
     chunks net = [] \/ decode_mode (p_responseType p) <> None ->
     absolute_http_url (options w) = true /\
     exists r, fst (request this x net w) = Ok r /\ statusCode r = VNum status) /\
  (forall r w', request this x net w = (Ok r, w') ->
     absolute_http_url (options w) = true /\
     exists status hdrs,
       arrival net = Responded status hdrs /\ statusCode r = VNum status).
Proof.
  split; [|split].
  - intros Hbad. destruct (parse_url_fails w Hbad) as (o & E & _).
    assert (prepare this x w = (raise invalid_url, 
              {| heap := heap w; DEFAULT_HTTP_OPTIONS := DEFAULT_HTTP_OPTIONS w;
                 nonces := nonces w; trace := trace w; options := o |})) as Ep.
    { unfold prepare. by rewrite (bind_throw _ _ _ _ _ E). }
    by rewrite (request_rejected _ _ _ _ _ _ Ep).
  - intros p w1 u w2 status hdrs Ep Et Ea Es Hdec.
    split; [by eapply prepare_needs_url|].
    rewrite (request_prepared _ _ _ _ _ _ Ep).
    rewrite (exchange_collected _ _ _ _ _ _ _ Et Ea Es). simpl.
    destruct (chunks net) as [|c cs]; simpl.
    + eexists. split; [reflexivity | apply incoming_status].
    + destruct (decode_mode _); [|destruct Hdec; congruence]. simpl.
      eexists. split; [reflexivity | apply incoming_status].
  - intros r w' E.
    destruct (prepare this x w) as [[p|e] w1] eqn:Ep.
    2:{ rewrite (request_rejected _ _ _ _ _ _ Ep) in E. discriminate. }
    split; [by eapply prepare_needs_url|].
    rewrite (request_prepared _ _ _ _ _ _ Ep) in E.
    injection E as E _. apply on_rejected_ok in E.
    apply exchange_ok_inv in E as (u & w2 & status & hdrs & _ & Ea & _ & Hs & _).
    eauto.
Qed.

Lemma open_request_runs url o j f b wd :
  open_request url o j f b wd =
    if otruthy (oget o "http2") then
      (Ok ClientHttp2Stream,
       {| heap := heap wd; DEFAULT_HTTP_OPTIONS := DEFAULT_HTTP_OPTIONS wd;
          nonces := nonces wd;
          trace := trace wd ++
            [EvH2Connect (origin url);
             EvH2Request (http2_headers url (plain (heap wd) (oget o "headers")) j f b);
             EvSetTimeout (oget o "timeout")];
          options := options wd |})
    else
      (Ok ClientRequest,
       {| heap := heap wd; DEFAULT_HTTP_OPTIONS := DEFAULT_HTTP_OPTIONS wd;
          nonces := nonces wd;
          trace := trace wd ++
            [EvH1Request (String.eqb (protocol url) "https:") url o
               (plain (heap wd) (oget o "headers"))];
          options := options wd |}).
Proof.
  unfold open_request, bind, read, emit, ret. simpl.
  destruct (otruthy _); simpl; [|done].
  by rewrite <- !app_assoc.
Qed.

(** A prepared request has opened its connection. *)
Lemma prepare_opens this x w p w1 :
  prepare this x w = (Ok p, w1) ->
  exists pre e post, trace w1 = trace w ++ pre ++ e :: post /\ opens_socket e = true.
Proof.
  intros E. apply prepare_inv in E as (url & wa & wb & opts & wc & wd & E1 & E2 & E3 & _ & E4 & E5 & _).
  apply parse_url_extends in E1 as [e1 H1].
  apply inject_proof_extends in E2 as [e2 H2].
  apply merge_options_extends in E3 as [e3 H3].
  apply strip_headers_extends in E4 as [e4 H4].
  rewrite open_request_runs in E5.
  destruct (otruthy _); injection E5 as _ <-; simpl;
    rewrite H4, H3, H2, H1; eexists (e1 ++ e2 ++ e3 ++ e4), _, _;
    (split; [by rewrite <- !app_assoc | done]).
Qed.

Lemma drained_trace p w :
  trace (drained p w) =
    trace w ++ (if otruthy (oget (p_opts p) "http2")
                then [EvCloseStream; EvCloseSession] else []).
Proof.
  unfold drained. destruct (otruthy _); simpl;
    [by rewrite <- app_assoc | by rewrite app_nil_r].
Qed.

Lemma drained_keeps p w :
  nonces (drained p w) = nonces w /\ heap (drained p w) = heap w /\
  options (drained p w) = options w.
Proof. unfold drained. by destruct (otruthy _). Qed.

(** C6: when the timeout event wins the race, [req.destroy()] is the
    last host call of the run, and the call fails with the error whose
    message carries the configured [timeout] as the template literal of
    line 186 prints it, which for a safe integer is its decimal digits;
    the error has no response attached, and the nonce cache is left as
    it was. *)
Theorem timeout_destroys_and_raises this x net w p w1 u w2 :
  prepare this x w = (Ok p, w1) ->
  transmit p w1 = (Ok u, w2) ->
  arrival net = TimedOut ->
  fst (request this x net w) =
    Throw {| thrown :=
               RPError ("outgoing request timed out after "
                        ++ OToString (oget (p_opts p) "timeout") ++ "ms");
             err_response := None |} /\
  (forall ms, oget (p_opts p) "timeout" = OVal (VNum ms) -> safe_integer ms = true ->
     thrown_by (fst (request this x net w)) =
       Some (RPError ("outgoing request timed out after " ++ pretty ms ++ "ms"))) /\
  trace (snd (request this x net w)) = trace w2 ++ [EvDestroy] /\
  nonces (snd (request this x net w)) = nonces w1.
Proof.
  intros Ep Et Ea.
  rewrite (request_prepared _ _ _ _ _ _ Ep).
  rewrite (exchange_timed_out _ _ _ _ _ Et Ea). simpl. unfold timeout_error.
  repeat split.
  - intros ms Hms Hs. rewrite Hms. cbn [thrown_by thrown OToString ToString VNum].
    by rewrite Hs.
  - exact (transmit_keeps_nonces _ _ _ _ Et).
Qed.

(** C1 (amended): an unsupported [responseType] is not checked before
    dispatch.  The request is sent and the response awaited; when a
    response arrives and its body is drained, the call fails with the
    unsupported-mode error, the response attached, if at least one chunk
    was received, and returns the response, without a [body], if none
    was. *)
Theorem unsupported_mode_checked_after_collection this x net w p w1 u w2 status hdrs :
  prepare this x w = (Ok p, w1) ->
  transmit p w1 = (Ok u, w2) ->
  decode_mode (p_responseType p) = None ->
  arrival net = Responded status hdrs ->
  stream_error net = None ->
  (exists e, In e (calls w (snd (request this x net w))) /\ opens_socket e = true) /\
  (chunks net <> [] ->
     fst (request this x net w) =
       Throw {| thrown := unsupported_responseType;
                err_response := Some (incoming (p_opts p) status hdrs) |}) /\
  (chunks net = [] ->
     fst (request this x net w) = Ok (incoming (p_opts p) status hdrs) /\
     body (incoming (p_opts p) status hdrs) = NoBody).
Proof.
  intros Ep Et Em Ea Es.
  rewrite (request_prepared _ _ _ _ _ _ Ep).
  rewrite (exchange_collected _ _ _ _ _ _ _ Et Ea Es). rewrite Em.
  split; [|split].
  - rewrite on_finally_runs.
    destruct (prepare_opens _ _ _ _ _ Ep) as (pre & e & post & Htr & He).
    pose proof (transmit_extends _ _ _ _ Et) as [evs2 Htr2].
    assert (exists evs3, trace (drained p w2) = trace w2 ++ evs3) as [evs3 Htr3].
    { rewrite drained_trace. eauto. }
    exists e. split; [|exact He].
    unfold calls.
    assert (forall w3 : World, trace w3 = trace (drained p w2) ->
              In e (drop (length (trace w)) (trace w3))) as Hin.
    { intros w3 ->. rewrite Htr3, Htr2, Htr.
      rewrite <- !app_assoc. rewrite drop_app_length.
      apply in_or_app. right. simpl. by left. }
    destruct (chunks net); simpl; apply Hin; by destruct (cacheable _).
  - intros Hne. destruct (chunks net); [done|]. reflexivity.
  - intros ->. simpl. split; [done | apply incoming_no_body].
Qed.

Lemma prepare_nonceKey this x w p w1 :
  prepare this x w = (Ok p, w1) ->
  exists url, URL_parse (OToString (oget (options w) "url")) = Some url /\
              p_nonceKey p = (origin url ++ pathname url)%string.
Proof.
  intros E. apply prepare_inv in E as (url & wa & wb & opts & wc & wd & E & _ & _ & _ & _ & _ & ->).
  apply parse_url_inv in E as (E & _). eauto.
Qed.

(** What the completion step leaves in the cache, given the value of the
    [response] variable. *)
Lemma request_nonces this x net w p w1 :
  prepare this x w = (Ok p, w1) ->
  nonces (snd (request this x net w)) =
    match fst (fst (exchange p net w1)) with
    | Some r =>
        if cacheable (vget (headers r) "dpop-nonce")
        then lru_set (nonces (snd (exchange p net w1))) (p_nonceKey p)
               (vget (headers r) "dpop-nonce")
        else nonces (snd (exchange p net w1))
    | None => nonces (snd (exchange p net w1))
    end.
Proof.
  intros Ep. rewrite (request_prepared _ _ _ _ _ _ Ep). rewrite on_finally_runs.
  destruct (fst (fst (exchange p net w1))) as [r|]; simpl; [|done].
  by destruct (cacheable _).
Qed.

(** The exchange itself never touches the cache. *)
Lemma exchange_keeps_nonces p net w1 : nonces (snd (exchange p net w1)) = nonces w1.
Proof.
  destruct (transmit p w1) as [[u|e] w2] eqn:Et;
    pose proof (transmit_keeps_nonces _ _ _ _ Et) as Hk; unfold keeps in Hk.
  2:{ by rewrite (exchange_unsent _ _ _ _ _ Et). }
  destruct (arrival net) as [status hdrs| |e] eqn:Ea.
  - destruct (stream_error net) as [e|] eqn:Es.
    + by rewrite (exchange_stream_failed _ _ _ _ _ _ _ _ Et Ea Es).
    + rewrite (exchange_collected _ _ _ _ _ _ _ Et Ea Es).
      destruct (drained_keeps p w2) as (Hd & _).
      destruct (chunks net); [|destruct (decode_mode _)]; simpl; congruence.
  - by rewrite (exchange_timed_out _ _ _ _ _ Et Ea).
  - by rewrite (exchange_errored _ _ _ _ _ _ Et Ea).
Qed.

(** A response with a cacheable nonce leaves it in the cache under the
    key of the request. *)
Lemma request_caches_nonce this x net w p w1 u w2 status hdrs :
  prepare this x w = (Ok p, w1) ->
  transmit p w1 = (Ok u, w2) ->
  arrival net = Responded status hdrs ->
  nonces (snd (request this x net w)) =
    if cacheable (vget hdrs "dpop-nonce")
    then lru_set (nonces w1) (p_nonceKey p) (vget hdrs "dpop-nonce")
    else nonces w1.
Proof.
  intros Ep Et Ea.
  rewrite (request_nonces _ _ _ _ _ _ Ep), exchange_keeps_nonces.
  pose proof (exchange_response p net w1) as Hr.
  destruct (fst (fst (exchange p net w1))) as [r|].
  - destruct Hr as (u' & w2' & status' & hdrs' & _ & Ea' & _ & Hh).
    rewrite Ea in Ea'. injection Ea' as <- <-.
    by rewrite Hh, incoming_nonce.
  - destruct Hr as [(e & w2' & Et')|[Ea'|(e & Ea')]]; congruence.
Qed.

(** C4: once a response has arrived, however the exchange then ends
    (stream error, unsupported decode mode or success), the completion
    step looks at its [dpop-nonce] header: a value that passes the
    [NQCHAR] test is stored once under the key origin+path of the
    request, where a lookup then finds it; any other value, in particular
    a string with a space or another character outside the class, leaves
    the cache as it was. *)
Theorem nonce_cached_once_per_attempt this x net w p w1 u w2 status hdrs :
  prepare this x w = (Ok p, w1) ->
  transmit p w1 = (Ok u, w2) ->
  arrival net = Responded status hdrs ->
  let v := vget hdrs "dpop-nonce" in
  let w' := snd (request this x net w) in
  (exists url, URL_parse (OToString (oget (options w) "url")) = Some url /\
               p_nonceKey p = (origin url ++ pathname url)%string) /\
  nonces w' = (if cacheable v then lru_set (nonces w1) (p_nonceKey p) v else nonces w1) /\
  (cacheable v = true -> lru_peek (nonces w') (p_nonceKey p) = v) /\
  (forall s, v = VStr s ->
     Exists (fun c => nqchar c = false) (list_ascii_of_string s) ->
     nonces w' = nonces w1).
Proof.
  intros Ep Et Ea v w'.
  assert (nonces w' =
          if cacheable v then lru_set (nonces w1) (p_nonceKey p) v else nonces w1) as Hn.
  { exact (request_caches_nonce _ _ _ _ _ _ _ _ _ _ Ep Et Ea). }
  split; [by eapply prepare_nonceKey|]. split; [exact Hn|]. split.
  - intros Hc. rewrite Hn, Hc. apply lru_peek_set.
  - intros s Hv Hex. rewrite Hn.
    assert (cacheable v = false) as ->; [|done].
    unfold cacheable. rewrite Hv. simpl.
    rewrite (NQCHAR_rejects s Hex). apply andb_false_r.
Qed.

(** ** Decoding failures *)

(** What [request] returns is the arrived response, with the lazy [body]. *)
Lemma request_ok_inv this x net w r w' :
  request this x net w = (Ok r, w') ->
  exists p w1 status hdrs,
    prepare this x w = (Ok p, w1) /\
    arrival net = Responded status hdrs /\
    statusCode r = VNum status /\
    headers r = headers (incoming (p_opts p) status hdrs) /\
    body r = match chunks net, decode_mode (p_responseType p) with
             | _ :: _, Some mode => Getter mode (chunks net)
             | _, _ => NoBody
             end.
Proof.
  intros E.
  destruct (prepare this x w) as [[p|e] w1] eqn:Ep.
  2:{ rewrite (request_rejected _ _ _ _ _ _ Ep) in E. discriminate. }
  rewrite (request_prepared _ _ _ _ _ _ Ep) in E.
  injection E as E _. apply on_rejected_ok in E.
  apply exchange_ok_inv in E as (u & w2 & status & hdrs & _ & Ea & _ & Hs & Hh & Hb & _).
  exists p, w1, status, hdrs. auto.
Qed.

(** C2 (amended): in "json" mode, when the collected bytes are not valid
    JSON, the first read of [body] throws the parse error with the
    response attached, which has the status code and headers that
    arrived.  The failed read does redefine [body]: it is from then on a
    data property holding the raw concatenated bytes, so the getter is
    gone and a second read returns those bytes without parsing. *)
Theorem json_decode_failure_keeps_raw_bytes this x net w p w1 r w' :
  prepare this x w = (Ok p, w1) ->
  request this x net w = (Ok r, w') ->
  decode_mode (p_responseType p) = Some ModeJson ->
  chunks net <> [] ->
  JSON_parse (Buffer_concat (chunks net)) = None ->
  let raw := VBuf (Buffer_concat (chunks net)) in
  let r' := define_body r (Data raw) in
  get_body r = (Throw {| thrown := SyntaxError; err_response := Some r' |}, r') /\
  statusCode r' = statusCode r /\ headers r' = headers r /\
  (exists status hdrs, arrival net = Responded status hdrs /\
                       statusCode r' = VNum status) /\
  getter_backed r' = false /\
  get_body r' = (Ok raw, r').
Proof.
  intros Ep E Em Hne Hbad raw r'.
  apply request_ok_inv in E as (p' & w1' & status & hdrs & Ep' & Ea & Hs & Hh & Hb).
  rewrite Ep in Ep'. injection Ep' as <- <-.
  rewrite Em in Hb. destruct (chunks net) as [|c cs] eqn:Ec; [done|].
  split; [|repeat split; eauto].
  unfold get_body. rewrite Hb. by rewrite Hbad.
Qed.

(** ** What goes on the wire *)

#[local] Instance quiet_preorder : PreOrder quiet.
Proof.
  split.
  - intros w. exists []. split; [by rewrite app_nil_r | constructor].
  - intros w1 w2 w3 (e1 & E1 & F1) (e2 & E2 & F2). exists (e1 ++ e2).
    split; [by rewrite E2, E1, app_assoc | by apply Forall_app].
Qed.

Lemma defaultsDeep_quiet t srcs : respects quiet (defaultsDeep t srcs).
Proof. unfold defaultsDeep. step_cases. Qed.

Lemma alloc_lobj_quiet o : respects quiet (alloc_lobj o).
Proof. induction o as [|[k [v|f|l]] o IH]; simpl; step_cases. Qed.

Lemma assign_quiet t k v : respects quiet (assign t k v).
Proof. unfold assign. step_cases. Qed.

Lemma strip_headers_quiet o : respects quiet (strip_headers o).
Proof. unfold strip_headers. step_cases. Qed.

Lemma call_hook_quiet f url m : respects quiet (call_hook f url m).
Proof. hook_step. Qed.

#[local] Hint Resolve defaultsDeep_quiet alloc_lobj_quiet assign_quiet
  strip_headers_quiet call_hook_quiet : steps.

Lemma parse_url_quiet : respects quiet parse_url.
Proof. unfold parse_url. step_cases. Qed.

Lemma inject_proof_quiet this x url k : respects quiet (inject_proof this x url k).
Proof. unfold inject_proof. step_cases. Qed.

Lemma merge_options_quiet this url : respects quiet (merge_options this url).
Proof. unfold merge_options. step_cases. Qed.

Lemma wire_headers_inert pre evs hs :
  Forall (fun e => inert e = true) pre ->
  fold_left wire_headers_step (pre ++ evs) hs = fold_left wire_headers_step evs hs.
Proof.
  induction 1 as [|e pre He _ IH]; [done|]. simpl. rewrite <- IH.
  by destruct e.
Qed.

Lemma wire_headers_inert_end evs post :
  Forall (fun e => inert e = true) post ->
  wire_headers (evs ++ post) = wire_headers evs.
Proof.
  intros Hp. unfold wire_headers. rewrite fold_left_app.
  generalize (fold_left wire_headers_step evs []). intros hs.
  induction Hp as [|e post He _ IH]; [done|]. simpl.
  destruct e; try discriminate; exact IH.
Qed.

Lemma wire_body_app evs evs' : wire_body (evs ++ evs') = (wire_body evs ++ wire_body evs')%list.
Proof. unfold wire_body. by rewrite omap_app, concat_app. Qed.

Lemma wire_body_inert evs :
  Forall (fun e => inert e = true) evs -> wire_body evs = [].
Proof.
  induction 1 as [|e evs He _ IH]; [done|].
  unfold wire_body in *. simpl. by destruct e.
Qed.

Lemma prepare_trace this x w p w1 :
  prepare this x w = (Ok p, w1) ->
  exists pre,
    Forall (fun e => inert e = true) pre /\
    trace w1 = trace w ++ pre ++ creation p (plain (heap w1) (oget (p_opts p) "headers")) /\
    otruthy (oget (p_opts p) "http2") =
      match p_req p with ClientHttp2Stream => true | ClientRequest => false end.
Proof.
  intros E.
  apply prepare_inv in E as (url & wa & wb & opts & wc & wd & E1 & E2 & E3 & _ & E4 & E5 & Hp).
  apply parse_url_quiet in E1 as (e1 & H1 & F1).
  apply inject_proof_quiet in E2 as (e2 & H2 & F2).
  apply merge_options_quiet in E3 as (e3 & H3 & F3).
  apply strip_headers_quiet in E4 as (e4 & H4 & F4).
  exists (e1 ++ e2 ++ e3 ++ e4).
  split; [by repeat apply Forall_app_2|].
  rewrite open_request_runs in E5. unfold creation. rewrite Hp. simpl.
  destruct (otruthy (oget (rest_of opts) "http2")) eqn:E2h;
    injection E5 as <- <-; simpl; rewrite H4, H3, H2, H1; rewrite <- !app_assoc; done.
Qed.

Lemma transmit_json p w1 :
  otruthy (p_json p) = true ->
  JSON_stringify (p_json p) <> "" ->
  transmit p w1 =
    (Ok tt,
     {| heap := heap w1; DEFAULT_HTTP_OPTIONS := DEFAULT_HTTP_OPTIONS w1;
        nonces := nonces w1; trace := trace w1 ++ json_transmission p;
        options := options w1 |}).
Proof.
  intros Hj Hne. unfold transmit, json_transmission. rewrite Hj.
  unfold send. simpl.
  assert (negb (String.eqb (JSON_stringify (p_json p)) "") = true) as ->.
  { apply negb_true_iff. by apply String.eqb_neq. }
  destruct (p_req p); unfold bind, emit, ret; simpl; rewrite <- ?app_assoc; done.
Qed.

(** After the request is sent, only inert calls follow. *)
Lemma exchange_trace p net w1 u w2 :
  transmit p w1 = (Ok u, w2) ->
  exists post, trace (snd (exchange p net w1)) = trace w2 ++ post /\
               Forall (fun e => inert e = true) post.
Proof.
  intros Et.
  destruct (arrival net) as [status hdrs| |e] eqn:Ea.
  - destruct (stream_error net) as [e|] eqn:Es.
    + rewrite (exchange_stream_failed _ _ _ _ _ _ _ _ Et Ea Es). simpl.
      exists []. split; [by rewrite app_nil_r | constructor].
    + rewrite (exchange_collected _ _ _ _ _ _ _ Et Ea Es).
      exists (if otruthy (oget (p_opts p) "http2")
              then [EvCloseStream; EvCloseSession] else []).
      split.
      * destruct (chunks net); [|destruct (decode_mode _)]; simpl; apply drained_trace.
      * destruct (otruthy _); repeat constructor.
  - rewrite (exchange_timed_out _ _ _ _ _ Et Ea). simpl.
    eexists. split; [reflexivity | repeat constructor].
  - rewrite (exchange_errored _ _ _ _ _ _ Et Ea). simpl.
    exists []. split; [by rewrite app_nil_r | constructor].
Qed.

Lemma request_trace this x net w p w1 :
  prepare this x w = (Ok p, w1) ->
  trace (snd (request this x net w)) = trace (snd (exchange p net w1)).
Proof.
  intros Ep. rewrite (request_prepared _ _ _ _ _ _ Ep), on_finally_runs.
  cbv zeta. by destruct (cacheable _).
Qed.

Lemma vget_filter_other (hs : obj) name k :
  lower k <> lower name ->
  vget (List.filter (fun kv => negb (String.eqb (lower (fst kv)) (lower name))) hs) k
  = vget hs k.
Proof.
  intros Hne. unfold vget.
  induction hs as [|[k' v'] hs IH]; simpl; [done|].
  destruct (String.eqb_spec (lower k') (lower name)) as [Heq|Hneq]; simpl.
  - destruct (String.eqb_spec k k') as [->|]; [congruence | exact IH].
  - destruct (String.eqb_spec k k'); [done | exact IH].
Qed.

Lemma request_calls_json this x net w p w1 :
  prepare this x w = (Ok p, w1) ->
  otruthy (p_json p) = true ->
  JSON_stringify (p_json p) <> "" ->
  exists pre post hdrs,
    Forall (fun e => inert e = true) pre /\ Forall (fun e => inert e = true) post /\
    calls w (snd (request this x net w)) =
      (pre ++ (creation p hdrs ++ json_transmission p) ++ post)%list.
Proof.
  intros Ep Hj Hne.
  destruct (prepare_trace _ _ _ _ _ Ep) as (pre & Fpre & Htr & _).
  pose proof (transmit_json p w1 Hj Hne) as Et.
  destruct (exchange_trace p net _ _ _ Et) as (post & Hpost & Fpost).
  exists pre, post, (plain (heap w1) (oget (p_opts p) "headers")).
  split; [done|]. split; [done|].
  unfold calls. rewrite (request_trace _ _ _ _ _ _ Ep), Hpost. simpl. rewrite Htr.
  rewrite <- !app_assoc. by rewrite drop_app_length.
Qed.

Lemma json_wire this x net w p w1 :
  prepare this x w = (Ok p, w1) ->
  otruthy (p_json p) = true ->
  JSON_stringify (p_json p) <> "" ->
  let payload := utf8 (JSON_stringify (p_json p)) in
  let evs := calls w (snd (request this x net w)) in
  vget (wire_headers evs) "content-type" = VStr "application/json" /\
  vget (wire_headers evs) "content-length" = VNum (Z.of_nat (length payload)) /\
  wire_body evs = payload.
Proof.
  intros Ep Hj Hne payload evs.
  destruct (request_calls_json _ _ net _ _ _ Ep Hj Hne)
    as (pre & post & hdrs & Fpre & Fpost & Hevs).
  subst evs. rewrite Hevs. clear Hevs.
  assert (wire_headers (pre ++ (creation p hdrs ++ json_transmission p) ++ post)
          = wire_headers (creation p hdrs ++ json_transmission p)) as ->.
  { rewrite app_assoc, wire_headers_inert_end by done.
    unfold wire_headers. by apply wire_headers_inert. }
  assert (wire_body (pre ++ (creation p hdrs ++ json_transmission p) ++ post)
          = wire_body (creation p hdrs ++ json_transmission p)) as ->.
  { rewrite !wire_body_app, (wire_body_inert pre), (wire_body_inert post) by done.
    simpl. by rewrite app_nil_r, <- wire_body_app. }
  unfold creation, json_transmission, http2_headers. rewrite Hj.
  destruct (p_req p); unfold wire_headers, wire_body; simpl.
  - rewrite vget_set_ne, vget_set_eq by done. rewrite vget_set_eq.
    by rewrite app_nil_r.
  - rewrite vget_set_ne by done.
    rewrite vget_filter_other by (vm_compute; discriminate).
    rewrite !vget_set_eq. by rewrite app_nil_r.
Qed.

(** ** Objects with unique keys, and what the helpers preserve *)

Section Keys.
Context {A : Type}.
Implicit Types (o : list (string * A)) (k : string).

Lemma prop_lookup_None o k : prop_lookup o k = None <-> ~ In k (map fst o).
Proof.
  induction o as [|[k' v'] o IH]; simpl; [tauto|].
  destruct (String.eqb_spec k k') as [->|Hne].
  - split; [discriminate | intros Hn; exfalso; apply Hn; by left].
  - rewrite IH. split; [intros Hn [?|?]; [congruence | done] | tauto].
Qed.

Lemma prop_lookup_unique o k v v' :
  unique_keys o -> prop_lookup o k = Some v -> In (k, v') o -> v' = v.
Proof.
  unfold unique_keys.
  induction o as [|[k0 v0] o IH]; simpl; [done|].
  intros Hnd. apply NoDup_cons in Hnd as [Hnin Hnd].
  destruct (String.eqb_spec k k0) as [->|Hne].
  - intros [= ->] [[= ->]|Hin]; [done|].
    exfalso. apply Hnin. apply list_elem_of_In. by apply (in_map fst _ (k0, v')).
  - intros Hl [[= -> ->]|Hin]; [done | by apply IH].
Qed.

Lemma prop_set_keys o k v :
  map fst (prop_set o k v) =
    match prop_lookup o k with
    | Some _ => map fst o
    | None => (map fst o ++ [k])%list
    end.
Proof.
  induction o as [|[k' v'] o IH]; simpl; [done|].
  destruct (String.eqb_spec k k') as [->|Hne]; simpl; [done|].
  rewrite IH. by destruct (prop_lookup o k).
Qed.

Lemma prop_set_unique o k v : unique_keys o -> unique_keys (prop_set o k v).
Proof.
  unfold unique_keys. intros Hnd. rewrite prop_set_keys.
  destruct (prop_lookup o k) eqn:E; [done|].
  apply NoDup_app. split; [done|]. split; [|apply NoDup_singleton].
  intros k' Hin Hk'. apply list_elem_of_singleton in Hk' as ->.
  apply prop_lookup_None in E. apply E. by apply list_elem_of_In.
Qed.

Lemma prop_delete_sub o k : sublist (prop_delete o k) o.
Proof.
  induction o as [|[k' v'] o IH]; simpl; [done|].
  destruct (String.eqb k k'); [by apply sublist_cons | by apply sublist_skip].
Qed.

Lemma prop_delete_unique o k : unique_keys o -> unique_keys (prop_delete o k).
Proof.
  unfold unique_keys. intros Hnd.
  eapply sublist_NoDup; [exact Hnd|].
  apply (fmap_sublist fst), prop_delete_sub.
Qed.

End Keys.

(** [fill_flat] never touches a property that is defined. *)
Lemma fill_flat_defined t kv k :
  is_undef (vget t k) = false -> vget (fill_flat t kv) k = vget t k.
Proof.
  intros Hd. destruct kv as [k' v]. unfold fill_flat.
  destruct (skipped_key k'); [done|].
  destruct (is_undef (vget t k') && negb (is_undef v)) eqn:E; [|done].
  destruct (String.eqb_spec k' k) as [->|Hne].
  - rewrite Hd in E. discriminate.
  - by apply vget_set_ne.
Qed.

Lemma fill_flat_unique t kv : unique_keys t -> unique_keys (fill_flat t kv).
Proof.
  intros Hu. destruct kv as [k' v]. unfold fill_flat.
  destruct (skipped_key k'); [done|].
  destruct (_ && _); [by apply prop_set_unique | done].
Qed.

Lemma defaults_flat_defined t s k :
  is_undef (vget t k) = false -> vget (defaults_flat t s) k = vget t k.
Proof.
  unfold defaults_flat. revert t.
  induction s as [|kv s IH]; intros t Hd; simpl; [done|].
  rewrite IH; [by apply fill_flat_defined|].
  by rewrite fill_flat_defined.
Qed.

Lemma defaults_flat_unique t s : unique_keys t -> unique_keys (defaults_flat t s).
Proof.
  unfold defaults_flat. revert t.
  induction s as [|kv s IH]; intros t Hu; simpl; [done|].
  by apply IH, fill_flat_unique.
Qed.

Lemma drop_undefined_fold o : drop_undefined o = fold_left drop_step o o.
Proof. reflexivity. Qed.

Lemma drop_fold_In l acc k v :
  In (k, v) (fold_left drop_step l acc) ->
  In (k, v) acc /\ forall v', In (k, v') l -> is_undef v' = false.
Proof.
  revert acc. induction l as [|[k0 v0] l IH]; intros acc; simpl; [by auto|].
  intros Hin. apply IH in Hin as [Hin Hl]. unfold drop_step in Hin. simpl in Hin.
  destruct (is_undef v0) eqn:E0.
  - apply prop_delete_In in Hin as [Hin Hne]. split; [done|].
    intros v' [[= -> ->]|Hv']; [done | by apply Hl].
  - split; [done|]. intros v' [[= -> ->]|Hv']; [done | by apply Hl].
Qed.

(** After the loop no header with an [undefined] value is left. *)
Lemma drop_undefined_clean o k v : In (k, v) (drop_undefined o) -> is_undef v = false.
Proof.
  rewrite drop_undefined_fold. intros Hin.
  apply drop_fold_In in Hin as [Hin Hl]. by apply Hl.
Qed.

Lemma drop_fold_sub l acc : sublist (fold_left drop_step l acc) acc.
Proof.
  revert acc. induction l as [|kv l IH]; intros acc; simpl; [done|].
  etransitivity; [apply IH|]. unfold drop_step.
  destruct (is_undef (snd kv)); [apply prop_delete_sub | done].
Qed.

Lemma drop_undefined_unique o : unique_keys o -> unique_keys (drop_undefined o).
Proof.
  unfold unique_keys. intros Hu. eapply sublist_NoDup; [exact Hu|].
  apply (fmap_sublist fst), drop_fold_sub.
Qed.

Lemma vget_delete_ne (o : obj) k k' : k <> k' -> vget (prop_delete o k) k' = vget o k'.
Proof. intros. unfold vget. by rewrite prop_lookup_delete_ne. Qed.

Lemma drop_fold_defined l acc k :
  (forall v, In (k, v) l -> is_undef v = false) ->
  vget (fold_left drop_step l acc) k = vget acc k.
Proof.
  revert acc. induction l as [|[k0 v0] l IH]; intros acc Hl; simpl; [done|].
  rewrite IH by (intros v Hv; apply Hl; by right).
  unfold drop_step. simpl. destruct (is_undef v0) eqn:E0; [|done].
  apply vget_delete_ne. intros ->.
  specialize (Hl v0 (or_introl eq_refl)). congruence.
Qed.

(** A defined header of an object with unique keys survives the loop. *)
Lemma drop_undefined_defined o k :
  unique_keys o -> is_undef (vget o k) = false ->
  vget (drop_undefined o) k = vget o k.
Proof.
  intros Hu Hd. rewrite drop_undefined_fold. apply drop_fold_defined.
  intros v Hin. unfold vget in Hd.
  destruct (prop_lookup o k) as [v0|] eqn:E; [|discriminate].
  by rewrite (prop_lookup_unique o k v0 v Hu E Hin).
Qed.

(** ** The store only gains: objects stay, and a well-formed object keeps
    its defined properties *)

Lemma obj_le_refl o : obj_le o o.
Proof. by intros Hu. Qed.

Lemma obj_le_trans o1 o2 o3 : obj_le o1 o2 -> obj_le o2 o3 -> obj_le o1 o3.
Proof.
  intros H12 H23 Hu. destruct (H12 Hu) as [Hu2 Hd2]. destruct (H23 Hu2) as [Hu3 Hd3].
  split; [done|]. intros k Hk. rewrite Hd3; [by apply Hd2|]. by rewrite Hd2.
Qed.

Lemma heap_le_refl h : heap_le h h.
Proof. intros l o E. exists o. split; [done | apply obj_le_refl]. Qed.

Lemma heap_le_trans h1 h2 h3 : heap_le h1 h2 -> heap_le h2 h3 -> heap_le h1 h3.
Proof.
  intros H12 H23 l o E. destruct (H12 l o E) as (o2 & E2 & L2).
  destruct (H23 l o2 E2) as (o3 & E3 & L3). exists o3.
  split; [done | by eapply obj_le_trans].
Qed.

Lemma heap_le_alloc h o : heap_le h (h ++ [o]).
Proof.
  intros l o0 E. exists o0. split; [|apply obj_le_refl].
  by apply lookup_app_l_Some.
Qed.

Lemma heap_le_update (h : store) l o o' :
  h !! l = Some o -> obj_le o o' -> heap_le h (<[l := o']> h).
Proof.
  intros E Hle l0 o0 E0. destruct (decide (l0 = l)) as [->|Hne].
  - exists o'. rewrite E in E0. injection E0 as <-.
    split; [|done]. apply list_lookup_insert_eq. by eapply lookup_lt_Some.
  - exists o0. split; [|apply obj_le_refl].
    by rewrite list_lookup_insert_ne.
Qed.

#[local] Instance grows_preorder : PreOrder grows.
Proof.
  split; [intros w; apply heap_le_refl|].
  intros w1 w2 w3. apply heap_le_trans.
Qed.

Lemma fill_grows deep t h kv : heap_le h (snd (fill deep (t, h) kv)).
Proof.
  destruct kv as [k v]. unfold fill.
  destruct (skipped_key k); [apply heap_le_refl|]. simpl.
  destruct deep; [|apply heap_le_refl].
  destruct (oget _ k) as [?|lt]; [apply heap_le_refl|].
  destruct v as [?|ls]; [apply heap_le_refl|].
  destruct (h !! lt) as [ot|] eqn:Et; [|apply heap_le_refl].
  destruct (h !! ls) as [os|] eqn:Es; [|apply heap_le_refl].
  eapply heap_le_update; [exact Et|].
  intros Hu. split; [by apply defaults_flat_unique|].
  intros k' Hk'. by apply defaults_flat_defined.
Qed.

Lemma fill_fold_grows deep s t h : heap_le h (snd (fold_left (fill deep) s (t, h))).
Proof.
  revert t h. induction s as [|kv s IH]; intros t h; cbn [fold_left];
    [apply heap_le_refl|].
  pose proof (fill_grows deep t h kv) as Hg.
  destruct (fill deep (t, h) kv) as [t' h'].
  eapply heap_le_trans; [exact Hg | apply IH].
Qed.

Lemma defaults_grows deep srcs t h : heap_le h (snd (defaults deep t srcs h)).
Proof.
  unfold defaults. revert t h.
  induction srcs as [|src srcs IH]; intros t h; cbn [fold_left];
    [apply heap_le_refl|].
  assert (heap_le h (snd (defaults_from deep (t, h) src))) as Hg.
  { destruct src as [s|]; [apply fill_fold_grows | apply heap_le_refl]. }
  destruct (defaults_from deep (t, h) src) as [t' h'].
  eapply heap_le_trans; [exact Hg | apply IH].
Qed.

Lemma defaultsDeep_grows t srcs : respects grows (defaultsDeep t srcs).
Proof.
  intros w r w'. unfold defaultsDeep, bind, read, set_heap, ret.
  pose proof (defaults_grows true srcs t (heap w)) as Hg.
  destruct (defaults true t srcs (heap w)) as [o h'].
  intros [= <- <-]. exact Hg.
Qed.

Lemma alloc_grows o : respects grows (alloc o).
Proof. intros w r w' [= <- <-]. apply heap_le_alloc. Qed.

#[local] Hint Resolve defaultsDeep_grows alloc_grows : steps.

Ltac same_heap :=
  let E := fresh in
  intros ? ? ? E;
  unfold emit, set_nonces, set_options, set_defaults in E;
  injection E as <- <-; apply heap_le_refl.

Lemma emit_grows e : respects grows (emit e).
Proof. same_heap. Qed.
Lemma set_nonces_grows c : respects grows (set_nonces c).
Proof. same_heap. Qed.
Lemma set_options_grows o : respects grows (set_options o).
Proof. same_heap. Qed.

#[local] Hint Resolve emit_grows set_nonces_grows set_options_grows : steps.

Lemma alloc_lobj_grows o : respects grows (alloc_lobj o).
Proof. induction o as [|[k [v|f|l]] o IH]; simpl; step_cases. Qed.

Lemma strip_headers_grows o : respects grows (strip_headers o).
Proof.
  unfold strip_headers. destruct (oget o "headers") as [v|l]; [step_cases|].
  intros w r w'. unfold bind, read, set_heap, ret.
  destruct (heap w !! l) as [hs|] eqn:E; intros [= <- <-]; [|apply heap_le_refl].
  eapply heap_le_update; [exact E|].
  intros Hu. split; [by apply drop_undefined_unique|].
  intros k Hk. by apply drop_undefined_defined.
Qed.

#[local] Hint Resolve alloc_lobj_grows strip_headers_grows : steps.

Lemma call_hook_grows f url m :
  (forall h ws c, f url m h = (ws, c) -> heap_le h (write_all ws h)) ->
  respects grows (call_hook f url m).
Proof.
  intros Hf w r w' E. unfold call_hook in E.
  destruct (f url m (heap w)) as [ws [r0|e]] eqn:Ef; injection E as <- <-;
    exact (Hf _ _ _ Ef).
Qed.

Lemma merge_options_grows this url :
  hook_only_adds this -> respects grows (merge_options this url).
Proof.
  unfold hook_only_adds, merge_options. intros Hg.
  destruct (HTTP_OPTIONS this) as [optsFn|]; [|step_cases].
  assert (forall m, respects grows (call_hook optsFn url m)) as Hh
    by (intros m; apply call_hook_grows; intros h ws c; apply Hg).
  step_cases.
Qed.

Lemma open_request_grows url o j f b : respects grows (open_request url o j f b).
Proof. unfold open_request. step_cases. Qed.

(** ** The shape of the merged options *)

Lemma defined_or_undef a : defined_or a (OVal VUndef) = a.
Proof. unfold defined_or. by destruct a as [[]|]. Qed.

Lemma defined_or_assoc a b c :
  defined_or (defined_or a b) c = defined_or a (defined_or b c).
Proof. unfold defined_or. destruct (is_undefined a) eqn:E; [done | by rewrite E]. Qed.

Lemma oget_absent (o : oobj) k : ~ In k (map fst o) -> oget o k = OVal VUndef.
Proof. intros Hn. unfold oget. by apply prop_lookup_None in Hn as ->. Qed.

Lemma oget_cons (o : oobj) k0 v0 k :
  oget ((k0, v0) :: o) k = if String.eqb k k0 then v0 else oget o k.
Proof. unfold oget. simpl. by destruct (String.eqb k k0). Qed.

Lemma fill_shape deep t h k0 v0 k :
  skipped_key k = false ->
  oget (fst (fill deep (t, h) (k0, v0))) k =
    if String.eqb k0 k then defined_or (oget t k) v0 else oget t k.
Proof.
  intros Hk. unfold fill.
  destruct (String.eqb_spec k0 k) as [->|Hne].
  - rewrite Hk. simpl. unfold defined_or.
    destruct (is_undefined (oget t k)) eqn:Eu; simpl; [|done].
    destruct (is_undefined v0) eqn:Ev; simpl.
    + destruct (oget t k) as [[]|]; destruct v0 as [[]|]; done.
    + apply oget_set_eq.
  - destruct (skipped_key k0); [done|]. simpl.
    destruct (_ && _); [by apply oget_set_ne | done].
Qed.

Lemma fill_fold_shape deep s t h k :
  unique_keys s -> skipped_key k = false ->
  oget (fst (fold_left (fill deep) s (t, h))) k = defined_or (oget t k) (oget s k).
Proof.
  unfold unique_keys. intros Hu Hk. revert t h.
  induction s as [|[k0 v0] s IH]; intros t h; cbn [fold_left].
  - by rewrite defined_or_undef.
  - apply NoDup_cons in Hu as [Hnin Hu].
    pose proof (fill_shape deep t h k0 v0 k Hk) as Hf.
    destruct (fill deep (t, h) (k0, v0)) as [t1 h1]. simpl in Hf.
    rewrite (IH Hu), Hf, oget_cons.
    rewrite (String.eqb_sym k k0).
    destruct (String.eqb_spec k0 k) as [->|Hne]; [|done].
    rewrite (oget_absent s k); [apply defined_or_undef|].
    intros Hin. apply Hnin. by apply list_elem_of_In.
Qed.

(** A property of the result of [defaults] is the first defined one among
    the target's and the sources', in that order. *)
Lemma defaults_shape deep srcs t h k :
  Forall unique_source srcs -> skipped_key k = false ->
  oget (fst (defaults deep t srcs h)) k =
    defined_or (oget t k) (precedence (map (fun s => source_get s k) srcs)).
Proof.
  intros Hu Hk. unfold defaults. revert t h.
  induction Hu as [|src srcs Hs _ IH]; intros t h; cbn [fold_left map precedence fold_right].
  - by rewrite defined_or_undef.
  - assert (oget (fst (defaults_from deep (t, h) src)) k
            = defined_or (oget t k) (source_get src k)) as Hf.
    { destruct src as [s|]; simpl; [by apply fill_fold_shape|].
      by rewrite defined_or_undef. }
    destruct (defaults_from deep (t, h) src) as [t1 h1]. simpl in Hf.
    unfold precedence in IH. by rewrite IH, Hf, defined_or_assoc.
Qed.

Lemma pick_fold_shape (object : oobj) paths acc k :
  oget (fold_left
          (fun o p => if is_undefined (oget object p) then o
                      else prop_set o p (oget object p)) paths acc) k
  = if bool_decide (k ∈ paths) then defined_or (oget object k) (oget acc k)
    else oget acc k.
Proof.
  revert acc. induction paths as [|p paths IH]; intros acc; simpl; [done|].
  rewrite IH. clear IH.
  destruct (decide (p = k)) as [->|Hne].
  - rewrite (bool_decide_eq_true_2 (k ∈ k :: paths)) by apply list_elem_of_here.
    unfold defined_or. destruct (is_undefined (oget object k)) eqn:Eu.
    + by destruct (bool_decide _).
    + rewrite oget_set_eq, ?Eu. by destruct (bool_decide _).
  - assert (bool_decide (k ∈ p :: paths) = bool_decide (k ∈ paths)) as ->.
    { apply bool_decide_ext. rewrite elem_of_cons.
      split; [intros [?|?]; [congruence | done] | auto]. }
    destruct (is_undefined (oget object p)); [done|].
    by rewrite oget_set_ne.
Qed.

(** [pick] keeps the listed properties and nothing else. *)
Lemma pick_shape object paths k :
  oget (pick object paths) k =
    if bool_decide (k ∈ paths) then oget object k else OVal VUndef.
Proof.
  unfold pick. rewrite pick_fold_shape.
  destruct (bool_decide _); [|done]. apply defined_or_undef.
Qed.

Lemma pick_unique object paths : unique_keys (pick object paths).
Proof.
  unfold pick. assert (unique_keys (@nil (string * oval))) as Hnil by constructor.
  revert Hnil. generalize (@nil (string * oval)).
  induction paths as [|p paths IH]; intros acc Hu; simpl; [done|].
  apply IH. destruct (is_undefined _); [done | by apply prop_set_unique].
Qed.

(** ** The hook's result and the merge *)

Lemma alloc_lobj_runs r w :
  alloc_lobj r w =
    (Ok (fst (lobj_alloc (length (heap w)) r)),
     {| heap := heap w ++ snd (lobj_alloc (length (heap w)) r);
        DEFAULT_HTTP_OPTIONS := DEFAULT_HTTP_OPTIONS w; nonces := nonces w;
        trace := trace w; options := options w |}).
Proof.
  revert w. induction r as [|[k [v|f|l]] r IH]; intros w; simpl.
  - unfold ret. rewrite app_nil_r. by destruct w.
  - unfold bind. rewrite IH. by destruct (lobj_alloc _ r).
  - unfold bind, alloc. rewrite IH. simpl.
    rewrite length_app. simpl. rewrite Nat.add_1_r.
    destruct (lobj_alloc _ r). simpl. by rewrite <- app_assoc.
  - unfold bind. rewrite IH. by destruct (lobj_alloc _ r).
Qed.

Lemma lobj_alloc_shape n r k :
  match prop_lookup r k with
  | Some (LVal v) => oget (fst (lobj_alloc n r)) k = OVal v
  | Some (LObj f) =>
      exists i, oget (fst (lobj_alloc n r)) k = ORef (n + i) /\
                snd (lobj_alloc n r) !! i = Some f
  | Some (LRef l) => oget (fst (lobj_alloc n r)) k = ORef l
  | None => oget (fst (lobj_alloc n r)) k = OVal VUndef
  end.
Proof.
  revert n. induction r as [|[k0 [v0|f0|l0]] r IH]; intros n; simpl; [done| | |].
  - specialize (IH n). destruct (lobj_alloc n r) as [o hs]. simpl in *.
    rewrite oget_cons. by destruct (String.eqb k k0).
  - specialize (IH (S n)). destruct (lobj_alloc (S n) r) as [o hs]. simpl in *.
    rewrite oget_cons. destruct (String.eqb k k0).
    + exists 0. by rewrite Nat.add_0_r.
    + destruct (prop_lookup r k) as [[v|f|l]|]; try done.
      destruct IH as (i & Hi & Hf). exists (S i). split; [|done].
      rewrite Hi. f_equal. lia.
  - specialize (IH n). destruct (lobj_alloc n r) as [o hs]. simpl in *.
    rewrite oget_cons. by destruct (String.eqb k k0).
Qed.

Lemma call_hook_runs f url m w :
  call_hook f url m w =
    (match snd (f url m (heap w)) with
     | Returns r => Ok r
     | Throws e => raise e
     end,
     {| heap := write_all (fst (f url m (heap w))) (heap w);
        DEFAULT_HTTP_OPTIONS := DEFAULT_HTTP_OPTIONS w;
        nonces := nonces w; trace := trace w; options := options w |}).
Proof. unfold call_hook. by destruct (f url m (heap w)) as [ws [r|e]]. Qed.

Lemma defaultsDeep_runs t srcs w :
  defaultsDeep t srcs w =
    (Ok (fst (defaults true t srcs (heap w))),
     {| heap := snd (defaults true t srcs (heap w));
        DEFAULT_HTTP_OPTIONS := DEFAULT_HTTP_OPTIONS w; nonces := nonces w;
        trace := trace w; options := options w |}).
Proof.
  unfold defaultsDeep, bind, read, set_heap, ret.
  by destruct (defaults true t srcs (heap w)).
Qed.

(** [merge_options] step by step: [u] is [userOptions] and [hm] the store
    in which the final merge starts. *)
Lemma merge_options_inv this url w opts w' :
  merge_options this url w = (Ok opts, w') ->
  exists u hm,
    opts = fst (defaults true [] [u; Some (options w); DEFAULT_HTTP_OPTIONS w] hm) /\
    heap w' = snd (defaults true [] [u; Some (options w); DEFAULT_HTTP_OPTIONS w] hm) /\
    options w' = options w /\ nonces w' = nonces w /\
    DEFAULT_HTTP_OPTIONS w' = DEFAULT_HTTP_OPTIONS w /\
    match HTTP_OPTIONS this with
    | None => u = None /\ hm = heap w /\ trace w' = trace w
    | Some optsFn =>
        let pre := defaults true [] [Some (options w); DEFAULT_HTTP_OPTIONS w] (heap w) in
        exists ws r,
          optsFn url (fst pre) (snd pre) = (ws, Returns r) /\
          u = Some (pick (fst (lobj_alloc (length (write_all ws (snd pre))) r)) allowed) /\
          hm = hooked ws r (snd pre) /\
          trace w' = trace w ++ [EvOptsFn url (fst pre)]
    end.
Proof.
  unfold merge_options. intros E.
  apply bind_inv in E as [(d & w0 & E0 & E)|(? & ? & ?)]; [|discriminate].
  injection E0 as <- <-.
  apply bind_inv in E as [(u & w1 & E1 & E)|(? & ? & ?)]; [|discriminate].
  apply bind_inv in E as [(o & w2 & E2 & E)|(? & ? & ?)]; [|discriminate].
  injection E2 as <- <-.
  rewrite defaultsDeep_runs in E. injection E as <- <-. simpl.
  destruct (HTTP_OPTIONS this) as [optsFn|].
  - apply bind_inv in E1 as [(o & w2 & E2 & E1)|(? & ? & ?)]; [|discriminate].
    injection E2 as <- <-.
    apply bind_inv in E1 as [(merged & w3 & E3 & E1)|(? & ? & ?)]; [|discriminate].
    rewrite defaultsDeep_runs in E3. injection E3 as <- <-.
    apply bind_inv in E1 as [(? & w4 & E4 & E1)|(? & ? & ?)]; [|discriminate].
    injection E4 as <-.
    apply bind_inv in E1 as [(r & w6 & E6 & E1)|(? & ? & ?)]; [|discriminate].
    subst w4. rewrite call_hook_runs in E6. cbn [heap] in E6.
    destruct (optsFn url _ _) as [ws [r0|e]] eqn:Ef; [|discriminate].
    cbn [fst snd] in E6.
    injection E6 as <- <-.
    apply bind_inv in E1 as [(r' & w7 & E7 & E1)|(? & ? & ?)]; [|discriminate].
    rewrite alloc_lobj_runs in E7. injection E7 as <- <-.
    injection E1 as <- <-. simpl.
    eexists _, _. repeat split; try reflexivity.
    exists ws, r0. repeat split; done.
  - injection E1 as <- <-.
    exists None, (heap w). repeat split; reflexivity.
Qed.

Lemma allowed_not_skipped k : k ∈ allowed -> skipped_key k = false.
Proof.
  unfold allowed. rewrite !elem_of_cons, elem_of_nil.
  intros Hk. repeat destruct Hk as [->|Hk]; done.
Qed.

(** Two facts about one source that need no uniqueness of keys. *)
Lemma fill_fold_keep deep s t h k :
  skipped_key k = false -> is_undefined (oget t k) = false ->
  oget (fst (fold_left (fill deep) s (t, h))) k = oget t k.
Proof.
  intros Hk. revert t h.
  induction s as [|[k0 v0] s IH]; intros t h Hd; cbn [fold_left]; [done|].
  pose proof (fill_shape deep t h k0 v0 k Hk) as Hf.
  destruct (fill deep (t, h) (k0, v0)) as [t1 h1]. simpl in Hf.
  assert (oget t1 k = oget t k) as Ht.
  { rewrite Hf. unfold defined_or. rewrite Hd. by destruct (String.eqb k0 k). }
  rewrite IH; [done | by rewrite Ht].
Qed.

Lemma fill_fold_first deep s t h k :
  skipped_key k = false -> is_undefined (oget t k) = true ->
  is_undefined (oget s k) = false ->
  oget (fst (fold_left (fill deep) s (t, h))) k = oget s k.
Proof.
  intros Hk. revert t h.
  induction s as [|[k0 v0] s IH]; intros t h Hu Hd; cbn [fold_left]; [done|].
  pose proof (fill_shape deep t h k0 v0 k Hk) as Hf.
  destruct (fill deep (t, h) (k0, v0)) as [t1 h1]. simpl in Hf.
  rewrite oget_cons, (String.eqb_sym k k0) in Hd |- *.
  destruct (String.eqb k0 k).
  - unfold defined_or in Hf. rewrite Hu in Hf.
    rewrite fill_fold_keep; [done | done | by rewrite Hf].
  - apply IH; [by rewrite Hf | done].
Qed.

Lemma defaults_cons deep t src srcs h :
  defaults deep t (src :: srcs) h =
    defaults deep (fst (defaults_from deep (t, h) src)) srcs
      (snd (defaults_from deep (t, h) src)).
Proof. unfold defaults. cbn [fold_left]. by destruct (defaults_from deep (t, h) src). Qed.

Lemma defaults_from_shape deep t h src k :
  unique_source src -> skipped_key k = false ->
  oget (fst (defaults_from deep (t, h) src)) k = defined_or (oget t k) (source_get src k).
Proof.
  intros Hu Hk. destruct src as [s|]; cbn [defaults_from source_get fst].
  - by apply fill_fold_shape.
  - by rewrite defined_or_undef.
Qed.

Lemma defaults_from_keep deep t h src k :
  skipped_key k = false -> is_undefined (oget t k) = false ->
  oget (fst (defaults_from deep (t, h) src)) k = oget t k.
Proof.
  intros Hk Hd. destruct src as [s|]; cbn [defaults_from fst]; [|done].
  by apply fill_fold_keep.
Qed.

(** When the hook contributes no value for a key the caller defines, the
    merged options hold the caller's value. *)
Lemma merged_from_caller u o d hm k :
  unique_source u -> skipped_key k = false ->
  source_get u k = OVal VUndef ->
  is_undefined (oget o k) = false ->
  oget (fst (defaults true [] [u; Some o; d] hm)) k = oget o k.
Proof.
  intros Hu Hk Hun Hd. rewrite !defaults_cons.
  pose proof (defaults_from_shape true [] hm u k Hu Hk) as H1.
  destruct (defaults_from true ([], hm) u) as [t1 h1] eqn:E1.
  rewrite ?E1 in H1. cbn [fst snd] in *.
  rewrite Hun in H1. change (defined_or (oget [] k) (OVal VUndef)) with (OVal VUndef) in H1.
  assert (oget (fst (defaults_from true (t1, h1) (Some o))) k = oget o k) as H2.
  { cbn [defaults_from]. apply fill_fold_first; [done | by rewrite H1 | done]. }
  destruct (defaults_from true (t1, h1) (Some o)) as [t2 h2] eqn:E2.
  rewrite ?E2 in H2. cbn [fst snd] in *.
  pose proof (defaults_from_keep true t2 h2 d k Hk) as H3. rewrite H2 in H3.
  specialize (H3 Hd).
  destruct (defaults_from true (t2, h2) d) as [t3 h3] eqn:E3.
  rewrite ?E3 in H3. by cbn [fst snd] in *.
Qed.

(** ** The nested merge of the header maps *)

Lemma fill_value deep t h k v : snd (fill deep (t, h) (k, OVal v)) = h.
Proof.
  unfold fill. destruct (skipped_key k); [done|]. cbn [snd].
  destruct deep; [|done]. by destruct (oget _ k).
Qed.

Lemma fill_fold_values deep s t h :
  (forall k l, ~ In (k, ORef l) s) -> snd (fold_left (fill deep) s (t, h)) = h.
Proof.
  revert t h. induction s as [|[k v] s IH]; intros t h Hs; cbn [fold_left]; [done|].
  destruct v as [v|l]; [|by destruct (Hs k l); left].
  pose proof (fill_value deep t h k v) as Hf.
  destruct (fill deep (t, h) (k, OVal v)) as [t1 h1]. cbn [snd] in Hf. subst h1.
  apply IH. intros k' l' Hin. apply (Hs k' l'). by right.
Qed.

Lemma fill_headers t h v :
  fill true (t, h) ("headers", v) =
    (if is_undefined (oget t "headers") && negb (is_undefined v)
     then prop_set t "headers" v else t,
     deep_fill h (defined_or (oget t "headers") v) v).
Proof.
  unfold fill. cbn [skipped_key String.eqb orb]. 
  assert (skipped_key "headers" = false) as -> by reflexivity.
  f_equal. unfold deep_fill, defined_or.
  destruct (is_undefined (oget t "headers")) eqn:Eu.
  - destruct (is_undefined v) eqn:Ev; cbn [andb negb].
    + destruct v as [[]|]; try discriminate.
      by destruct (oget t "headers") as [[]|].
    + by rewrite oget_set_eq.
  - cbn [andb]. done.
Qed.

(** One source whose only object is under [headers]: the store changes
    by the nested merge of that property. *)
Lemma fill_fold_flat s t h :
  unique_keys s -> flat s ->
  snd (fold_left (fill true) s (t, h)) =
    deep_fill h (defined_or (oget t "headers") (oget s "headers")) (oget s "headers").
Proof.
  revert t h. induction s as [|[k v] s IH]; intros t h Hu Hf; cbn [fold_left].
  - unfold deep_fill. by destruct (defined_or _ _).
  - apply NoDup_cons in Hu as [Hk Hu].
    assert (flat s) as Hf' by (intros k' l' Hin; apply (Hf k' l'); by right).
    rewrite oget_cons.
    destruct (String.eqb_spec "headers" k) as [<-|Hne].
    + rewrite fill_headers. rewrite fill_fold_values; [done|].
      intros k' l' Hin. pose proof (Hf k' l' (or_intror Hin)) as ->.
      apply Hk. apply list_elem_of_In, in_map_iff. by exists ("headers", ORef l').
    + destruct v as [v|l]; [|by destruct Hne; rewrite (Hf k l (or_introl eq_refl))].
      pose proof (fill_value true t h k v) as Hh.
      destruct (skipped_key k) eqn:Hsk.
      * unfold fill. rewrite Hsk. by apply IH.
      * pose proof (fill_shape true t h k (OVal v) "headers" eq_refl) as Ht.
        destruct (fill true (t, h) (k, OVal v)) as [t1 h1]. cbn [fst snd] in *. subst h1.
        rewrite (proj2 (String.eqb_neq k "headers")) in Ht by congruence.
        rewrite IH by done. by rewrite Ht.
Qed.

Lemma vdefined_or_same a : vdefined_or a a = a.
Proof. unfold vdefined_or. by destruct (is_undef a). Qed.

Lemma vdefined_or_undef a : vdefined_or a VUndef = a.
Proof. unfold vdefined_or. by destruct a. Qed.

Lemma vdefined_or_assoc a b c :
  vdefined_or (vdefined_or a b) c = vdefined_or a (vdefined_or b c).
Proof. unfold vdefined_or. destruct (is_undef a) eqn:Ea; [done|]. by rewrite Ea. Qed.

Lemma fill_flat_shape t k0 v0 k :
  skipped_key k = false ->
  vget (fill_flat t (k0, v0)) k =
    if String.eqb k0 k then vdefined_or (vget t k) v0 else vget t k.
Proof.
  intros Hk. unfold fill_flat, vdefined_or.
  destruct (String.eqb_spec k0 k) as [->|Hne].
  - rewrite Hk. destruct (is_undef (vget t k)) eqn:Eu; cbn [andb]; [|done].
    destruct (is_undef v0) eqn:Ev; cbn [negb].
    + destruct (vget t k); destruct v0; done.
    + apply vget_set_eq.
  - destruct (skipped_key k0); [done|].
    destruct (_ && _); [by apply vget_set_ne | done].
Qed.

Lemma vget_absent (o : obj) k : ~ In k (map fst o) -> vget o k = VUndef.
Proof. intros Hn. unfold vget. by rewrite (proj2 (prop_lookup_None o k) Hn). Qed.

Lemma vget_cons (o : obj) k0 v0 k :
  vget ((k0, v0) :: o) k = if String.eqb k k0 then v0 else vget o k.
Proof. unfold vget. simpl. by destruct (String.eqb k k0). Qed.

(** An entry of [defaults(target, source)] is the target's when it is
    defined, else the source's. *)
Lemma defaults_flat_shape t s k :
  unique_keys s -> skipped_key k = false ->
  vget (defaults_flat t s) k = vdefined_or (vget t k) (vget s k).
Proof.
  unfold unique_keys, defaults_flat. intros Hu Hk. revert t.
  induction s as [|[k0 v0] s IH]; intros t; cbn [fold_left].
  - by rewrite vdefined_or_undef.
  - apply NoDup_cons in Hu as [Hnin Hu].
    rewrite (IH Hu), (fill_flat_shape t k0 v0 k Hk), vget_cons.
    rewrite (String.eqb_sym k k0).
    destruct (String.eqb_spec k0 k) as [->|Hne]; [|done].
    rewrite (vget_absent s k); [apply vdefined_or_undef|].
    intros Hin. apply Hnin. by apply list_elem_of_In.
Qed.

Lemma deep_fill_lookup h t s l o :
  h !! l = Some o -> exists o', deep_fill h t s !! l = Some o'.
Proof.
  intros E. unfold deep_fill.
  destruct t as [?|lt]; [by eauto|]. destruct s as [?|ls]; [by eauto|].
  destruct (h !! lt) as [ot|] eqn:Et; [|by eauto].
  destruct (h !! ls) as [os|]; [|by eauto].
  destruct (decide (l = lt)) as [->|Hne].
  - eexists. apply list_lookup_insert_eq. by eapply lookup_lt_Some.
  - exists o. by rewrite list_lookup_insert_ne.
Qed.

Lemma deep_fill_well_keyed h t s : well_keyed h -> well_keyed (deep_fill h t s).
Proof.
  intros Hw. unfold deep_fill.
  destruct t as [?|lt]; [done|]. destruct s as [?|ls]; [done|].
  destruct (h !! lt) as [ot|] eqn:Et; [|done].
  destruct (h !! ls) as [os|]; [|done].
  intros l o. destruct (decide (l = lt)) as [->|Hne].
  - rewrite list_lookup_insert_eq by (by eapply lookup_lt_Some).
    intros [= <-]. apply defaults_flat_unique. by apply (Hw lt).
  - rewrite list_lookup_insert_ne by done. apply Hw.
Qed.

(** The target's header map after the nested merge, entry by entry. *)
Lemma deep_fill_target h L s f k :
  well_keyed h -> h !! L = Some f -> skipped_key k = false ->
  header_of (deep_fill h (ORef L) s) (ORef L) k =
    vdefined_or (header_of h (ORef L) k) (header_of h s k).
Proof.
  intros Hw Ef Hk. unfold deep_fill. cbn [header_of]. rewrite Ef.
  destruct s as [?|ls]; cbn [header_of]; [by rewrite Ef, vdefined_or_undef|].
  destruct (h !! ls) as [os|] eqn:Es; [|by rewrite Ef, vdefined_or_undef].
  rewrite list_lookup_insert_eq by (by eapply lookup_lt_Some).
  apply defaults_flat_shape; [by apply (Hw ls) | done].
Qed.

(** The other objects stay as they are. *)
Lemma deep_fill_other h L s l : l <> L -> deep_fill h (ORef L) s !! l = h !! l.
Proof.
  intros Hne. unfold deep_fill. destruct s as [?|ls]; [done|].
  destruct (h !! L); [|done]. destruct (h !! ls); [|done].
  by rewrite list_lookup_insert_ne.
Qed.

Lemma deep_fill_elsewhere h L s s' k :
  s' <> ORef L ->
  header_of (deep_fill h (ORef L) s) s' k = header_of h s' k.
Proof.
  intros Hne. destruct s' as [?|l]; [done|]. cbn [header_of].
  rewrite deep_fill_other; [done | congruence].
Qed.

(** When the target is not the object [L], the source is [undefined], so
    that nothing is merged. *)
Lemma deep_fill_as h t s L :
  t = ORef L \/ (is_undefined t = true /\ is_undefined s = true) ->
  deep_fill h t s = deep_fill h (ORef L) s.
Proof.
  intros [->|[Ht Hs]]; [done|].
  destruct t as [[]|]; try discriminate. destruct s as [[]|]; try discriminate.
  unfold deep_fill. done.
Qed.

Lemma defaults_from_store t h src :
  unique_source src -> flat_source src ->
  snd (defaults_from true (t, h) src) =
    deep_fill h (defined_or (oget t "headers") (source_get src "headers"))
      (source_get src "headers").
Proof.
  intros Hu Hf. destruct src as [s|]; cbn [defaults_from source_get snd].
  - by apply fill_fold_flat.
  - unfold deep_fill. by destruct (defined_or _ _).
Qed.

Lemma header_of_undefined h v k : is_undefined v = true -> header_of h v k = VUndef.
Proof. by destruct v as [[]|]. Qed.

(** One source of the merge, seen from the header map [L] that the
    result is going to refer to. *)
Lemma defaults_from_headers t h src L f k :
  unique_source src -> flat_source src -> well_keyed h ->
  h !! L = Some f -> skipped_key k = false ->
  oget t "headers" = ORef L \/
    (is_undefined (oget t "headers") = true /\
     (source_get src "headers" = ORef L \/
      is_undefined (source_get src "headers") = true)) ->
  let h' := snd (defaults_from true (t, h) src) in
  header_of h' (ORef L) k =
    vdefined_or (header_of h (ORef L) k) (header_of h (source_get src "headers") k) /\
  (forall s', s' <> ORef L -> header_of h' s' k = header_of h s' k) /\
  well_keyed h' /\ exists f', h' !! L = Some f'.
Proof.
  intros Hu Hf Hw Ef Hk Ht h'. subst h'. rewrite (defaults_from_store t h src Hu Hf).
  set (a := oget t "headers") in *. set (b := source_get src "headers") in *.
  assert (deep_fill h (defined_or a b) b = deep_fill h (ORef L) b) as ->.
  { apply deep_fill_as. unfold defined_or.
    destruct Ht as [->|[Ha [->|Hb]]]; [by left | rewrite Ha; by left |].
    rewrite Ha. right. by rewrite Hb. }
  split; [by eapply deep_fill_target|].
  split; [intros s' Hs'; by apply deep_fill_elsewhere|].
  split; [by apply deep_fill_well_keyed | by eapply deep_fill_lookup].
Qed.

Lemma defined_or_ref a b L :
  defined_or a b = ORef L ->
  a = ORef L \/ (is_undefined a = true /\ b = ORef L).
Proof. unfold defined_or. destruct (is_undefined a) eqn:E; auto. Qed.

Lemma defaults_nil deep t h : defaults deep t [] h = (t, h).
Proof. reflexivity. Qed.

Lemma oval_ref_dec (s : oval) L : s = ORef L \/ s <> ORef L.
Proof.
  destruct s as [v|l]; [by right|].
  destruct (decide (l = L)) as [->|Hne]; [by left | right; congruence].
Qed.

(** The header map of the merged options, entry by entry: the first
    defined entry among the header maps of the three sources, as they are
    in the store [h] the merge starts in. *)
Lemma merged_headers u o d h L f k :
  unique_source u -> unique_keys o -> unique_source d ->
  flat_source u -> flat o -> flat_source d ->
  well_keyed h -> skipped_key k = false ->
  oget (fst (defaults true [] [u; Some o; d] h)) "headers" = ORef L ->
  h !! L = Some f ->
  header_of (snd (defaults true [] [u; Some o; d] h)) (ORef L) k =
    vdefined_or (header_of h (source_get u "headers") k)
      (vdefined_or (header_of h (oget o "headers") k)
         (header_of h (source_get d "headers") k)).
Proof.
  intros Huu Huo Hud Hfu Hfo Hfd Hw Hk HL Ef.
  rewrite !defaults_cons, defaults_nil in HL |- *. cbn [fst snd] in HL |- *.
  set (a := source_get u "headers"). set (b := oget o "headers").
  set (c := source_get d "headers").
  set (p1 := defaults_from true ([], h) u) in *.
  set (p2 := defaults_from true (fst p1, snd p1) (Some o)) in *.
  set (p3 := defaults_from true (fst p2, snd p2) d) in *.
  assert (oget (fst p1) "headers" = a) as T1
    by (subst p1; by rewrite defaults_from_shape).
  assert (oget (fst p2) "headers" = defined_or a b) as T2
    by (subst p2; rewrite defaults_from_shape by done; by rewrite T1).
  assert (oget (fst p3) "headers" = defined_or (defined_or a b) c) as T3
    by (subst p3; rewrite defaults_from_shape by done; by rewrite T2).
  rewrite T3 in HL.
  assert (a = ORef L \/ is_undefined a = true /\
          (b = ORef L \/ is_undefined b = true /\ c = ORef L)) as Hcase.
  { apply defined_or_ref in HL as [HL|[Hab Hc]].
    - apply defined_or_ref in HL as [Ha|[Ha Hb]]; [by left | right; auto].
    - unfold defined_or in Hab. destruct (is_undefined a) eqn:Ea; [|congruence].
      right. split; [done|]. right. by split. }
  destruct (defaults_from_headers [] h u L f k Huu Hfu Hw Ef Hk)
    as (G1 & O1 & W1 & f1 & F1).
  { right. split; [done|]. fold a. destruct Hcase as [?|[? _]]; auto. }
  fold p1 a in G1, O1, W1, F1.
  destruct (defaults_from_headers (fst p1) (snd p1) (Some o) L f1 k Huo Hfo W1 F1 Hk)
    as (G2 & O2 & W2 & f2 & F2).
  { rewrite T1. change (source_get (Some o) "headers") with b.
    destruct Hcase as [?|[? [?|[? _]]]]; auto. }
  fold p2 in G2, O2, W2, F2. change (source_get (Some o) "headers") with b in G2.
  destruct (defaults_from_headers (fst p2) (snd p2) d L f2 k Hud Hfd W2 F2 Hk)
    as (G3 & _).
  { rewrite T2. fold c. unfold defined_or.
    destruct Hcase as [->|[Ha [->|[Hb ->]]]]; [by left | rewrite Ha; by left |].
    right. rewrite Ha. auto. }
  fold p3 c in G3. rewrite G3. clear G3 T1 T2 T3 HL F2 W2 F1 W1.
  set (g := header_of h (ORef L) k) in *.
  set (ha := header_of h a k) in *. set (hb := header_of h b k).
  set (hc := header_of h c k).
  assert (ha = g \/ ha = VUndef) as Ha'.
  { destruct Hcase as [Ha|[Ha _]]; [left; subst ha g; by rewrite Ha |].
    right. by apply header_of_undefined. }
  assert (header_of (snd p1) (ORef L) k = g) as G1'.
  { rewrite G1. destruct Ha' as [->| ->]; [apply vdefined_or_same | apply vdefined_or_undef]. }
  assert (header_of (snd p1) b k = hb) as Hb1.
  { destruct (oval_ref_dec b L) as [Hb|Hb]; [|by apply O1].
    subst hb. by rewrite Hb. }
  rewrite Hb1, G1' in G2.
  destruct (oval_ref_dec c L) as [Hc|Hc].
  - assert (hc = g) as Ehc by (subst hc g; by rewrite Hc).
    rewrite Hc, G2, Ehc.
    destruct Hcase as [Ha|[Ha [Hb|[Hb _]]]].
    + assert (ha = g) as -> by (subst ha g; by rewrite Ha).
      clearbody g hb. unfold vdefined_or. destruct g; destruct hb; reflexivity.
    + assert (ha = VUndef) as -> by (by apply header_of_undefined).
      assert (hb = g) as -> by (subst hb g; by rewrite Hb).
      clearbody g. unfold vdefined_or. destruct g; reflexivity.
    + assert (ha = VUndef) as -> by (by apply header_of_undefined).
      assert (hb = VUndef) as -> by (by apply header_of_undefined).
      clearbody g. unfold vdefined_or. destruct g; reflexivity.
  - rewrite (O2 c Hc), (O1 c Hc), G2. fold hc.
    destruct Hcase as [Ha|[Ha [Hb|[_ Hc']]]]; [| |done].
    + assert (ha = g) as -> by (subst ha g; by rewrite Ha).
      apply vdefined_or_assoc.
    + assert (ha = VUndef) as -> by (by apply header_of_undefined).
      assert (hb = g) as -> by (subst hb g; by rewrite Hb).
      clearbody g hc. unfold vdefined_or. destruct g; reflexivity.
Qed.

Lemma oget_In (o : oobj) k v : unique_keys o -> In (k, v) o -> oget o k = v.
Proof.
  intros Hu Hin. unfold oget. destruct (prop_lookup o k) as [v'|] eqn:E.
  - symmetry. by eapply prop_lookup_unique.
  - apply prop_lookup_None in E. destruct E. apply in_map_iff. by exists (k, v).
Qed.

Lemma hooked_lookup_new ws r h f i :
  snd (lobj_alloc (length (write_all ws h)) r) !! i = Some f ->
  hooked ws r h !! (length (write_all ws h) + i) = Some f.
Proof.
  intros Hf. unfold hooked. rewrite lookup_app_r by lia. rewrite <- Hf. f_equal. lia.
Qed.

(** C3 (amended): the final option set is the result of
    [defaultsDeep({}, userOptions, opts, DEFAULT_HTTP_OPTIONS)], in which
    earlier sources win.  So the precedence is, increasing: the
    process-wide defaults, then the call-supplied options, then the
    hook's result restricted to the allow-list.  Every property of the
    final options is the first defined one among the hook's (for an
    allowed key), the caller's and the default; in particular when the
    hook and the caller both set an allowed field, the hook's value wins,
    and a header map supplied by the hook, made by it or one it was
    given, is the one the final options refer to.  The header map of the
    final options is merged entry by entry: each of its headers is the
    first defined one among the hook's, the caller's and the default
    header of that name, as they are when the final merge starts. *)
Theorem hook_result_overrides_call_options this url w opts w' :
  unique_keys (options w) ->
  unique_source (DEFAULT_HTTP_OPTIONS w) ->
  merge_options this url w = (Ok opts, w') ->
  exists user : string -> oval,
    (forall k, skipped_key k = false ->
       oget opts k =
         precedence [user k; oget (options w) k;
                     source_get (DEFAULT_HTTP_OPTIONS w) k]) /\
    (forall k, k ∉ allowed -> user k = OVal VUndef) /\
    (hook_answer this url w = None -> forall k, user k = OVal VUndef) /\
    (forall ws r k, hook_answer this url w = Some (ws, Returns r) -> k ∈ allowed ->
       match prop_lookup r k with
       | Some (LVal v) =>
           user k = OVal v /\ (is_undef v = false -> oget opts k = OVal v)
       | Some (LObj f) =>
           exists l o, user k = ORef l /\ oget opts k = ORef l /\
                       merge_store this url w !! l = Some f /\
                       heap w' !! l = Some o /\ obj_le f o
       | Some (LRef l) => user k = ORef l /\ oget opts k = ORef l
       | None => user k = OVal VUndef
       end) /\
    (forall L f k,
       (forall k' l, user k' = ORef l -> k' = "headers") ->
       flat (options w) -> flat_source (DEFAULT_HTTP_OPTIONS w) ->
       well_keyed (merge_store this url w) ->
       oget opts "headers" = ORef L ->
       merge_store this url w !! L = Some f ->
       skipped_key k = false ->
       header_of (heap w') (ORef L) k =
         vdefined_or (header_of (merge_store this url w) (user "headers") k)
           (vdefined_or
              (header_of (merge_store this url w) (oget (options w) "headers") k)
              (header_of (merge_store this url w)
                 (source_get (DEFAULT_HTTP_OPTIONS w) "headers") k))).
Proof.
  intros Hu Hd E.
  apply merge_options_inv in E as (u & hm & -> & Hh & _ & _ & _ & Hhook).
  assert (unique_source u) as Huu.
  { destruct (HTTP_OPTIONS this); [|by destruct Hhook as (-> & _)].
    destruct Hhook as (ws & r & _ & -> & _). apply pick_unique. }
  assert (hm = merge_store this url w) as Hms.
  { unfold merge_store, hook_answer, premerged.
    destruct (HTTP_OPTIONS this); [|by destruct Hhook as (_ & -> & _)].
    destruct Hhook as (ws & r & -> & _ & -> & _). done. }
  assert (forall k, skipped_key k = false ->
            oget (fst (defaults true [] [u; Some (options w); DEFAULT_HTTP_OPTIONS w] hm)) k
            = precedence [source_get u k; oget (options w) k;
                          source_get (DEFAULT_HTTP_OPTIONS w) k]) as Hshape.
  { intros k Hk. rewrite defaults_shape; [done | | done]. by repeat constructor. }
  exists (source_get u). split; [exact Hshape|]. split; [|split; [|split]].
  - intros k Hk. destruct (HTTP_OPTIONS this).
    + destruct Hhook as (ws & r & _ & -> & _). simpl. rewrite pick_shape.
      by rewrite bool_decide_eq_false_2.
    + by destruct Hhook as (-> & _).
  - unfold hook_answer. destruct (HTTP_OPTIONS this); [discriminate|].
    intros _ k. by destruct Hhook as (-> & _).
  - intros ws r k Hans Hk. rewrite <- Hms. clear Hms. unfold hook_answer in Hans.
    destruct (HTTP_OPTIONS this) as [optsFn|]; [|discriminate].
    injection Hans as Hans. destruct Hhook as (ws' & r' & Hr' & -> & -> & _).
    unfold premerged in Hans. rewrite Hans in Hr'. injection Hr' as <- <-.
    pose proof (allowed_not_skipped k Hk) as Hsk.
    simpl. rewrite pick_shape, bool_decide_eq_true_2 by done.
    set (pre := defaults true [] [Some (options w); DEFAULT_HTTP_OPTIONS w] (heap w)) in *.
    set (n := length (write_all ws (snd pre))) in *.
    pose proof (lobj_alloc_shape n r k) as Hl.
    destruct (prop_lookup r k) as [[v|f|l]|]; [| | |done].
    + split; [done|]. intros Hv. rewrite (Hshape k Hsk). simpl.
      rewrite pick_shape, bool_decide_eq_true_2 by done. rewrite Hl.
      unfold defined_or. simpl. by destruct v.
    + destruct Hl as (i & Hi & Hf).
      pose proof (hooked_lookup_new ws r (snd pre) f i Hf) as Hm. fold n in Hm.
      pose proof (defaults_grows true
                    [Some (pick (fst (lobj_alloc n r)) allowed);
                     Some (options w); DEFAULT_HTTP_OPTIONS w] []
                    (hooked ws r (snd pre))) as Hg.
      destruct (Hg _ _ Hm) as (o & Ho & Hle).
      exists (n + i), o. split; [done|].
      split; [|split; [done | split; [by rewrite Hh | done]]].
      rewrite (Hshape k Hsk). simpl.
      rewrite pick_shape, bool_decide_eq_true_2 by done. by rewrite Hi.
    + split; [done|]. rewrite (Hshape k Hsk). simpl.
      rewrite pick_shape, bool_decide_eq_true_2 by done. by rewrite Hl.
  - intros L f k Hfu Hfo Hfd Hw HL Ef Hk. rewrite <- Hms in *. rewrite Hh.
    eapply merged_headers; try done.
    destruct u as [uo|]; [|done]. intros k' l Hin. apply (Hfu k' l).
    simpl. by apply oget_In.
Qed.

(** ** What the rest of the run leaves alone *)

Lemma defaultsDeep_keeps_options t srcs : respects (keeps options) (defaultsDeep t srcs).
Proof. unfold defaultsDeep. step_cases. Qed.

Lemma alloc_lobj_keeps_options o : respects (keeps options) (alloc_lobj o).
Proof. induction o as [|[k [v|f|l]] o IH]; simpl; step_cases. Qed.

Lemma strip_headers_keeps_options o : respects (keeps options) (strip_headers o).
Proof. unfold strip_headers. step_cases. Qed.

Lemma open_request_keeps_options url o j f b :
  respects (keeps options) (open_request url o j f b).
Proof. unfold open_request. step_cases. Qed.

Lemma call_hook_keeps_options f url m : respects (keeps options) (call_hook f url m).
Proof. hook_step. Qed.

#[local] Hint Resolve defaultsDeep_keeps_options alloc_lobj_keeps_options
  strip_headers_keeps_options open_request_keeps_options call_hook_keeps_options
  merge_options_grows open_request_grows : steps.

Lemma merge_options_keeps_options this url :
  respects (keeps options) (merge_options this url).
Proof. unfold merge_options. step_cases. Qed.

#[local] Hint Resolve merge_options_keeps_options : steps.

Lemma resolve_keeps_options this x url k : respects (keeps options) (resolve this x url k).
Proof. unfold resolve. step_cases. Qed.

Lemma resolve_grows this x url k :
  hook_only_adds this -> respects grows (resolve this x url k).
Proof. intros Hg. unfold resolve. step_cases. Qed.

Lemma exchange_keeps p net w1 :
  heap (snd (exchange p net w1)) = heap w1 /\
  options (snd (exchange p net w1)) = options w1.
Proof.
  destruct (transmit p w1) as [[u|e] w2] eqn:Et;
    pose proof (transmit_keeps_heap _ _ _ _ Et) as Hh;
    pose proof (transmit_keeps_options _ _ _ _ Et) as Ho; unfold keeps in *.
  2:{ by rewrite (exchange_unsent _ _ _ _ _ Et). }
  destruct (arrival net) as [status hdrs| |e] eqn:Ea.
  - destruct (stream_error net) as [e|] eqn:Es.
    + by rewrite (exchange_stream_failed _ _ _ _ _ _ _ _ Et Ea Es).
    + rewrite (exchange_collected _ _ _ _ _ _ _ Et Ea Es).
      destruct (drained_keeps p w2) as (_ & Hd1 & Hd2).
      destruct (chunks net); [|destruct (decode_mode _)]; simpl; split; congruence.
  - by rewrite (exchange_timed_out _ _ _ _ _ Et Ea).
  - by rewrite (exchange_errored _ _ _ _ _ _ Et Ea).
Qed.

(** After [prepare], nothing touches the store or the caller's options. *)
Lemma request_world this x net w :
  heap (snd (request this x net w)) = heap (snd (prepare this x w)) /\
  options (snd (request this x net w)) = options (snd (prepare this x w)).
Proof.
  destruct (prepare this x w) as [[p|e] w1] eqn:Ep.
  - rewrite (request_prepared _ _ _ _ _ _ Ep), on_finally_runs. cbv zeta.
    destruct (exchange_keeps p net w1) as (Hh & Ho).
    destruct (cacheable _); simpl; by rewrite ?Hh, ?Ho.
  - by rewrite (request_rejected _ _ _ _ _ _ Ep).
Qed.

(** ** Well-formed stores and options *)

Lemma well_keyed_insert h l o :
  well_keyed h -> unique_keys o -> well_keyed (<[l := o]> h).
Proof.
  intros Hw Hu l0 o0. destruct (decide (l0 = l)) as [->|Hne].
  - destruct (decide (l < length h)) as [Hlt|Hge].
    + rewrite list_lookup_insert_eq by done. by intros [= <-].
    + rewrite list_insert_ge by lia. apply Hw.
  - rewrite list_lookup_insert_ne by done. apply Hw.
Qed.

Lemma well_keyed_app h hs :
  well_keyed h -> Forall unique_keys hs -> well_keyed (h ++ hs).
Proof.
  intros Hw Hs l o Hl. apply lookup_app_Some in Hl as [Hl|[_ Hl]].
  - by apply (Hw l).
  - rewrite Forall_forall in Hs. apply Hs. by eapply list_elem_of_lookup_2.
Qed.

Lemma fill_well_keyed deep t h kv : well_keyed h -> well_keyed (snd (fill deep (t, h) kv)).
Proof.
  intros Hw. destruct kv as [k v]. unfold fill.
  destruct (skipped_key k); [done|]. cbn [snd].
  destruct deep; [|done].
  destruct (oget _ k) as [?|lt]; [done|]. destruct v as [?|ls]; [done|].
  destruct (h !! lt) as [ot|] eqn:Et; [|done].
  destruct (h !! ls) as [os|] eqn:Es; [|done].
  apply well_keyed_insert; [done|]. apply defaults_flat_unique. by apply (Hw lt).
Qed.

Lemma fill_fold_well_keyed deep s t h :
  well_keyed h -> well_keyed (snd (fold_left (fill deep) s (t, h))).
Proof.
  revert t h. induction s as [|kv s IH]; intros t h Hw; cbn [fold_left]; [done|].
  pose proof (fill_well_keyed deep t h kv Hw) as Hf.
  destruct (fill deep (t, h) kv) as [t1 h1]. by apply IH.
Qed.

Lemma defaults_well_keyed deep srcs t h :
  well_keyed h -> well_keyed (snd (defaults deep t srcs h)).
Proof.
  unfold defaults. revert t h.
  induction srcs as [|src srcs IH]; intros t h Hw; cbn [fold_left]; [done|].
  assert (well_keyed (snd (defaults_from deep (t, h) src))) as Hf.
  { destruct src as [s|]; [by apply fill_fold_well_keyed | done]. }
  destruct (defaults_from deep (t, h) src) as [t1 h1]. by apply IH.
Qed.

Lemma write_all_well_keyed ws h :
  well_keyed h -> Forall (fun wr => unique_keys (snd wr)) ws -> well_keyed (write_all ws h).
Proof.
  unfold write_all. intros Hw Hs. revert h Hw.
  induction Hs as [|wr ws Hu _ IH]; intros h Hw; cbn [fold_left]; [done|].
  apply IH. by apply well_keyed_insert.
Qed.

Lemma lobj_alloc_objects n r f :
  In f (snd (lobj_alloc n r)) -> exists k, In (k, LObj f) r.
Proof.
  revert n. induction r as [|[k [v|f0|l]] r IH]; intros n; cbn [lobj_alloc].
  - done.
  - specialize (IH n). destruct (lobj_alloc n r) as [o hs]. cbn [snd] in *.
    intros Hin. destruct (IH Hin) as [k' Hk']. exists k'. by right.
  - specialize (IH (S n)). destruct (lobj_alloc (S n) r) as [o hs]. cbn [snd] in *.
    intros [<-|Hin]; [exists k; by left|].
    destruct (IH Hin) as [k' Hk']. exists k'. by right.
  - specialize (IH n). destruct (lobj_alloc n r) as [o hs]. cbn [snd] in *.
    intros Hin. destruct (IH Hin) as [k' Hk']. exists k'. by right.
Qed.

Lemma hooked_well_keyed ws r h :
  tidy_answer ws r -> well_keyed h -> well_keyed (hooked ws r h).
Proof.
  intros [Hws Hr] Hw. unfold hooked. apply well_keyed_app.
  - by apply write_all_well_keyed.
  - apply Forall_forall. intros f Hf. apply list_elem_of_In in Hf.
    apply lobj_alloc_objects in Hf as [k Hk]. by destruct (Hr k _ Hk).
Qed.

Lemma prop_set_In {A} (o : list (string * A)) k v k' v' :
  In (k', v') (prop_set o k v) -> (k', v') = (k, v) \/ In (k', v') o.
Proof.
  induction o as [|[k0 v0] o IH]; simpl.
  - intros [<-|[]]. by left.
  - destruct (String.eqb_spec k k0) as [->|Hne]; simpl.
    + intros [<-|Hin]; [by left | right; by right].
    + intros [<-|Hin]; [right; by left|].
      destruct (IH Hin) as [?|?]; [by left | right; by right].
Qed.

(** Checks of well-formedness that compute. *)
Lemma well_keyed_check (h : store) :
  forallb (fun o => bool_decide (NoDup (map fst o))) h = true -> well_keyed h.
Proof.
  intros Hf l o Hl. rewrite forallb_forall in Hf.
  apply list_elem_of_lookup_2, list_elem_of_In in Hl.
  exact (bool_decide_eq_true_1 _ (Hf o Hl)).
Qed.

Lemma flat_check (o : oobj) :
  forallb (fun kv => match snd kv with
                     | ORef _ => String.eqb (fst kv) "headers"
                     | OVal _ => true
                     end) o = true ->
  flat o.
Proof.
  intros Hf k l Hin. rewrite forallb_forall in Hf.
  specialize (Hf _ Hin). by apply String.eqb_eq in Hf.
Qed.

Lemma pick_fold_In (object : oobj) paths acc k v :
  In (k, v)
    (fold_left (fun o p => if is_undefined (oget object p) then o
                           else prop_set o p (oget object p)) paths acc) ->
  In (k, v) acc \/ v = oget object k.
Proof.
  revert acc. induction paths as [|p paths IH]; intros acc; cbn [fold_left]; [by left|].
  intros Hin. apply IH in Hin as [Hin|Hin]; [|by right].
  destruct (is_undefined (oget object p)); [by left|].
  apply prop_set_In in Hin as [[= -> ->]|Hin]; [by right | by left].
Qed.

Lemma pick_flat ws r n :
  tidy_answer ws r -> flat (pick (fst (lobj_alloc n r)) allowed).
Proof.
  intros [_ Hr] k l Hin. unfold pick in Hin.
  apply pick_fold_In in Hin as [[]|Hl].
  pose proof (lobj_alloc_shape n r k) as Hs.
  destruct (prop_lookup r k) as [[v|f|l0]|] eqn:E.
  - congruence.
  - apply prop_lookup_In in E. by destruct (Hr k _ E).
  - apply prop_lookup_In in E. exact (Hr k _ E).
  - congruence.
Qed.

Lemma flat_delete o k : flat o -> flat (prop_delete o k).
Proof. intros Hf k' l Hin. apply prop_delete_In in Hin as [Hin _]. by apply (Hf k' l). Qed.

Lemma flat_set_headers o v : flat o -> flat (prop_set o "headers" v).
Proof.
  intros Hf k l Hin. apply prop_set_In in Hin as [[= -> _]|Hin]; [done|].
  by apply (Hf k l).
Qed.

(** ** Proof injection *)

Lemma parse_url_ok w url :
  URL_parse (OToString (oget (options w) "url")) = Some url ->
  http_protocol (protocol url) = true ->
  parse_url w =
    (Ok url,
     {| heap := heap w; DEFAULT_HTTP_OPTIONS := DEFAULT_HTTP_OPTIONS w;
        nonces := nonces w; trace := trace w;
        options := prop_delete (options w) "url" |}).
Proof. unfold parse_url, bind, read. intros -> E. simpl. by rewrite E. Qed.

Lemma assign_runs target k v w :
  assign target k v w =
    (Ok tt,
     match target with
     | ORef l =>
         match heap w !! l with
         | Some o =>
             {| heap := <[l := prop_set o k v]> (heap w);
                DEFAULT_HTTP_OPTIONS := DEFAULT_HTTP_OPTIONS w; nonces := nonces w;
                trace := trace w; options := options w |}
         | None => w
         end
     | OVal _ => w
     end).
Proof.
  unfold assign. destruct target as [?|l]; [done|].
  unfold bind, read, set_heap, ret. by destruct (heap w !! l).
Qed.

Lemma inject_proof_runs this x url key wa prove :
  otruthy (DPoP x) = true -> dpopProof this = Some prove ->
  inject_proof this x url key wa =
    let '(hs, payload, wb) := proof_request x url key wa in
    match prove payload (DPoP x) (accessToken x) with
    | Returns proof => assign hs "DPoP" proof wb
    | Throws e => (raise e, wb)
    end.
Proof.
  intros Hd Hp. unfold inject_proof, proof_request. rewrite Hd, Hp.
  unfold bind, read. simpl.
  destruct (otruthy (oget (options wa) "headers")) eqn:Eh; simpl;
    destruct (lru_get (nonces wa) key) as [n c'] eqn:El; simpl;
    unfold bind, emit, set_nonces; simpl;
    destruct (prove _ _ _); simpl; try done.
Qed.

Lemma inject_proof_skipped this x url key wa :
  otruthy (DPoP x) = false \/ dpopProof this = None ->
  inject_proof this x url key wa = (Ok tt, wa).
Proof.
  unfold inject_proof. intros [->| ->]; [done|]. by destruct (otruthy _).
Qed.

Lemma headers_ready_delete o h k :
  k <> "headers" -> headers_ready (prop_delete o k) h <-> headers_ready o h.
Proof. intros Hk. unfold headers_ready. by rewrite oget_delete_ne. Qed.

(** With the proof capability returning [proof], the caller's headers
    object (a new one, put on the caller's options, when there was none)
    holds it as [DPoP]. *)
Lemma inject_proof_writes this x url key wa prove proof :
  otruthy (DPoP x) = true -> dpopProof this = Some prove ->
  headers_ready (options wa) (heap wa) ->
  prove (snd (fst (proof_request x url key wa))) (DPoP x) (accessToken x) = Returns proof ->
  exists l o wb,
    inject_proof this x url key wa = (Ok tt, wb) /\
    oget (options wb) "headers" = ORef l /\
    (forall l', oget (options wa) "headers" = ORef l' -> l' = l) /\
    heap wb !! l = Some o /\ vget o "DPoP" = proof /\ unique_keys o /\
    trace wb = trace (snd (proof_request x url key wa)) /\
    nonces wb = nonces (snd (proof_request x url key wa)) /\
    (forall k, k <> "headers" -> oget (options wb) k = oget (options wa) k) /\
    options wb = prop_set (options wa) "headers" (ORef l) /\
    DEFAULT_HTTP_OPTIONS wb = DEFAULT_HTTP_OPTIONS wa /\
    (well_keyed (heap wa) -> well_keyed (heap wb)).
Proof.
  intros Hd Hp Hr Hprove.
  rewrite (inject_proof_runs _ _ _ _ _ _ Hd Hp).
  unfold proof_request in *. simpl in Hprove. rewrite Hprove. clear Hprove.
  rewrite assign_runs. unfold headers_ready in Hr.
  destruct (oget (options wa) "headers") as [v|l] eqn:Eh; simpl.
  - rewrite Hr. simpl.
    rewrite lookup_app_r by lia. rewrite Nat.sub_diag. simpl.
    eexists _, _, _. split; [reflexivity|]. simpl.
    rewrite oget_set_eq. split; [done|]. split; [done|]. split.
    { rewrite list_lookup_insert_eq; [done|]. rewrite length_app. simpl. lia. }
    split; [done|]. split; [apply NoDup_singleton|].
    split; [done|]. split; [done|].
    split; [intros k Hk; by apply oget_set_ne|].
    split; [done|]. split; [done|].
    intros Hw. apply well_keyed_insert; [|apply NoDup_singleton].
    apply well_keyed_app; [done|]. repeat constructor.
  - destruct Hr as (hs & Hl & Hu). rewrite Hl.
    eexists _, _, _. split; [reflexivity|]. simpl.
    rewrite oget_set_eq. split; [done|]. split; [by intros l' [= ->]|]. split.
    { rewrite list_lookup_insert_eq; [done|]. by eapply lookup_lt_Some. }
    split; [apply vget_set_eq|]. split; [by apply prop_set_unique|].
    split; [done|]. split; [done|].
    split; [intros k Hk; by apply oget_set_ne|].
    split; [done|]. split; [done|].
    intros Hw. apply well_keyed_insert; [done | by apply prop_set_unique].
Qed.

Lemma resolve_inv this x url key wb p w1 :
  resolve this x url key wb = (Ok p, w1) ->
  exists opts wc wd,
    merge_options this url wb = (Ok opts, wc) /\
    lacks_mTLS_material x opts = false /\
    strip_headers (rest_of opts) wc = (Ok tt, wd) /\
    open_request (merge_search (heap wc) url opts) (rest_of opts)
      (oget opts "json") (oget opts "form") (oget opts "body") wd = (Ok (p_req p), w1) /\
    p_opts p = rest_of opts /\ p_url p = merge_search (heap wc) url opts /\
    p_json p = oget opts "json" /\ p_form p = oget opts "form" /\
    p_body p = oget opts "body".
Proof.
  unfold resolve. intros E.
  inv_bind E. inv_bind E. inv_bind E. inv_bind E. inv_bind E.
  injection E as <- <-.
  repeat match goal with
         | Hr : read _ _ = _ |- _ => injection Hr as <- <-
         | Hm : (if ?b then _ else _) _ = _ |- _ =>
             destruct b eqn:?; [discriminate|]; injection Hm as <- <-
         | u : unit |- _ => destruct u
         end.
  eexists _, _, _. simpl. repeat split; eauto.
Qed.

Lemma oget_rest_of opts k :
  k <> "form" -> k <> "responseType" -> k <> "json" -> k <> "body" ->
  oget (rest_of opts) k = oget opts k.
Proof.
  intros. unfold rest_of. by rewrite !oget_delete_ne.
Qed.

Lemma strip_headers_runs opts w :
  strip_headers opts w =
    (Ok tt,
     match oget opts "headers" with
     | ORef l =>
         match heap w !! l with
         | Some o =>
             {| heap := <[l := drop_undefined o]> (heap w);
                DEFAULT_HTTP_OPTIONS := DEFAULT_HTTP_OPTIONS w; nonces := nonces w;
                trace := trace w; options := options w |}
         | None => w
         end
     | OVal _ => w
     end).
Proof.
  unfold strip_headers. destruct (oget opts "headers") as [?|l]; [done|].
  unfold bind, read, set_heap, ret. by destruct (heap w !! l).
Qed.

Lemma Object_assign_other (t s : obj) k :
  prop_lookup s k = None -> vget (Object_assign t (Some s)) k = vget t k.
Proof.
  simpl. revert t. induction s as [|[k0 v0] s IH]; intros t; simpl; [done|].
  destruct (String.eqb_spec k k0) as [->|Hne]; [discriminate|].
  intros Hl. rewrite IH by done. apply vget_set_ne. congruence.
Qed.

Lemma Object_assign_copies (t s : obj) k v :
  unique_keys s -> prop_lookup s k = Some v -> vget (Object_assign t (Some s)) k = v.
Proof.
  unfold unique_keys. simpl. revert t.
  induction s as [|[k0 v0] s IH]; intros t Hu; simpl; [done|].
  apply NoDup_cons in Hu as [Hnin Hu].
  destruct (String.eqb_spec k k0) as [->|Hne].
  - intros [= ->].
    pose proof (Object_assign_other (prop_set t k0 v) s k0) as Ho. simpl in Ho.
    rewrite Ho; [apply vget_set_eq|].
    apply prop_lookup_None. intros Hin. apply Hnin. by apply list_elem_of_In.
  - intros Hl. by apply IH.
Qed.

Lemma http2_headers_other url hdrs j f b k :
  k <> ":method" -> k <> "content-type" -> k <> "content-length" ->
  vget (http2_headers url hdrs j f b) k
  = vget (Object_assign [(":path", VStr (pathname url))] hdrs) k.
Proof.
  intros H1 H2 H3. unfold http2_headers.
  destruct (otruthy j); [by rewrite !vget_set_ne|].
  destruct (otruthy f); [by rewrite !vget_set_ne|].
  destruct (otruthy b); [by rewrite !vget_set_ne | done].
Qed.

Lemma vget_defined_lookup (o : obj) k :
  is_undef (vget o k) = false -> prop_lookup o k = Some (vget o k).
Proof. unfold vget. by destruct (prop_lookup o k). Qed.

(** Whatever [resolve] then does, a defined [DPoP] header stays in the
    caller's headers object, unless the hook takes it away. *)
Lemma resolve_keeps_proof this x url key wb r w' l o :
  hook_only_adds this ->
  oget (options wb) "headers" = ORef l -> heap wb !! l = Some o ->
  unique_keys o -> is_undef (vget o "DPoP") = false ->
  resolve this x url key wb = (r, w') ->
  oget (options w') "headers" = ORef l /\
  exists o', heap w' !! l = Some o' /\ unique_keys o' /\ vget o' "DPoP" = vget o "DPoP".
Proof.
  intros Hadds Ho Hl Hu Hd E.
  pose proof (resolve_keeps_options _ _ _ _ _ _ _ E) as Hk. unfold keeps in Hk.
  pose proof (resolve_grows _ _ _ _ Hadds _ _ _ E) as Hg.
  destruct (Hg _ _ Hl) as (o' & Hl' & Hle). destruct (Hle Hu) as (Hu' & Hd').
  split; [by rewrite Hk|]. exists o'. auto.
Qed.

(** A value the hook contributes for a key is the merged one. *)
Lemma merged_from_hook u o d hm k :
  skipped_key k = false -> is_undefined (source_get u k) = false ->
  oget (fst (defaults true [] [u; Some o; d] hm)) k = source_get u k.
Proof.
  intros Hk Hd. destruct u as [s|]; [|done]. cbn [source_get] in *.
  rewrite !defaults_cons, defaults_nil. cbn [fst].
  assert (oget (fst (defaults_from true ([], hm) (Some s))) k = oget s k) as H1.
  { cbn [defaults_from]. by apply fill_fold_first. }
  destruct (defaults_from true ([], hm) (Some s)) as [t1 h1]. cbn [fst snd] in *.
  assert (oget (fst (defaults_from true (t1, h1) (Some o))) k = oget s k) as H2.
  { rewrite defaults_from_keep; by rewrite ?H1. }
  destruct (defaults_from true (t1, h1) (Some o)) as [t2 h2]. cbn [fst snd] in *.
  rewrite defaults_from_keep; by rewrite ?H2.
Qed.

(** The options shown to the hook refer to the caller's header map. *)
Lemma premerged_headers o d h l :
  oget o "headers" = ORef l ->
  oget (fst (defaults true [] [Some o; d] h)) "headers" = ORef l.
Proof.
  intros Ho. rewrite !defaults_cons, defaults_nil. cbn [fst].
  assert (oget (fst (defaults_from true ([], h) (Some o))) "headers" = ORef l) as H1.
  { cbn [defaults_from]. rewrite fill_fold_first; by rewrite ?Ho. }
  destruct (defaults_from true ([], h) (Some o)) as [t1 h1]. cbn [fst snd] in *.
  rewrite defaults_from_keep; by rewrite ?H1.
Qed.

Lemma wire_headers_app pre post :
  wire_headers (pre ++ post) = fold_left wire_headers_step post (wire_headers pre).
Proof. unfold wire_headers. apply fold_left_app. Qed.

(** The request is created with the header map of the merged options,
    a defined [DPoP] entry included. *)
Lemma resolve_wire this x url key wb p w1 opts wc L oc :
  resolve this x url key wb = (Ok p, w1) ->
  merge_options this url wb = (Ok opts, wc) ->
  oget opts "headers" = ORef L -> heap wc !! L = Some oc -> unique_keys oc ->
  is_undef (vget oc "DPoP") = false ->
  vget (wire_headers (calls wb w1)) "DPoP" = vget oc "DPoP".
Proof.
  intros E Em HL Hc Huc Hd.
  apply resolve_inv in E as (opts' & wc' & wd & Em' & _ & Es & Eo & _).
  rewrite Em in Em'. injection Em' as <- <-.
  destruct (merge_options_extends _ _ _ _ _ Em) as [evs Htr].
  assert (oget (rest_of opts) "headers" = ORef L) as Hh by (by rewrite oget_rest_of).
  rewrite strip_headers_runs, Hh in Es. cbv iota beta in Es. rewrite Hc in Es.
  injection Es as <-.
  rewrite open_request_runs in Eo. simpl in Eo.
  assert (plain (<[L:=drop_undefined oc]> (heap wc)) (oget (rest_of opts) "headers")
          = Some (drop_undefined oc)) as Hplain.
  { rewrite Hh. simpl. apply list_lookup_insert_eq. by eapply lookup_lt_Some. }
  rewrite Hplain in Eo.
  assert (vget (drop_undefined oc) "DPoP" = vget oc "DPoP") as Hfinal
    by (by apply drop_undefined_defined).
  unfold calls.
  destruct (otruthy (oget (rest_of opts) "http2")); injection Eo as _ <-; simpl;
    rewrite Htr, <- app_assoc, drop_app_length, wire_headers_app; simpl; [|done].
  rewrite http2_headers_other by done.
  apply Object_assign_copies; [by apply drop_undefined_unique|].
  rewrite <- Hfinal. apply vget_defined_lookup. by rewrite Hfinal.
Qed.

(** When the hook leaves the header map alone, the merged options refer
    to the caller's header map. *)
Lemma merge_keeps_header_map this url wb opts wc l :
  hook_keeps_header_map this ->
  oget (options wb) "headers" = ORef l ->
  merge_options this url wb = (Ok opts, wc) ->
  oget opts "headers" = ORef l.
Proof.
  intros Hkeeps Ho Em.
  apply merge_options_inv in Em as (u & hm & -> & _ & _ & _ & _ & Hhook).
  unfold hook_keeps_header_map in Hkeeps.
  destruct (HTTP_OPTIONS this) as [optsFn|].
  2:{ destruct Hhook as (-> & _). rewrite merged_from_caller; try done. by rewrite Ho. }
  destruct Hhook as (ws & r & Hr & -> & _).
  specialize (Hkeeps _ _ _ _ _ Hr).
  set (n := length _) in *.
  pose proof (lobj_alloc_shape n r "headers") as Hs.
  assert (source_get (Some (pick (fst (lobj_alloc n r)) allowed)) "headers"
          = oget (fst (lobj_alloc n r)) "headers") as Hpick
    by (cbn [source_get]; by rewrite pick_shape).
  destruct (prop_lookup r "headers") as [[v|f|l0]|]; [| done | |].
  - destruct Hkeeps as [->|Hv]; [|by rewrite (premerged_headers _ _ _ l Ho) in Hv].
    rewrite merged_from_caller; try done; [apply pick_unique | congruence | by rewrite Ho].
  - rewrite (premerged_headers _ _ _ l Ho) in Hkeeps. injection Hkeeps as <-.
    rewrite merged_from_hook; [congruence | done | by rewrite Hpick, Hs].
  - rewrite merged_from_caller; try done; [apply pick_unique | congruence | by rewrite Ho].
Qed.

Lemma write_all_length ws h : length (write_all ws h) = length h.
Proof.
  unfold write_all. revert h.
  induction ws as [|wr ws IH]; intros h; cbn [fold_left]; [done|].
  by rewrite IH, length_insert.
Qed.

(** When the hook returns a header map that it made, the merged options
    refer to that new object. *)
Lemma merge_takes_new_headers this url wb opts wc :
  hook_makes_headers this ->
  merge_options this url wb = (Ok opts, wc) ->
  exists l, oget opts "headers" = ORef l /\ length (heap wb) <= l.
Proof.
  intros Hmakes Em.
  apply merge_options_inv in Em as (u & hm & -> & _ & _ & _ & _ & Hhook).
  unfold hook_makes_headers in Hmakes.
  destruct (HTTP_OPTIONS this) as [optsFn|]; [|done].
  destruct Hhook as (ws & r & Hr & -> & _).
  specialize (Hmakes _ _ _ _ _ Hr).
  set (pre := defaults true [] [Some (options wb); DEFAULT_HTTP_OPTIONS wb] (heap wb)) in *.
  set (n := length (write_all ws (snd pre))) in *.
  pose proof (lobj_alloc_shape n r "headers") as Hs.
  destruct (prop_lookup r "headers") as [[v|f|l0]|]; try done.
  destruct Hs as (i & Hi & _).
  exists (n + i). split.
  - rewrite merged_from_hook; cbn [source_get]; rewrite ?pick_shape; by rewrite ?Hi.
  - assert (length (heap wb) <= n); [|lia].
    subst n. rewrite write_all_length.
    destruct (decide (length (heap wb) <= length (snd pre))) as [|Hgt]; [done|].
    destruct (lookup_lt_is_Some_2 (heap wb) (length (snd pre))) as [o Ho]; [lia|].
    destruct (defaults_grows true [Some (options wb); DEFAULT_HTTP_OPTIONS wb] []
                (heap wb) _ _ Ho) as (o' & Ho' & _).
    fold pre in Ho'. apply lookup_lt_Some in Ho'. lia.
Qed.

(** When the hook leaves the header map alone, the request is created
    with the caller's header map, the proof in it. *)
Lemma resolve_dispatches_proof this x url key wb p w1 l o :
  hook_only_adds this -> hook_keeps_header_map this ->
  oget (options wb) "headers" = ORef l -> heap wb !! l = Some o ->
  unique_keys o -> is_undef (vget o "DPoP") = false ->
  resolve this x url key wb = (Ok p, w1) ->
  vget (wire_headers (calls wb w1)) "DPoP" = vget o "DPoP".
Proof.
  intros Hadds Hkeeps Ho Hl Hu Hd E.
  pose proof E as E'.
  apply resolve_inv in E' as (opts & wc & wd & Em & _).
  pose proof (merge_options_grows _ _ Hadds _ _ _ Em) as Hg.
  destruct (Hg _ _ Hl) as (oc & Hc & Hle). destruct (Hle Hu) as (Huc & Hdc).
  rewrite <- (Hdc "DPoP" Hd).
  eapply resolve_wire; try done; [|by rewrite Hdc].
  by eapply merge_keeps_header_map.
Qed.

Lemma heap_le_app h hs : heap_le h (h ++ hs).
Proof.
  intros l o E. exists o. split; [by apply lookup_app_l_Some | apply obj_le_refl].
Qed.

(** When the hook supplies a header map of its own that has no [DPoP]
    entry, the request is created with that map, which the merge has
    filled in with the proof from the caller's header map. *)
Lemma resolve_dispatches_filled this x url key wb p w1 l o :
  hook_only_adds this -> hook_makes_headers_without this "DPoP" -> tidy_hook this ->
  well_keyed (heap wb) -> unique_keys (options wb) -> flat (options wb) ->
  unique_source (DEFAULT_HTTP_OPTIONS wb) -> flat_source (DEFAULT_HTTP_OPTIONS wb) ->
  oget (options wb) "headers" = ORef l -> heap wb !! l = Some o ->
  unique_keys o -> is_undef (vget o "DPoP") = false ->
  resolve this x url key wb = (Ok p, w1) ->
  vget (wire_headers (calls wb w1)) "DPoP" = vget o "DPoP".
Proof.
  intros Hadds Hmakes Htidy Hw Huo Hfo Hud Hfd Ho Hl Hu Hd E.
  pose proof E as E'. apply resolve_inv in E' as (opts & wc & wd & Em & _).
  pose proof Em as Em'.
  apply merge_options_inv in Em' as (u & hm & Hopts & Hheap & _ & _ & _ & Hhook).
  unfold hook_makes_headers_without, hook_only_adds, tidy_hook in *.
  destruct (HTTP_OPTIONS this) as [optsFn|]; [|done].
  destruct Hhook as (ws & r & Hr & -> & -> & _).
  specialize (Hmakes _ _ _ _ _ Hr). specialize (Hadds _ _ _ _ _ Hr).
  specialize (Htidy _ _ _ _ _ Hr).
  set (pre := defaults true [] [Some (options wb); DEFAULT_HTTP_OPTIONS wb] (heap wb)) in *.
  set (n := length (write_all ws (snd pre))) in *.
  pose proof (lobj_alloc_shape n r "headers") as Hs.
  destruct (prop_lookup r "headers") as [[v|f|l0]|]; try done.
  destruct Hs as (i & Hi & Hf).
  pose proof (hooked_lookup_new ws r (snd pre) f i Hf) as Hm. fold n in Hm.
  set (hm := hooked ws r (snd pre)) in *.
  set (u := pick (fst (lobj_alloc n r)) allowed) in *.
  assert (oget u "headers" = ORef (n + i)) as Hu_hd by (subst u; by rewrite pick_shape).
  assert (oget opts "headers" = ORef (n + i)) as HL.
  { rewrite Hopts, merged_from_hook; cbn [source_get]; by rewrite ?Hu_hd. }
  assert (well_keyed hm) as Hwm.
  { apply hooked_well_keyed; [done|]. by apply defaults_well_keyed. }
  assert (heap_le (heap wb) hm) as Hle.
  { apply (heap_le_trans _ (snd pre)); [apply defaults_grows|].
    eapply heap_le_trans; [exact Hadds | apply heap_le_app]. }
  destruct (Hle _ _ Hl) as (o1 & Hl1 & Hle1). destruct (Hle1 Hu) as (Hu1 & Hd1).
  assert (header_of (heap wc) (ORef (n + i)) "DPoP" = vget o "DPoP") as HM.
  { rewrite Hheap.
    rewrite (merged_headers (Some u) (options wb) (DEFAULT_HTTP_OPTIONS wb) hm (n + i) f);
      try done.
    - cbn [source_get]. rewrite Hu_hd, Ho. cbn [header_of]. rewrite Hm, Hl1, Hmakes.
      rewrite (Hd1 "DPoP" Hd). unfold vdefined_or. cbn [is_undef]. by rewrite Hd.
    - apply pick_unique.
    - by eapply pick_flat.
    - by rewrite <- Hopts. }
  cbn [header_of] in HM.
  destruct (heap wc !! (n + i)) as [oc|] eqn:Ec; [|by rewrite <- HM in Hd].
  rewrite <- HM. eapply resolve_wire; try done; [|by rewrite HM].
  assert (well_keyed (heap wc)) as Hwc by (rewrite Hheap; by apply defaults_well_keyed).
  by apply (Hwc (n + i)).
Qed.

Lemma exchange_extends p net w1 : extends w1 (snd (exchange p net w1)).
Proof.
  destruct (transmit p w1) as [[u|e] w2] eqn:Et;
    pose proof (transmit_extends _ _ _ _ Et) as Hx.
  - destruct (exchange_trace p net _ _ _ Et) as (post & Hpost & _).
    etransitivity; [exact Hx|]. by exists post.
  - by rewrite (exchange_unsent _ _ _ _ _ Et).
Qed.

(** The host calls of [request] start with those of [prepare]. *)
Lemma request_extends_prepare this x net w :
  extends (snd (prepare this x w)) (snd (request this x net w)).
Proof.
  destruct (prepare this x w) as [[p|e] w1] eqn:Ep.
  - destruct (exchange_extends p net w1) as [evs Hevs].
    exists evs. by rewrite (request_trace _ _ _ _ _ _ Ep).
  - rewrite (request_rejected _ _ _ _ _ _ Ep). reflexivity.
Qed.


Lemma proof_request_payload x url key wa :
  snd (fst (proof_request x url key wa)) =
    {| htu := (origin url ++ pathname url)%string;
       htm := oget (options wa) "method";
       nonce := lru_peek (nonces wa) key |}.
Proof.
  unfold proof_request. simpl. rewrite oget_set_ne by done. by rewrite lru_get_peek.
Qed.

Lemma inject_proof_trace this x url key wa prove :
  otruthy (DPoP x) = true -> dpopProof this = Some prove ->
  trace (snd (inject_proof this x url key wa)) =
    trace wa ++ [EvDpopProof (snd (fst (proof_request x url key wa)))
                   (DPoP x) (accessToken x)].
Proof.
  intros Hd Hp. rewrite (inject_proof_runs _ _ _ _ _ _ Hd Hp).
  unfold proof_request. cbv zeta.
  destruct (prove _ _ _) as [proof|e]; [|done].
  rewrite assign_runs. cbn [snd fst].
  match goal with |- context [if ?b then ORef _ else _] => destruct b end.
  - cbn [heap]. by destruct (_ !! _).
  - destruct (oget (options wa) "headers"); [done|]. cbn [heap]. by destruct (_ !! _).
Qed.

Lemma calls_app (w w' : World) evs :
  trace w' = trace w ++ evs -> calls w w' = evs.
Proof. unfold calls. intros ->. apply drop_app_length. Qed.


(** ** Writes to the caller's objects *)

(** Proof injection changes no property of the caller's options but
    [headers]. *)
Lemma inject_proof_frame this x url key wa k :
  k <> "headers" ->
  prop_lookup (options (snd (inject_proof this x url key wa))) k
  = prop_lookup (options wa) k.
Proof.
  intros Hk.
  destruct (otruthy (DPoP x)) eqn:Hd;
    [|by rewrite inject_proof_skipped by (by left)].
  destruct (dpopProof this) as [prove|] eqn:Hp;
    [|by rewrite inject_proof_skipped by (by right)].
  rewrite (inject_proof_runs _ _ _ _ _ _ Hd Hp).
  unfold proof_request. cbv zeta.
  destruct (prove _ _ _) as [proof|e]; cbn [snd options].
  - rewrite assign_runs. cbn [snd].
    assert (forall hs (wb : World),
              options (match hs with
                       | ORef l => match heap wb !! l with
                                   | Some o =>
                                       {| heap := <[l:=prop_set o "DPoP" proof]> (heap wb);
                                          DEFAULT_HTTP_OPTIONS := DEFAULT_HTTP_OPTIONS wb;
                                          nonces := nonces wb; trace := trace wb;
                                          options := options wb |}
                                   | None => wb
                                   end
                       | OVal _ => wb
                       end) = options wb) as Ho.
    { intros [?|l] wb; [done|]. by destruct (heap wb !! l). }
    rewrite Ho. cbn [options]. apply prop_lookup_set_ne. congruence.
  - apply prop_lookup_set_ne. congruence.
Qed.

Lemma prepare_options this x w :
  match URL_parse (OToString (oget (options w) "url")) with
  | None => options (snd (prepare this x w)) = options w
  | Some url =>
      forall k, k <> "headers" ->
        prop_lookup (options (snd (prepare this x w))) k
        = prop_lookup (prop_delete (options w) "url") k
  end.
Proof.
  destruct (URL_parse _) as [url|] eqn:Hparse.
  - intros k Hk. destruct (http_protocol (protocol url)) eqn:Hproto.
    + pose proof (parse_url_ok w url Hparse Hproto) as Epu.
      unfold prepare. rewrite (bind_ok _ _ _ _ _ Epu). unfold bind.
      pose proof (inject_proof_frame this x url (origin url ++ pathname url)%string
                    {| heap := heap w; DEFAULT_HTTP_OPTIONS := DEFAULT_HTTP_OPTIONS w;
                       nonces := nonces w; trace := trace w;
                       options := prop_delete (options w) "url" |} k Hk) as Hf.
      destruct (inject_proof _ _ _ _ _) as [[u|e] wb]; cbn [snd options] in *; [|done].
      destruct (resolve this x url _ wb) as [r w1] eqn:Er.
      pose proof (resolve_keeps_options _ _ _ _ _ _ _ Er) as Hko. unfold keeps in Hko.
      cbn [snd]. by rewrite Hko.
    + unfold prepare, parse_url, bind, read. rewrite Hparse. simpl. by rewrite Hproto.
  - unfold prepare, parse_url, bind, read. by rewrite Hparse.
Qed.

(** The header clean-up leaves no [undefined] entry in the header map of
    the merged options. *)
Lemma prepare_cleans_headers this x w p w1 l o :
  prepare this x w = (Ok p, w1) ->
  oget (p_opts p) "headers" = ORef l -> heap w1 !! l = Some o ->
  forall k v, In (k, v) o -> is_undef v = false.
Proof.
  intros Ep Hh Hl k v Hin.
  apply prepare_inv in Ep as (url & wa & wb & opts & wc & wd & _ & _ & _ & _ & Es & Eo & Hp).
  rewrite Hp in Hh. cbn [p_opts] in Hh.
  rewrite strip_headers_runs, Hh in Es. cbv iota beta in Es.
  rewrite open_request_runs in Eo.
  assert (heap w1 = heap wd) as Hw1.
  { destruct (otruthy _); by injection Eo as _ <-. }
  rewrite Hw1 in Hl.
  destruct (heap wc !! l) as [oc|] eqn:Ec; injection Es as <-.
  - cbn [heap] in Hl.
    rewrite list_lookup_insert_eq in Hl by (by eapply lookup_lt_Some).
    injection Hl as <-. by eapply drop_undefined_clean.
  - congruence.
Qed.

(** Proof injection leaves the caller's [headers] option absent or a
    plain object. *)
Lemma inject_proof_ready this x url key wa wb :
  headers_ready (options wa) (heap wa) ->
  inject_proof this x url key wa = (Ok tt, wb) ->
  headers_ready (options wb) (heap wb).
Proof.
  intros Hr Ei.
  destruct (otruthy (DPoP x)) eqn:Hd;
    [|rewrite inject_proof_skipped in Ei by (by left); by injection Ei as <-].
  destruct (dpopProof this) as [prove|] eqn:Hp;
    [|rewrite inject_proof_skipped in Ei by (by right); by injection Ei as <-].
  destruct (prove (snd (fst (proof_request x url key wa))) (DPoP x) (accessToken x))
    as [proof|e] eqn:Hproof.
  - destruct (inject_proof_writes _ _ _ _ _ _ _ Hd Hp Hr Hproof)
      as (l & o & wb' & Ei' & Hh & _ & Hl & _ & Hu & _).
    rewrite Ei in Ei'. injection Ei' as <-.
    unfold headers_ready. rewrite Hh. by exists o.
  - rewrite (inject_proof_runs _ _ _ _ _ _ Hd Hp) in Ei.
    destruct (proof_request x url key wa) as [[hs payload] wb0].
    cbn [fst snd] in Hproof. by rewrite Hproof in Ei.
Qed.

(** When the hook leaves the header map alone, the merged options refer
    to the caller's headers object. *)
Lemma prepare_shares_headers this x w p w1 l :
  prepare this x w = (Ok p, w1) ->
  hook_keeps_header_map this ->
  oget (options w1) "headers" = ORef l ->
  oget (p_opts p) "headers" = ORef l.
Proof.
  intros Ep Hhook Hh.
  apply prepare_inv in Ep as (url & wa & wb & opts & wc & wd & _ & _ & Em & _ & Es & Eo & ->).
  cbn [p_opts].
  apply strip_headers_keeps_options in Es. apply open_request_keeps_options in Eo.
  pose proof (merge_options_keeps_options _ _ _ _ _ Em) as Hk.
  unfold keeps in *. rewrite Eo, Es, Hk in Hh.
  rewrite oget_rest_of by done. by eapply merge_keeps_header_map.
Qed.

(** When the hook returns a header map that it made, the merged options
    refer to that map, an object other than the caller's. *)
Lemma prepare_own_headers this x w p w1 l :
  prepare this x w = (Ok p, w1) ->
  hook_makes_headers this ->
  headers_ready (options w) (heap w) ->
  oget (options w1) "headers" = ORef l ->
  exists l', oget (p_opts p) "headers" = ORef l' /\ l' <> l.
Proof.
  intros Ep Hhook Hr Hh.
  apply prepare_inv in Ep as (url & wa & wb & opts & wc & wd & Eu & Ei & Em & _ & Es & Eo & ->).
  cbn [p_opts].
  apply strip_headers_keeps_options in Es. apply open_request_keeps_options in Eo.
  pose proof (merge_options_keeps_options _ _ _ _ _ Em) as Hk.
  unfold keeps in *. rewrite Eo, Es, Hk in Hh.
  assert (headers_ready (options wa) (heap wa)) as Hra.
  { unfold parse_url, bind, read in Eu.
    destruct (URL_parse _) as [url'|]; [|discriminate]. simpl in Eu.
    destruct (http_protocol _); [|discriminate].
    injection Eu as _ <-. simpl. by apply headers_ready_delete. }
  pose proof (inject_proof_ready _ _ _ _ _ _ Hra Ei) as Hrb.
  unfold headers_ready in Hrb. rewrite Hh in Hrb. destruct Hrb as (hs & Hl & _).
  destruct (merge_takes_new_headers _ _ _ _ _ Hhook Em) as (l' & Hl' & Hge).
  exists l'. split; [by rewrite oget_rest_of|].
  apply lookup_lt_Some in Hl. lia.
Qed.


End Properties.

(** * Further properties of the code *)

Section More.
Context `{Host}.

#[local] Existing Instance extends_preorder.
#[local] Existing Instance keeps_preorder.
#[local] Existing Instance quiet_preorder.

#[local] Instance emits_preorder (P : event -> bool) : PreOrder (emits P).
Proof.
  split.
  - intros w. exists []. split; [by rewrite app_nil_r | constructor].
  - intros w1 w2 w3 (e1 & E1 & F1) (e2 & E2 & F2). exists (e1 ++ e2).
    split; [by rewrite E2, E1, app_assoc | by apply Forall_app].
Qed.

#[local] Instance keeps_cache_ok_preorder : PreOrder keeps_cache_ok.
Proof.
  split; [intros w Hc; exact Hc | intros w1 w2 w3 H1 H2 Hc; exact (H2 (H1 Hc))].
Qed.

(** A primitive step changes one component of the world. *)
Ltac primitive :=
  let E := fresh in
  intros ? ? ? E;
  unfold emit, set_heap, set_nonces, set_options, set_defaults, alloc in E;
  injection E as <- <-;
  first [ reflexivity
        | by (eexists; simpl; reflexivity)
        | by (exists []; simpl; rewrite app_nil_r)
        | by (eexists; split; [simpl; reflexivity | repeat constructor])
        | by (exists []; split; [simpl; by rewrite app_nil_r | constructor]) ].

Create HintDb stepwise.

Ltac by_steps :=
  repeat first
    [ solve [auto with stepwise nocore]
    | apply respects_ret; typeclasses eauto
    | apply respects_throw; typeclasses eauto
    | apply respects_read; typeclasses eauto
    | apply respects_lift; typeclasses eauto
    | apply respects_bind; [typeclasses eauto | | intros ?]
    | match goal with
      | |- respects _ (match ?x with _ => _ end) => destruct x eqn:?
      | |- respects _ (let (_, _) := ?x in _) => destruct x eqn:?
      end
    | primitive ].

Lemma calls_self (w : World) : calls w w = [].
Proof. unfold calls. by rewrite drop_all. Qed.

(** ** [send] *)

Lemma send_runs req body ct w :
  exists r evs,
    send req body ct w =
      (r, {| heap := heap w; DEFAULT_HTTP_OPTIONS := DEFAULT_HTTP_OPTIONS w;
             nonces := nonces w; trace := trace w ++ evs; options := options w |}) /\
    match req, otruthy body, ct with
    | ClientHttp2Stream, true, _ =>
        r = Ok tt /\ evs = [EvWrite (Buffer_from body); EvEnd]
    | ClientHttp2Stream, false, Some _ =>
        r = raise (TypeError "req.removeHeader is not a function") /\ evs = []
    | ClientHttp2Stream, false, None => r = Ok tt /\ evs = [EvEnd]
    | ClientRequest, b, _ =>
        r = Ok tt /\
        evs = match ct with
              | Some s => [EvRemoveHeader "content-type"; EvSetHeader "content-type" (VStr s)]
              | None => []
              end ++
              (if b then [EvRemoveHeader "content-length";
                          EvSetHeader "content-length" (VNum (Buffer_byteLength body));
                          EvWrite (Buffer_from body)]
               else []) ++ [EvEnd]
    end.
Proof.
  unfold send. destruct w as [h d c t o].
  destruct req, (otruthy body), ct as [s|];
    eexists _, _; (split; [|split; reflexivity]);
    unfold bind, emit, ret, throw, raise;
    cbn [fst snd heap nonces trace options DEFAULT_HTTP_OPTIONS];
    rewrite <- ?app_assoc, ?app_nil_r; reflexivity.
Qed.

Lemma send_calls req body ct w r evs :
  send req body ct w =
    (r, {| heap := heap w; DEFAULT_HTTP_OPTIONS := DEFAULT_HTTP_OPTIONS w;
           nonces := nonces w; trace := trace w ++ evs; options := options w |}) ->
  fst (send req body ct w) = r /\ calls w (snd (send req body ct w)) = evs.
Proof. intros ->. split; [done|]. by apply calls_app. Qed.

(** X1: [send], given a body that is a string or a buffer when it is
    truthy, and a content type that is a non-empty string when there is
    one, fails in one case only: on an http2 stream given a content type
    and no body, where it calls [removeHeader], which a stream does not
    have; nothing has been written then.  In every other case it returns
    after ending the request exactly once, as its last call; it writes
    the body, once, when the body is truthy and nothing otherwise; on an
    http request it sets [content-length] to the byte length of the body
    it writes and [content-type] to the type it is given, whatever the
    headers were; on an http2 stream it sets no header at all. *)
Theorem send_writes_then_ends req body ct w :
  ct <> Some "" ->
  (otruthy body = true -> is_data body = true) ->
  let r := fst (send req body ct w) in
  let evs := calls w (snd (send req body ct w)) in
  (req = ClientHttp2Stream /\ otruthy body = false /\ ct <> None ->
     r = raise (TypeError "req.removeHeader is not a function") /\ evs = []) /\
  (~ (req = ClientHttp2Stream /\ otruthy body = false /\ ct <> None) ->
     r = Ok tt /\
     wire_body evs = (if otruthy body then Buffer_from body else []) /\
     (exists pre, evs = pre ++ [EvEnd] /\ ~ In EvEnd pre) /\
     (req = ClientRequest -> otruthy body = true -> forall hs,
        vget (fold_left wire_headers_step evs hs) "content-length"
        = VNum (Buffer_byteLength body)) /\
     (req = ClientRequest -> forall s hs, ct = Some s ->
        vget (fold_left wire_headers_step evs hs) "content-type" = VStr s) /\
     (req = ClientHttp2Stream ->
        forall hs, fold_left wire_headers_step evs hs = hs)).
Proof.
  intros _ _. cbv zeta.
  destruct (send_runs req body ct w) as (r & evs & E & Hm).
  destruct (send_calls _ _ _ _ _ _ E) as [-> ->]. clear E.
  split.
  - intros (-> & Hb & Hct). rewrite Hb in Hm. by destruct ct.
  - intros Hok.
    destruct req, (otruthy body) eqn:Hb, ct as [s|];
      try (exfalso; apply Hok; repeat split; congruence);
      destruct Hm as [-> ->]; (split; [reflexivity|]);
      (split; [unfold wire_body; cbn; by rewrite ?app_nil_r|]).
    all: cbn [app].
    all: split; [match goal with |- exists pre, ?l = _ /\ _ => exists (removelast l) end;
                 split; [reflexivity|]; cbn; intuition discriminate|].
    all: repeat split; try discriminate; try done.
    all: intros; cbn [fold_left app wire_headers_step].
    all: repeat first [ rewrite vget_set_eq
                      | rewrite vget_set_ne by discriminate
                      | rewrite vget_filter_other by (vm_compute; discriminate) ].
    all: try reflexivity.
    all: match goal with Hs : Some _ = Some _ |- _ => by injection Hs as -> end.
Qed.

(** ** Query parameters (lines 127 to 132) *)

Lemma usp_set_fresh (q : list (string * string)) k v :
  prop_lookup q k = None -> usp_set q k v = q ++ [(k, v)].
Proof.
  induction q as [|[k' v'] q IH]; simpl; [done|].
  destruct (String.eqb k k'); [done|]. intros E. by rewrite IH.
Qed.

Lemma prop_delete_filter {A} (q : list (string * A)) k :
  prop_delete q k = List.filter (fun kv => negb (String.eqb k (fst kv))) q.
Proof.
  induction q as [|[k' v'] q IH]; simpl; [done|].
  destruct (String.eqb k k'); simpl; by rewrite IH.
Qed.

Lemma merge_search_fold (es q : list (string * string)) :
  unique_keys es ->
  fold_left (fun q kv => usp_set (usp_delete q (fst kv)) (fst kv) (snd kv)) es q =
    List.filter (fun kv => negb (bool_decide (fst kv ∈ map fst es))) q ++ es.
Proof.
  revert q. induction es as [|[k v] es IH]; intros q Hu.
  - cbn [fold_left map]. rewrite app_nil_r.
    induction q as [|kv q IHq]; cbn [List.filter]; [done|].
    rewrite (bool_decide_eq_false_2 (fst kv ∈ [])) by apply not_elem_of_nil.
    cbn [negb]. by rewrite <- IHq.
  - apply NoDup_cons in Hu as [Hk Hu]. cbn [fold_left fst snd].
    unfold usp_delete. rewrite usp_set_fresh by apply prop_lookup_delete_eq.
    rewrite IH by done. rewrite List.filter_app. cbn [List.filter fst].
    rewrite (bool_decide_eq_false_2 _ Hk). cbn [negb].
    rewrite <- app_assoc. cbn [app]. f_equal.
    rewrite prop_delete_filter. clear.
    induction q as [|[k' v'] q IHq]; cbn [List.filter fst map]; [done|].
    destruct (String.eqb_spec k k') as [->|Hne]; cbn [negb List.filter fst].
    + rewrite IHq. rewrite (bool_decide_eq_true_2 (k' ∈ k' :: map fst es)) by left.
      done.
    + rewrite IHq.
      destruct (decide (k' ∈ map fst es)) as [Hin|Hin].
      * rewrite (bool_decide_eq_true_2 _ Hin).
        rewrite (bool_decide_eq_true_2 (k' ∈ k :: map fst es)) by (by right). done.
      * rewrite (bool_decide_eq_false_2 _ Hin).
        rewrite (bool_decide_eq_false_2 (k' ∈ k :: map fst es)); [done|].
        intros [?|?]%elem_of_cons; congruence.
Qed.

(** X2: the [searchParams] option is merged into the URL by
    delete-then-set per key: every parameter of the URL with the name of
    an entry is dropped, the other parameters stay, in their order, and
    the entries follow, in their order, each once.  Nothing else of the
    URL changes, and a falsy [searchParams] leaves the URL as it is. *)
Theorem search_parameters_replace h url opts :
  let entries := search_entries h (oget opts "searchParams") in
  (otruthy (oget opts "searchParams") = false -> merge_search h url opts = url) /\
  (otruthy (oget opts "searchParams") = true -> unique_keys entries ->
     searchParams (merge_search h url opts) =
       List.filter (fun kv => negb (bool_decide (fst kv ∈ map fst entries)))
         (searchParams url) ++ entries /\
     protocol (merge_search h url opts) = protocol url /\
     origin (merge_search h url opts) = origin url /\
     pathname (merge_search h url opts) = pathname url /\
     hash (merge_search h url opts) = hash url).
Proof.
  cbv zeta. unfold merge_search. split; intros ->; [done|].
  intros Hu. cbn [searchParams with_searchParams protocol origin pathname hash].
  split; [by apply merge_search_fold | done].
Qed.

(** ** Reading the body of a returned response (lines 200 to 235) *)

(** X3: a returned response whose body was empty has no [body]
    property, whatever the decode mode: reading it gives [undefined] and
    nothing is parsed.  When bytes were received, the first read gives,
    in "buffer" mode (or with no [responseType]), the chunks
    concatenated in the order of arrival and, in "json" mode, what
    [JSON.parse] makes of that concatenation; the value is then held by
    the response. *)
Theorem body_decoded_on_read this x net w p w1 r w' :
  prepare this x w = (Ok p, w1) ->
  request this x net w = (Ok r, w') ->
  (chunks net = [] -> body r = NoBody /\ get_body r = (Ok VUndef, r)) /\
  (chunks net <> [] -> decode_mode (p_responseType p) = Some ModeBuffer ->
     get_body r = (Ok (VBuf (Buffer_concat (chunks net))),
                   define_body r (Data (VBuf (Buffer_concat (chunks net)))))) /\
  (forall j, chunks net <> [] -> decode_mode (p_responseType p) = Some ModeJson ->
     JSON_parse (Buffer_concat (chunks net)) = Some j ->
     get_body r = (Ok (VJson j), define_body r (Data (VJson j)))).
Proof.
  intros Ep Er.
  destruct (request_ok_inv _ _ _ _ _ _ Er) as (p' & w1' & status & hdrs & Ep' & _ & _ & _ & Hb).
  rewrite Ep in Ep'. injection Ep' as <- <-.
  unfold get_body. rewrite Hb. split; [|split].
  - by intros ->.
  - intros Hne Hm. destruct (chunks net); [done|]. by rewrite Hm.
  - intros j Hne Hm Hj. destruct (chunks net) eqn:Ec; [done|]. rewrite Hm.
    by rewrite Hj.
Qed.

(** ** The steps before the request is created (lines 89 to 169) *)

Lemma prepare_by_cases this x w :
  match resolved_options this x w with
  | (Throw e, w0) => prepare this x w = (Throw e, w0)
  | (Ok opts, w0) =>
      if lacks_mTLS_material x opts
      then prepare this x w = (raise mTLS_missing, w0)
      else exists p w1, prepare this x w = (Ok p, w1) /\ p_opts p = rest_of opts /\
             trace w1 = trace w0 ++ creation p (plain (heap w1) (oget (p_opts p) "headers"))
  end.
Proof.
  unfold prepare, resolved_options, resolve.
  destruct (parse_url w) as [[url|e] wa] eqn:E1;
    [rewrite !(bind_ok _ _ _ _ _ E1) | by rewrite !(bind_throw _ _ _ _ _ E1)].
  cbv zeta.
  destruct (inject_proof this x url (origin url ++ pathname url) wa) as [[[]|e] wb] eqn:E2;
    [rewrite !(bind_ok _ _ _ _ _ E2) | by rewrite !(bind_throw _ _ _ _ _ E2)].
  destruct (merge_options this url wb) as [[opts|e] wc] eqn:E3;
    [rewrite !(bind_ok _ _ _ _ _ E3) | by rewrite !(bind_throw _ _ _ _ _ E3)].
  destruct (lacks_mTLS_material x opts) eqn:Em.
  - done.
  - unfold bind at 1. unfold ret at 1.
    unfold bind at 1. unfold read at 1. cbv zeta.
    unfold bind at 1. rewrite strip_headers_runs.
    unfold bind at 1. rewrite open_request_runs. unfold ret.
    destruct (otruthy (oget (rest_of opts) "http2"));
      (destruct (oget (rest_of opts) "headers") as [v|l] eqn:Eh;
         [|destruct (heap wc !! l) eqn:El]);
      eexists _, _; (split; [reflexivity|]); (split; [reflexivity|]);
      cbn [p_opts p_req p_url p_json p_form p_body creation heap trace];
      rewrite Eh; reflexivity.
Qed.

Section Emits.
Context (P : event -> bool).

Lemma defaultsDeep_emits t srcs : respects (emits P) (defaultsDeep t srcs).
Proof. unfold defaultsDeep. by_steps. Qed.

Lemma alloc_lobj_emits o : respects (emits P) (alloc_lobj o).
Proof. induction o as [|[k [v|f|l]] o IH]; simpl; by_steps. Qed.

Lemma assign_emits t k v : respects (emits P) (assign t k v).
Proof. unfold assign. by_steps. Qed.

Lemma strip_headers_emits o : respects (emits P) (strip_headers o).
Proof. unfold strip_headers. by_steps. Qed.

Lemma parse_url_emits : respects (emits P) parse_url.
Proof. unfold parse_url. by_steps. Qed.

(** The call of the hook itself makes no host call: the call is recorded
    before it. *)
Lemma call_hook_emits f url m : respects (emits P) (call_hook f url m).
Proof.
  intros w r w' E. unfold call_hook in E.
  destruct (f url m (heap w)) as [ws [r0|e]]; injection E as <- <-;
    exists []; (split; [simpl; by rewrite app_nil_r | constructor]).
Qed.

End Emits.

#[local] Hint Resolve defaultsDeep_emits alloc_lobj_emits assign_emits
  strip_headers_emits parse_url_emits call_hook_emits : stepwise.

Lemma inject_proof_emits this x url k :
  respects (emits (at_stage 0)) (inject_proof this x url k).
Proof. unfold inject_proof. by_steps. Qed.

Lemma merge_options_emits this url :
  respects (emits (at_stage 1)) (merge_options this url).
Proof. unfold merge_options. by_steps. Qed.

Lemma inject_proof_offline this x url k :
  respects (emits offline) (inject_proof this x url k).
Proof. unfold inject_proof. by_steps. Qed.

Lemma merge_options_offline this url :
  respects (emits offline) (merge_options this url).
Proof. unfold merge_options. by_steps. Qed.

#[local] Hint Resolve inject_proof_offline merge_options_offline : stepwise.

Lemma resolved_options_offline this x :
  respects (emits offline) (resolved_options this x).
Proof. unfold resolved_options. by_steps. Qed.

Lemma emits_calls P w w' : emits P w w' -> Forall (fun e => P e = true) (calls w w').
Proof. intros (evs & E & F). by rewrite (calls_app _ _ _ E). Qed.

Lemma offline_closed evs :
  Forall (fun e => offline e = true) evs -> Forall (fun e => opens_socket e = false) evs.
Proof.
  intros F. eapply Forall_impl; [exact F|].
  intros e He. unfold offline in He. by apply negb_true_iff.
Qed.

(** X4: with [mTLS] set, a call whose merged options have neither a
    truthy [pfx] nor both a truthy [key] and a truthy [cert] fails with
    the TypeError 'mutual-TLS certificate and key not set' before the
    request is created: no host call made so far opens a connection.
    Conversely, whenever a request is created with [mTLS] set, the
    options it is created with have a [pfx], or a [key] and a [cert]. *)
Theorem mTLS_material_required this x net w :
  mTLS x = true ->
  (forall opts w0, resolved_options this x w = (Ok opts, w0) ->
     otruthy (oget opts "pfx") = false ->
     otruthy (oget opts "key") && otruthy (oget opts "cert") = false ->
     request this x net w = (raise mTLS_missing, w0) /\
     Forall (fun e => opens_socket e = false) (calls w w0)) /\
  (forall p w1, prepare this x w = (Ok p, w1) ->
     otruthy (oget (p_opts p) "pfx") = true \/
     (otruthy (oget (p_opts p) "key") = true /\
      otruthy (oget (p_opts p) "cert") = true)).
Proof.
  intros Hm. split.
  - intros opts w0 Er Hpfx Hkc.
    pose proof (prepare_by_cases this x w) as Hp. rewrite Er in Hp.
    unfold lacks_mTLS_material in Hp. rewrite Hm, Hpfx, Hkc in Hp. cbn in Hp.
    split; [by apply request_rejected|].
    apply offline_closed, emits_calls. exact (resolved_options_offline _ _ _ _ _ Er).
  - intros p w1 Ep.
    apply prepare_inv in Ep as (url & wa & wb & opts & wc & wd & _ & _ & _ & Hl & _ & _ & ->).
    cbn [p_opts]. rewrite !oget_rest_of by discriminate.
    unfold lacks_mTLS_material in Hl. rewrite Hm in Hl. cbn in Hl.
    destruct (otruthy (oget opts "pfx")); [by left|]. right.
    destruct (otruthy (oget opts "key")), (otruthy (oget opts "cert")); done.
Qed.

(** ** The host calls of a run, in order *)

Lemma merge_options_trace this url w :
  trace (snd (merge_options this url w)) =
    trace w ++ match HTTP_OPTIONS this with
               | Some _ => [EvOptsFn url (fst (premerged w))]
               | None => []
               end.
Proof.
  unfold merge_options, premerged.
  destruct (HTTP_OPTIONS this) as [optsFn|].
  - unfold bind, read, emit, ret. rewrite defaultsDeep_runs, call_hook_runs.
    cbn [heap trace].
    destruct (optsFn _ _ _) as [ws [r|e]]; cbn [fst snd]; unfold ret, throw.
    + rewrite alloc_lobj_runs, defaultsDeep_runs. reflexivity.
    + reflexivity.
  - unfold bind, read, ret. rewrite defaultsDeep_runs. cbn [trace].
    by rewrite app_nil_r.
Qed.

Lemma inject_proof_calls this x url key wa :
  exists a, trace (snd (inject_proof this x url key wa)) = trace wa ++ a /\
            Forall (fun e => at_stage 0 e = true) a /\ length a <= 1 /\
            (otruthy (DPoP x) = false \/ dpopProof this = None -> a = []).
Proof.
  destruct (otruthy (DPoP x)) eqn:Hd; [destruct (dpopProof this) as [prove|] eqn:Hc|].
  - rewrite (inject_proof_trace _ _ _ _ _ _ Hd Hc). eexists. split; [reflexivity|].
    split; [by repeat constructor|]. split; [simpl; lia|]. by intros [?|?].
  - rewrite inject_proof_skipped by (by right). exists []. simpl.
    rewrite app_nil_r. split; [done|]. split; [constructor|]. split; [lia | done].
  - rewrite inject_proof_skipped by (by left). exists []. simpl.
    rewrite app_nil_r. split; [done|]. split; [constructor|]. split; [lia | done].
Qed.

Lemma parse_url_keeps_trace : respects (keeps trace) parse_url.
Proof. unfold parse_url. by_steps. Qed.

(** The calls up to the merge: at most one to the proof capability, then
    at most one to the hook. *)
Lemma resolved_options_calls this x w :
  exists a b,
    trace (snd (resolved_options this x w)) = trace w ++ a ++ b /\
    Forall (fun e => at_stage 0 e = true) a /\ length a <= 1 /\
    Forall (fun e => at_stage 1 e = true) b /\ length b <= 1 /\
    (otruthy (DPoP x) = false \/ dpopProof this = None -> a = []).
Proof.
  unfold resolved_options.
  destruct (parse_url w) as [[url|e] wa] eqn:E1;
    [rewrite (bind_ok _ _ _ _ _ E1) | rewrite (bind_throw _ _ _ _ _ E1)];
    pose proof (parse_url_keeps_trace _ _ _ E1) as Ht; unfold keeps in Ht.
  2:{ exists [], []. cbn [snd]. rewrite Ht, app_nil_r.
      repeat split; try constructor; simpl; lia. }
  destruct (inject_proof_calls this x url (origin url ++ pathname url) wa)
    as (a & Ha & Fa & La & Hskip).
  destruct (inject_proof this x url (origin url ++ pathname url) wa) as [[[]|e] wb] eqn:E2;
    [rewrite (bind_ok _ _ _ _ _ E2) | rewrite (bind_throw _ _ _ _ _ E2)];
    cbn [snd] in Ha |- *.
  2:{ exists a, []. rewrite app_nil_r.
      split; [by rewrite Ha, Ht|].
      repeat split; try done; try constructor. simpl; lia. }
  exists a, (match HTTP_OPTIONS this with
             | Some _ => [EvOptsFn url (fst (premerged wb))]
             | None => []
             end).
  split.
  - rewrite merge_options_trace, Ha, Ht. by rewrite app_assoc.
  - repeat split; try done; destruct (HTTP_OPTIONS this); repeat constructor.
Qed.

Lemma transmit_emits p : respects (emits (at_stage 3)) (transmit p).
Proof. unfold transmit, send. by_steps. Qed.

(** What follows the race: [destroy] after a timeout, the two [close]
    calls after an http2 body has been drained, nothing otherwise. *)
Lemma exchange_calls p net w1 :
  exists e,
    trace (snd (exchange p net w1)) = trace (snd (transmit p w1)) ++ e /\
    Forall (fun ev => at_stage 4 ev = true) e.
Proof.
  destruct (transmit p w1) as [[u|err] w2] eqn:Et.
  - destruct (arrival net) as [status hdrs| |e] eqn:Ea.
    + destruct (stream_error net) as [e|] eqn:Es.
      * rewrite (exchange_stream_failed _ _ _ _ _ _ _ _ Et Ea Es). simpl.
        exists []. split; [by rewrite app_nil_r | constructor].
      * rewrite (exchange_collected _ _ _ _ _ _ _ Et Ea Es).
        exists (if otruthy (oget (p_opts p) "http2")
                then [EvCloseStream; EvCloseSession] else []).
        split.
        -- destruct (chunks net); [|destruct (decode_mode _)]; simpl; apply drained_trace.
        -- destruct (otruthy _); by repeat constructor.
    + rewrite (exchange_timed_out _ _ _ _ _ Et Ea). simpl.
      eexists. split; [reflexivity | by repeat constructor].
    + rewrite (exchange_errored _ _ _ _ _ _ Et Ea). simpl.
      exists []. split; [by rewrite app_nil_r | constructor].
  - rewrite (exchange_unsent _ _ _ _ _ Et). simpl.
    exists []. split; [by rewrite app_nil_r | constructor].
Qed.

Lemma creation_staged p hdrs :
  Forall (fun e => at_stage 2 e = true) (creation p hdrs) /\
  connections (creation p hdrs) = 1.
Proof. unfold creation. destruct (p_req p); split; by repeat constructor. Qed.

(** The host calls of a run, by stage. *)
Lemma request_stages this x net w :
  exists a b c d e,
    calls w (snd (request this x net w)) = a ++ b ++ c ++ d ++ e /\
    Forall (fun ev => at_stage 0 ev = true) a /\ length a <= 1 /\
    Forall (fun ev => at_stage 1 ev = true) b /\ length b <= 1 /\
    Forall (fun ev => at_stage 2 ev = true) c /\
    connections c = match fst (prepare this x w) with Ok _ => 1 | Throw _ => 0 end /\
    Forall (fun ev => at_stage 3 ev = true) d /\
    Forall (fun ev => at_stage 4 ev = true) e /\
    (otruthy (DPoP x) = false \/ dpopProof this = None -> a = []).
Proof.
  destruct (resolved_options_calls this x w) as (a & b & Hab & Fa & La & Fb & Lb & Hskip).
  pose proof (prepare_by_cases this x w) as Hp.
  destruct (resolved_options this x w) as [[opts|err] w0]; cbn [snd] in Hab.
  1: destruct (lacks_mTLS_material x opts).
  2: destruct Hp as (p & w1 & Ep & _ & Hc).
  1,3: exists a, b, [], [], [];
       rewrite (request_rejected _ _ _ _ _ _ Hp), Hp; cbn [fst snd];
       rewrite !app_nil_r;
       (split; [by apply calls_app|]); repeat split; try done; constructor.
  destruct (transmit_emits p _ _ _ (surjective_pairing (transmit p w1))) as (d & Hd & Fd).
  destruct (exchange_calls p net w1) as (e & He & Fe).
  exists a, b, (creation p (plain (heap w1) (oget (p_opts p) "headers"))), d, e.
  rewrite Ep. cbn [fst].
  split.
  - apply calls_app. rewrite (request_trace _ _ _ _ _ _ Ep), He, Hd, Hc, Hab.
    by rewrite <- !app_assoc.
  - destruct (creation_staged p (plain (heap w1) (oget (p_opts p) "headers"))).
    repeat split; done.
Qed.

Lemma staged_le n m evs : m <= n -> staged n evs = true -> staged m evs = true.
Proof.
  destruct evs as [|e evs]; [done|]. simpl. intros Hmn.
  rewrite !andb_true_iff, !Nat.leb_le. intros [Hn Hs]. split; [lia | done].
Qed.

Lemma staged_app n k evs evs' :
  n <= k -> Forall (fun e => at_stage k e = true) evs ->
  staged k evs' = true -> staged n (evs ++ evs') = true.
Proof.
  intros Hnk F. revert n Hnk. induction F as [|e evs He _ IH]; intros n Hnk Hs.
  - by apply (staged_le k).
  - unfold at_stage in He. apply Nat.eqb_eq in He. simpl.
    rewrite andb_true_iff, Nat.leb_le. split; [lia|].
    rewrite He. by apply IH.
Qed.

Lemma staged_lookup n evs i e :
  staged n evs = true -> evs !! i = Some e -> n <= stage e.
Proof.
  revert n i. induction evs as [|e' evs IH]; intros n i; [done|]. simpl.
  rewrite andb_true_iff, Nat.leb_le. intros [Hn Hs].
  destruct i as [|i]; simpl.
  - by intros [= ->].
  - intros Hi. specialize (IH _ _ Hs Hi). lia.
Qed.

Lemma staged_ordered n evs i j ei ej :
  staged n evs = true -> i < j -> evs !! i = Some ei -> evs !! j = Some ej ->
  stage ei <= stage ej.
Proof.
  revert n i j. induction evs as [|e' evs IH]; intros n i j; [done|]. simpl.
  rewrite andb_true_iff. intros [_ Hs] Hij.
  destruct j as [|j]; [lia|]. destruct i as [|i]; simpl.
  - intros [= ->]. by apply staged_lookup.
  - apply (IH _ _ _ Hs). lia.
Qed.

Lemma filter_stage_other n k evs :
  n <> k -> Forall (fun e => at_stage k e = true) evs ->
  List.filter (at_stage n) evs = [].
Proof.
  intros Hnk. induction 1 as [|e evs He _ IH]; [done|]. simpl. rewrite IH.
  unfold at_stage in *. apply Nat.eqb_eq in He. rewrite He.
  by rewrite (proj2 (Nat.eqb_neq k n)).
Qed.

Lemma filter_length_le {A} (f : A -> bool) l : length (List.filter f l) <= length l.
Proof. induction l as [|a l IH]; simpl; [lia|]. destruct (f a); simpl; lia. Qed.

(** X5: the host calls of a call come in the order of its stages,
    whatever its outcome: first the proof capability, then the hook, then
    the creation of the request, then the calls that send it, then what
    follows the race ([destroy], or closing the http2 stream and
    session).  The proof capability is called at most once, and so is
    the hook. *)
Theorem host_calls_in_stage_order this x net w :
  let evs := calls w (snd (request this x net w)) in
  (forall i j ei ej, i < j -> evs !! i = Some ei -> evs !! j = Some ej ->
     stage ei <= stage ej) /\
  length (List.filter (at_stage 0) evs) <= 1 /\
  length (List.filter (at_stage 1) evs) <= 1.
Proof.
  cbv zeta.
  destruct (request_stages this x net w)
    as (a & b & c & d & e & -> & Fa & La & Fb & Lb & Fc & _ & Fd & Fe & _).
  split; [|split].
  - intros i j ei ej. apply (staged_ordered 0).
    apply (staged_app 0 0); [lia | done |].
    apply (staged_app 0 1); [lia | done |].
    apply (staged_app 1 2); [lia | done |].
    apply (staged_app 2 3); [lia | done |].
    rewrite <- (app_nil_r e). by apply (staged_app 3 4); [lia | done |].
  - rewrite !List.filter_app.
    rewrite (filter_stage_other 0 1 b), (filter_stage_other 0 2 c),
      (filter_stage_other 0 3 d), (filter_stage_other 0 4 e) by done.
    rewrite !app_nil_r. pose proof (filter_length_le (at_stage 0) a). lia.
  - rewrite !List.filter_app.
    rewrite (filter_stage_other 1 0 a), (filter_stage_other 1 2 c),
      (filter_stage_other 1 3 d), (filter_stage_other 1 4 e) by done.
    rewrite !app_nil_r. cbn [app]. pose proof (filter_length_le (at_stage 1) b). lia.
Qed.

Lemma connections_app evs evs' :
  connections (evs ++ evs') = connections evs + connections evs'.
Proof. unfold connections. by rewrite List.filter_app, length_app. Qed.

Lemma connections_other k evs :
  k <> 2 -> Forall (fun e => at_stage k e = true) evs -> connections evs = 0.
Proof.
  intros Hk. unfold connections. induction 1 as [|e evs He _ IH]; [done|]. simpl.
  unfold at_stage in He. apply Nat.eqb_eq in He.
  destruct e; simpl in *; try done; lia.
Qed.

(** X6: a call opens exactly one connection when it gets as far as
    creating the request, and none when it fails before: on an invalid
    URL, when the proof capability or the hook throws, and when the
    mutual-TLS material is missing. *)
Theorem one_connection_per_call this x net w :
  connections (calls w (snd (request this x net w))) =
    match fst (prepare this x w) with Ok _ => 1 | Throw _ => 0 end.
Proof.
  destruct (request_stages this x net w)
    as (a & b & c & d & e & -> & Fa & _ & Fb & _ & _ & Hc & Fd & Fe & _).
  rewrite !connections_app, Hc.
  rewrite (connections_other 0 a), (connections_other 1 b),
    (connections_other 3 d), (connections_other 4 e) by done.
  lia.
Qed.

(** ** What is sent (lines 148 to 179) *)

Lemma stage4_inert evs :
  Forall (fun e => at_stage 4 e = true) evs -> Forall (fun e => inert e = true) evs.
Proof.
  intros F. eapply Forall_impl; [exact F|]. intros e He.
  unfold at_stage in He. apply Nat.eqb_eq in He. by destruct e.
Qed.

Lemma sent_trace p w1 : trace (snd (transmit p w1)) = trace w1 ++ sent p w1.
Proof.
  destruct (transmit_extends p _ _ _ (surjective_pairing (transmit p w1))) as (evs & E).
  unfold sent. by rewrite (calls_app _ _ _ E).
Qed.

(** The calls of a run that got as far as creating the request: inert
    ones, the creation, the sending, inert ones. *)
Lemma request_calls_sent this x net w p w1 :
  prepare this x w = (Ok p, w1) ->
  exists pre post,
    Forall (fun e => inert e = true) pre /\ Forall (fun e => inert e = true) post /\
    calls w (snd (request this x net w)) =
      pre ++ (creation p (plain (heap w1) (oget (p_opts p) "headers")) ++ sent p w1)
          ++ post.
Proof.
  intros Ep.
  destruct (prepare_trace _ _ _ _ _ Ep) as (pre & Fpre & Htr & _).
  destruct (exchange_calls p net w1) as (post & Hpost & Fpost).
  exists pre, post. split; [done|]. split; [by apply stage4_inert|].
  apply calls_app.
  rewrite (request_trace _ _ _ _ _ _ Ep), Hpost, sent_trace, Htr.
  by rewrite <- !app_assoc.
Qed.

Lemma creation_writes_nothing p hdrs : wire_body (creation p hdrs) = [].
Proof. unfold creation. by destruct (p_req p). Qed.

Lemma request_wire this x net w p w1 :
  prepare this x w = (Ok p, w1) ->
  let evs := calls w (snd (request this x net w)) in
  wire_headers evs =
    wire_headers (creation p (plain (heap w1) (oget (p_opts p) "headers")) ++ sent p w1) /\
  wire_body evs = wire_body (sent p w1).
Proof.
  intros Ep evs. subst evs.
  destruct (request_calls_sent _ _ net _ _ _ Ep) as (pre & post & Fpre & Fpost & ->).
  split.
  - rewrite app_assoc, wire_headers_inert_end by done.
    unfold wire_headers. by apply wire_headers_inert.
  - rewrite !wire_body_app, (wire_body_inert pre), (wire_body_inert post) by done.
    rewrite creation_writes_nothing. simpl. by rewrite app_nil_r.
Qed.

(** [transmit] is one call of [send]. *)
Lemma sent_by_send p w1 :
  exists body ct,
    sent p w1 = calls w1 (snd (send (p_req p) body ct w1)) /\
    fst (transmit p w1) = fst (send (p_req p) body ct w1) /\
    (body, ct) =
      if otruthy (p_json p)
      then (OVal (VStr (JSON_stringify (p_json p))), Some "application/json")
      else if otruthy (p_form p)
      then (OVal (VStr (querystring_stringify (p_form p))),
            Some "application/x-www-form-urlencoded")
      else if otruthy (p_body p) then (p_body p, None)
      else (OVal VUndef, None).
Proof.
  unfold sent, transmit.
  destruct (otruthy (p_json p)); [|destruct (otruthy (p_form p)); [|destruct (otruthy (p_body p))]];
    by eexists _, _.
Qed.

Lemma truthy_text s : s <> "" -> otruthy (OVal (VStr s)) = true.
Proof. intros Hs. simpl. apply negb_true_iff. by apply String.eqb_neq. Qed.

(** What [send] does with a truthy body. *)
Lemma send_body_calls req body ct w :
  otruthy body = true ->
  fst (send req body ct w) = Ok tt /\
  calls w (snd (send req body ct w)) =
    match req with
    | ClientHttp2Stream => [EvWrite (Buffer_from body); EvEnd]
    | ClientRequest =>
        match ct with
        | Some s => [EvRemoveHeader "content-type"; EvSetHeader "content-type" (VStr s)]
        | None => []
        end ++
        [EvRemoveHeader "content-length";
         EvSetHeader "content-length" (VNum (Buffer_byteLength body));
         EvWrite (Buffer_from body); EvEnd]
    end.
Proof.
  intros Hb.
  destruct (send_runs req body ct w) as (r & evs & E & Hm).
  destruct (send_calls _ _ _ _ _ _ E) as [-> ->]. rewrite Hb in Hm.
  destruct req; destruct Hm as [-> ->]; done.
Qed.

Ltac wire_lookup :=
  repeat first [ rewrite vget_set_eq
               | rewrite vget_set_ne by discriminate
               | rewrite vget_filter_other by (vm_compute; discriminate) ].

(** ** Header fields under any spelling of their name *)

Lemma fields_cons k v hs name :
  fields ((k, v) :: hs) name =
    if String.eqb (lower k) (lower name) then v :: fields hs name else fields hs name.
Proof. unfold fields. cbn [List.filter fst]. by destruct (String.eqb _ _). Qed.

Lemma fields_app hs hs' name : fields (hs ++ hs') name = fields hs name ++ fields hs' name.
Proof. unfold fields. by rewrite List.filter_app, map_app. Qed.

(** [removeHeader(name)] leaves no field of that name. *)
Lemma fields_removed hs name :
  fields (List.filter (fun kv => negb (String.eqb (lower (fst kv)) (lower name))) hs) name = [].
Proof.
  induction hs as [|[k v] hs IH]; [done|]. cbn [List.filter fst].
  destruct (String.eqb (lower k) (lower name)) eqn:E; cbn [negb]; [exact IH|].
  by rewrite fields_cons, E.
Qed.

Lemma fields_removed_other hs name' name :
  lower name' <> lower name ->
  fields (List.filter (fun kv => negb (String.eqb (lower (fst kv)) (lower name'))) hs) name
  = fields hs name.
Proof.
  intros Hne. induction hs as [|[k v] hs IH]; [done|]. cbn [List.filter fst].
  destruct (String.eqb_spec (lower k) (lower name')) as [Heq|Hneq]; cbn [negb].
  - rewrite fields_cons, IH.
    destruct (String.eqb_spec (lower k) (lower name)); [congruence | done].
  - by rewrite !fields_cons, IH.
Qed.

Lemma fields_set_other hs k v name :
  lower k <> lower name -> fields (prop_set hs k v) name = fields hs name.
Proof.
  intros Hne. induction hs as [|[k0 v0] hs IH]; cbn [prop_set].
  - rewrite fields_cons. by destruct (String.eqb_spec (lower k) (lower name)).
  - destruct (String.eqb_spec k k0) as [<-|Hk].
    + rewrite !fields_cons. by destruct (String.eqb_spec (lower k) (lower name)).
    + by rewrite !fields_cons, IH.
Qed.

(** [setHeader(name, v)] after [removeHeader(name)]. *)
Lemma fields_set_fresh hs name v :
  fields hs name = [] -> fields (prop_set hs name v) name = [v].
Proof.
  induction hs as [|[k0 v0] hs IH]; cbn [prop_set].
  - intros _. by rewrite fields_cons, String.eqb_refl.
  - rewrite fields_cons. destruct (String.eqb_spec name k0) as [<-|Hk].
    + by rewrite String.eqb_refl.
    + rewrite fields_cons. destruct (String.eqb (lower k0) (lower name)); [done | exact IH].
Qed.

Lemma fields_absent hs name :
  unique_keys hs -> spelled hs name -> ~ In name (map fst hs) -> fields hs name = [].
Proof.
  intros _ Hs Hn. induction hs as [|[k0 v0] hs IH]; [done|].
  rewrite fields_cons. destruct (String.eqb_spec (lower k0) (lower name)) as [Heq|Hne].
  - destruct Hn. left. exact (Hs k0 v0 (or_introl eq_refl) Heq).
  - apply IH; [intros k1 v1 Hin; apply (Hs k1 v1); by right | intros Hin; apply Hn; by right].
Qed.

(** [headers[name] = v] on a header map that has one value per key and
    spells the field no other way. *)
Lemma fields_set hs name v :
  unique_keys hs -> spelled hs name -> fields (prop_set hs name v) name = [v].
Proof.
  unfold unique_keys. intros Hu Hs. induction hs as [|[k0 v0] hs IH]; cbn [prop_set].
  - by rewrite fields_cons, String.eqb_refl.
  - apply NoDup_cons in Hu as [Hk Hu].
    assert (spelled hs name) as Hs' by (intros k1 v1 Hin; apply (Hs k1 v1); by right).
    destruct (String.eqb_spec name k0) as [<-|Hne].
    + rewrite fields_cons, String.eqb_refl. f_equal.
      apply fields_absent; [done | done |]. intros Hin. apply Hk. by apply list_elem_of_In.
    + rewrite fields_cons.
      destruct (String.eqb_spec (lower k0) (lower name)) as [Heq|_]; [|by apply IH].
      destruct Hne. symmetry. exact (Hs k0 v0 (or_introl eq_refl) Heq).
Qed.

Lemma spelled_set hs k v name :
  spelled hs name -> (lower k = lower name -> k = name) -> spelled (prop_set hs k v) name.
Proof.
  intros Hs Hk k' v' Hin. apply prop_set_In in Hin as [[= E1 E2]|Hin]; [by subst|].
  by apply (Hs k' v').
Qed.

Lemma Object_assign_In t s k v :
  In (k, v) (Object_assign t (Some s)) -> In (k, v) t \/ In (k, v) s.
Proof.
  cbn [Object_assign]. revert t. induction s as [|[k0 v0] s IH]; intros t; cbn [fold_left].
  - by left.
  - intros Hin. apply IH in Hin as [Hin|Hin]; [|right; by right].
    apply prop_set_In in Hin as [[= E1 E2]|Hin]; [subst; right; by left | by left].
Qed.

Lemma Object_assign_unique t s : unique_keys t -> unique_keys (Object_assign t s).
Proof.
  destruct s as [s|]; [|done]. cbn [Object_assign]. revert t.
  induction s as [|[k0 v0] s IH]; intros t Hu; cbn [fold_left]; [done|].
  by apply IH, prop_set_unique.
Qed.

(** The header block of the http2 branch before the payload fields are
    set: one value per key, the payload fields spelled as in the header
    map it is made from. *)
Lemma http2_block_spelled url hdrs name :
  lower ":path" <> lower name ->
  match hdrs with Some hs => spelled hs name | None => True end ->
  unique_keys (Object_assign [(":path", VStr (pathname url))] hdrs) /\
  spelled (Object_assign [(":path", VStr (pathname url))] hdrs) name.
Proof.
  intros Hp Hs. split; [apply Object_assign_unique, NoDup_singleton|].
  destruct hdrs as [hs|]; cbn [Object_assign].
  - intros k v Hin. apply (Object_assign_In _ hs) in Hin as [[[= <- <-]|[]]|Hin]; [done|].
    by apply (Hs k v).
  - by intros k v [[= <- <-]|[]].
Qed.

(** A check of the spelling that computes. *)
Lemma spelled_check hs name :
  forallb (fun kv => implb (String.eqb (lower (fst kv)) (lower name))
                       (String.eqb (fst kv) name)) hs = true ->
  spelled hs name.
Proof.
  intros Hf k v Hin Hl. rewrite forallb_forall in Hf. specialize (Hf _ Hin).
  cbn [fst] in Hf. rewrite Hl, String.eqb_refl in Hf. by apply String.eqb_eq.
Qed.

Lemma payload_fields_check hdrs :
  match hdrs with
  | Some hs =>
      forallb (fun kv => implb (String.eqb (lower (fst kv)) (lower "content-type"))
                           (String.eqb (fst kv) "content-type")) hs &&
      forallb (fun kv => implb (String.eqb (lower (fst kv)) (lower "content-length"))
                           (String.eqb (fst kv) "content-length")) hs
  | None => true
  end = true ->
  payload_fields_spelled hdrs.
Proof.
  destruct hdrs as [hs|]; [|done]. intros [H1 H2]%andb_true_iff.
  split; by apply spelled_check.
Qed.

Ltac other_fields :=
  repeat first [ rewrite fields_set_other by (vm_compute; discriminate)
               | rewrite fields_removed_other by (vm_compute; discriminate) ].

(** The fields of the request, on either transport, once a payload with
    a content type has been sent. *)
Lemma typed_payload_fields p hdrs ct n data :
  (p_req p = ClientHttp2Stream -> payload_fields_spelled hdrs) ->
  let block :=
    prop_set (prop_set (prop_set (Object_assign [(":path", VStr (pathname (p_url p)))] hdrs)
      ":method" (VStr "POST")) "content-type" (VStr ct)) "content-length" (VNum n) in
  let evs :=
    match p_req p with
    | ClientHttp2Stream =>
        [EvH2Connect (origin (p_url p)); EvH2Request block;
         EvSetTimeout (oget (p_opts p) "timeout")] ++ [EvWrite data; EvEnd]
    | ClientRequest =>
        [EvH1Request (String.eqb (protocol (p_url p)) "https:") (p_url p) (p_opts p) hdrs] ++
        [EvRemoveHeader "content-type"; EvSetHeader "content-type" (VStr ct);
         EvRemoveHeader "content-length"; EvSetHeader "content-length" (VNum n);
         EvWrite data; EvEnd]
    end in
  fields (wire_headers evs) "content-type" = [VStr ct] /\
  fields (wire_headers evs) "content-length" = [VNum n].
Proof.
  intros Hs block evs. subst evs block. destruct (p_req p).
  - specialize (Hs eq_refl). unfold wire_headers. cbn [app fold_left wire_headers_step].
    assert (match hdrs with Some hs => spelled hs "content-type" | None => True end) as Hct
      by (destruct hdrs; [apply Hs | done]).
    assert (match hdrs with Some hs => spelled hs "content-length" | None => True end) as Hcl
      by (destruct hdrs; [apply Hs | done]).
    destruct (http2_block_spelled (p_url p) hdrs "content-type") as [Hu Hst];
      [vm_compute; discriminate | done |].
    destruct (http2_block_spelled (p_url p) hdrs "content-length") as [_ Hsl];
      [vm_compute; discriminate | done |].
    split.
    + other_fields. apply fields_set; [by apply prop_set_unique|].
      apply spelled_set; [done | vm_compute; discriminate].
    + apply fields_set; [by repeat apply prop_set_unique|].
      repeat apply spelled_set; try done; vm_compute; discriminate.
  - unfold wire_headers. cbn [app fold_left wire_headers_step].
    split.
    + other_fields. apply fields_set_fresh, fields_removed.
    + apply fields_set_fresh, fields_removed.
Qed.

(** The same for a payload without a content type. *)
Lemma untyped_payload_fields p hdrs n data :
  (p_req p = ClientHttp2Stream -> payload_fields_spelled hdrs) ->
  let block :=
    prop_set (prop_set (Object_assign [(":path", VStr (pathname (p_url p)))] hdrs)
      ":method" (VStr "POST")) "content-length" (VNum n) in
  let evs :=
    match p_req p with
    | ClientHttp2Stream =>
        [EvH2Connect (origin (p_url p)); EvH2Request block;
         EvSetTimeout (oget (p_opts p) "timeout")] ++ [EvWrite data; EvEnd]
    | ClientRequest =>
        [EvH1Request (String.eqb (protocol (p_url p)) "https:") (p_url p) (p_opts p) hdrs] ++
        [EvRemoveHeader "content-length"; EvSetHeader "content-length" (VNum n);
         EvWrite data; EvEnd]
    end in
  fields (wire_headers evs) "content-length" = [VNum n].
Proof.
  intros Hs block evs. subst evs block. destruct (p_req p).
  - specialize (Hs eq_refl). unfold wire_headers. cbn [app fold_left wire_headers_step].
    assert (match hdrs with Some hs => spelled hs "content-length" | None => True end) as Hcl
      by (destruct hdrs; [apply Hs | done]).
    destruct (http2_block_spelled (p_url p) hdrs "content-length") as [Hu Hsl];
      [vm_compute; discriminate | done |].
    apply fields_set; [by apply prop_set_unique|].
    apply spelled_set; [done | vm_compute; discriminate].
  - unfold wire_headers. cbn [app fold_left wire_headers_step].
    apply fields_set_fresh, fields_removed.
Qed.

(** X7: a request with form fields and no JSON payload (a falsy [json]
    and a truthy [form], which [querystring.stringify] turns into a
    non-empty text) goes out, on either transport, with exactly the bytes
    of the encoded fields as its body, whatever the [body] option is, and
    with [content-type: application/x-www-form-urlencoded] and
    [content-length], the number of those bytes, under these lower-case
    names.  Header names being case-insensitive, these are its only
    content-type and content-length fields on HTTP/1.1, where [send]
    removes the field before it sets it; on HTTP/2 they are when the
    header map the request is created with spells the two names no other
    way, the block being built by assignment to the lower-case keys. *)
Theorem form_payload_on_the_wire this x net w p w1 :
  prepare this x w = (Ok p, w1) ->
  otruthy (p_json p) = false ->
  otruthy (p_form p) = true ->
  querystring_stringify (p_form p) <> "" ->
  let payload := utf8 (querystring_stringify (p_form p)) in
  let evs := calls w (snd (request this x net w)) in
  vget (wire_headers evs) "content-type" = VStr "application/x-www-form-urlencoded" /\
  vget (wire_headers evs) "content-length" = VNum (Z.of_nat (length payload)) /\
  wire_body evs = payload /\
  ((p_req p = ClientHttp2Stream ->
    payload_fields_spelled (plain (heap w1) (oget (p_opts p) "headers"))) ->
   fields (wire_headers evs) "content-type" = [VStr "application/x-www-form-urlencoded"] /\
   fields (wire_headers evs) "content-length" = [VNum (Z.of_nat (length payload))]).
Proof.
  intros Ep Hj Hf Hne payload evs.
  destruct (request_wire _ _ net _ _ _ Ep) as [Hh Hb]. subst evs. rewrite Hh, Hb.
  destruct (sent_by_send p w1) as (body & ct & -> & _ & Hbc).
  rewrite Hj, Hf in Hbc. injection Hbc as -> ->.
  destruct (send_body_calls (p_req p) (OVal (VStr (querystring_stringify (p_form p))))
              (Some "application/x-www-form-urlencoded") w1 (truthy_text _ Hne)) as [_ ->].
  split; [|split; [|split]].
  4:{ intros Hs.
      pose proof (typed_payload_fields p _ "application/x-www-form-urlencoded"
                    (Z.of_nat (length payload)) payload Hs) as Hty.
      cbv zeta in Hty. unfold creation, http2_headers. rewrite Hj, Hf.
      destruct (p_req p); exact Hty. }
  all: unfold creation, http2_headers; rewrite ?Hj, ?Hf;
    destruct (p_req p); unfold wire_headers, wire_body; simpl; wire_lookup;
    by rewrite ?app_nil_r.
Qed.

(** X8: a request with a raw body and neither JSON payload nor form
    fields (falsy [json] and [form], and a [body] that is a non-empty
    string or a buffer) goes out, on either transport, with exactly the
    bytes of the body as its body and with [content-length], the number
    of those bytes, under this lower-case name.  It is its only
    content-length field on HTTP/1.1, and on HTTP/2 when the header map
    the request is created with spells the name no other way. *)
Theorem raw_body_on_the_wire this x net w p w1 :
  prepare this x w = (Ok p, w1) ->
  otruthy (p_json p) = false ->
  otruthy (p_form p) = false ->
  otruthy (p_body p) = true ->
  is_data (p_body p) = true ->
  let evs := calls w (snd (request this x net w)) in
  vget (wire_headers evs) "content-length"
  = VNum (Z.of_nat (length (Buffer_from (p_body p)))) /\
  wire_body evs = Buffer_from (p_body p) /\
  ((p_req p = ClientHttp2Stream ->
    payload_fields_spelled (plain (heap w1) (oget (p_opts p) "headers"))) ->
   fields (wire_headers evs) "content-length"
   = [VNum (Z.of_nat (length (Buffer_from (p_body p))))]).
Proof.
  intros Ep Hj Hf Hb _ evs.
  destruct (request_wire _ _ net _ _ _ Ep) as [Hh Hw]. subst evs. rewrite Hh, Hw.
  destruct (sent_by_send p w1) as (body & ct & -> & _ & Hbc).
  rewrite Hj, Hf, Hb in Hbc. injection Hbc as -> ->.
  destruct (send_body_calls (p_req p) (p_body p) None w1 Hb) as [_ ->].
  split; [|split].
  3:{ intros Hs.
      pose proof (untyped_payload_fields p _ (Z.of_nat (length (Buffer_from (p_body p))))
                    (Buffer_from (p_body p)) Hs) as Hty.
      cbv zeta in Hty. unfold creation, http2_headers. rewrite Hj, Hf, Hb.
      unfold Buffer_byteLength. destruct (p_req p); exact Hty. }
  all: unfold creation, http2_headers; rewrite ?Hj, ?Hf, ?Hb;
    destruct (p_req p); unfold wire_headers, wire_body, Buffer_byteLength; simpl; wire_lookup;
    by rewrite ?app_nil_r.
Qed.

(** X19: a request with a JSON payload (a truthy [json] option, which
    [JSON.stringify] turns into a non-empty text) goes out, on either
    transport, with exactly the bytes of the serialized payload as its
    body, and with [content-type: application/json] and [content-length],
    the number of those bytes, under these lower-case names; two requests
    with the same payload, one on HTTP/1.1 and one on HTTP/2, put the
    same bytes on the wire.  Header names being case-insensitive, these
    are its only content-type and content-length fields on HTTP/1.1,
    where [send] removes the field before it sets it; on HTTP/2 they are
    when the header map the request is created with spells the two names
    no other way, the block being built by assignment to the lower-case
    keys. *)
Theorem json_payload_on_the_wire this x net w p w1 :
  prepare this x w = (Ok p, w1) ->
  otruthy (p_json p) = true ->
  JSON_stringify (p_json p) <> "" ->
  let payload := utf8 (JSON_stringify (p_json p)) in
  let evs := calls w (snd (request this x net w)) in
  vget (wire_headers evs) "content-type" = VStr "application/json" /\
  vget (wire_headers evs) "content-length" = VNum (Z.of_nat (length payload)) /\
  wire_body evs = payload /\
  ((p_req p = ClientHttp2Stream ->
    payload_fields_spelled (plain (heap w1) (oget (p_opts p) "headers"))) ->
   fields (wire_headers evs) "content-type" = [VStr "application/json"] /\
   fields (wire_headers evs) "content-length" = [VNum (Z.of_nat (length payload))]) /\
  (forall this' x' net' w0 p' w0',
     prepare this' x' w0 = (Ok p', w0') ->
     p_json p' = p_json p ->
     wire_body (calls w0 (snd (request this' x' net' w0))) = wire_body evs).
Proof.
  intros Ep Hj Hne payload evs.
  destruct (json_wire _ _ net _ _ _ Ep Hj Hne) as (H1 & H2 & H3).
  split; [done|]. split; [done|]. split; [done|]. split.
  - intros Hs. subst evs.
    destruct (request_wire _ _ net _ _ _ Ep) as [Hh _]. rewrite Hh.
    destruct (sent_by_send p w1) as (body & ct & -> & _ & Hbc).
    rewrite Hj in Hbc. injection Hbc as -> ->.
    destruct (send_body_calls (p_req p) (OVal (VStr (JSON_stringify (p_json p))))
                (Some "application/json") w1 (truthy_text _ Hne)) as [_ ->].
    pose proof (typed_payload_fields p _ "application/json"
                  (Z.of_nat (length payload)) payload Hs) as Hty.
    cbv zeta in Hty. unfold creation, http2_headers. rewrite Hj.
    destruct (p_req p); exact Hty.
  - intros this' x' net' w0 p' w0' Ep' Hsame.
    rewrite <- Hsame in Hj, Hne.
    destruct (json_wire _ _ net' _ _ _ Ep' Hj Hne) as (_ & _ & H3').
    subst evs. rewrite H3, H3'. by rewrite Hsame.
Qed.

(** X9: a request with no payload (falsy [json], [form] and [body]) is
    ended without anything being written and without any header being
    set after its creation: its header fields are those it was created
    with. *)
Theorem no_payload_nothing_written this x net w p w1 :
  prepare this x w = (Ok p, w1) ->
  has_payload p = false ->
  let evs := calls w (snd (request this x net w)) in
  sent p w1 = [EvEnd] /\
  wire_body evs = [] /\
  wire_headers evs =
    wire_headers (creation p (plain (heap w1) (oget (p_opts p) "headers"))) /\
  (p_req p = ClientHttp2Stream ->
     wire_headers evs =
       Object_assign [(":path", VStr (pathname (p_url p)))]
         (plain (heap w1) (oget (p_opts p) "headers"))).
Proof.
  intros Ep Hp evs. unfold has_payload in Hp.
  apply orb_false_iff in Hp as [Hp Hb]. apply orb_false_iff in Hp as [Hj Hf].
  destruct (request_wire _ _ net _ _ _ Ep) as [Hh Hw]. subst evs. rewrite Hh, Hw.
  destruct (sent_by_send p w1) as (body & ct & Hs & _ & Hbc).
  rewrite Hj, Hf, Hb in Hbc. injection Hbc as -> ->.
  destruct (send_runs (p_req p) (OVal VUndef) None w1) as (r & evs & E & Hm).
  destruct (send_calls _ _ _ _ _ _ E) as [_ Hc]. rewrite Hc in Hs. clear E Hc.
  assert (evs = [EvEnd]) as -> by (destruct (p_req p); cbn in Hm; by destruct Hm).
  rewrite Hs. split; [done|]. split; [done|]. split.
  - by apply wire_headers_inert_end; repeat constructor.
  - intros Hr. rewrite wire_headers_inert_end by (by repeat constructor).
    unfold creation, http2_headers. rewrite Hr, Hj, Hf, Hb. reflexivity.
Qed.

(** ** The creation of the request (lines 138 and 148 to 169) *)

Lemma merge_search_keeps h url opts :
  protocol (merge_search h url opts) = protocol url /\
  origin (merge_search h url opts) = origin url /\
  pathname (merge_search h url opts) = pathname url.
Proof. unfold merge_search. by destruct (otruthy _). Qed.

Lemma prepare_url this x w p w1 :
  prepare this x w = (Ok p, w1) ->
  exists url,
    URL_parse (OToString (oget (options w) "url")) = Some url /\
    http_protocol (protocol url) = true /\
    protocol (p_url p) = protocol url /\
    origin (p_url p) = origin url /\
    pathname (p_url p) = pathname url.
Proof.
  intros Ep.
  apply prepare_inv in Ep as (url & wa & wb & opts & wc & wd & E1 & _ & _ & _ & _ & _ & ->).
  apply parse_url_inv in E1 as (Hu & Hp & _).
  exists url. cbn [p_url]. destruct (merge_search_keeps (heap wc) url opts) as (? & ? & ?).
  repeat split; done.
Qed.

(** The calls of [prepare]: calls that open no connection, then the
    creation of the request. *)
Lemma prepare_calls this x w p w1 :
  prepare this x w = (Ok p, w1) ->
  exists pre,
    calls w w1 = pre ++ creation p (plain (heap w1) (oget (p_opts p) "headers")) /\
    Forall (fun e => opens_socket e = false) pre.
Proof.
  intros Ep.
  pose proof (prepare_by_cases this x w) as Hp.
  destruct (resolved_options this x w) as [[opts|err] w0] eqn:Er;
    [|rewrite Ep in Hp; discriminate].
  destruct (lacks_mTLS_material x opts); [rewrite Ep in Hp; discriminate|].
  destruct Hp as (p' & w1' & Ep' & _ & Hc). rewrite Ep in Ep'. injection Ep' as <- <-.
  destruct (resolved_options_offline _ _ _ _ _ Er) as (pre & Hpre & Fpre).
  exists pre. split; [|by apply offline_closed].
  apply calls_app. by rewrite Hc, Hpre, app_assoc.
Qed.

Lemma Object_assign_lookup (t : obj) (hdrs : option obj) k :
  unique_keys (header_map hdrs) ->
  vget (Object_assign t hdrs) k =
    match prop_lookup (header_map hdrs) k with
    | Some v => v
    | None => vget t k
    end.
Proof.
  destruct hdrs as [s|]; cbn [header_map]; [|done]. intros Hu.
  destruct (prop_lookup s k) as [v|] eqn:El.
  - by apply Object_assign_copies.
  - by apply Object_assign_other.
Qed.



(** ** After the request is sent (lines 181 to 248) *)

Lemma incoming_header opts status hdrs k :
  k <> ":status" -> vget (headers (incoming opts status hdrs)) k = vget hdrs k.
Proof.
  intros Hk. unfold incoming. destruct (otruthy _); [|done].
  cbn [headers]. unfold vget. cbn [prop_lookup].
  by rewrite (proj2 (String.eqb_neq k ":status") Hk).
Qed.

(** X12: once a response has arrived and its body has been drained, an
    http2 stream and its session are closed, in that order, as the last
    host calls of the run, and on the http transport nothing more is
    called.  When the transport fails, before the response or while the
    body is read, the code makes no further call: the request is not
    destroyed and an http2 session is not closed. *)
Theorem stream_closed_after_drain this x net w p w1 u w2 :
  prepare this x w = (Ok p, w1) ->
  transmit p w1 = (Ok u, w2) ->
  let w' := snd (request this x net w) in
  (forall status hdrs, arrival net = Responded status hdrs -> stream_error net = None ->
     trace w' = trace w2 ++ (if otruthy (oget (p_opts p) "http2")
                             then [EvCloseStream; EvCloseSession] else [])) /\
  (forall status hdrs e, arrival net = Responded status hdrs ->
     stream_error net = Some e -> trace w' = trace w2) /\
  (forall e, arrival net = Errored e -> trace w' = trace w2).
Proof.
  intros Ep Et w'. subst w'. rewrite (request_trace _ _ _ _ _ _ Ep).
  split; [|split].
  - intros status hdrs Ea Es. rewrite (exchange_collected _ _ _ _ _ _ _ Et Ea Es).
    destruct (chunks net); [|destruct (decode_mode _)]; simpl; apply drained_trace.
  - intros status hdrs e Ea Es.
    by rewrite (exchange_stream_failed _ _ _ _ _ _ _ _ Et Ea Es).
  - intros e Ea. by rewrite (exchange_errored _ _ _ _ _ _ Et Ea).
Qed.

(** X13: a failure of the transport is re-thrown as it is.  When it
    comes while the body of a response is read, the error carries that
    response: its status code and headers as they arrived, and no
    [body].  When it comes before any response, the error carries no
    response and the nonce cache is left as it was. *)
Theorem transport_errors_carry_the_response this x net w p w1 u w2 :
  prepare this x w = (Ok p, w1) ->
  transmit p w1 = (Ok u, w2) ->
  (forall status hdrs e, arrival net = Responded status hdrs -> stream_error net = Some e ->
     exists r,
       fst (request this x net w) = Throw {| thrown := e; err_response := Some r |} /\
       statusCode r = VNum status /\
       (forall k, k <> ":status" -> vget (headers r) k = vget hdrs k) /\
       body r = NoBody) /\
  (forall e, arrival net = Errored e ->
     fst (request this x net w) = raise e /\
     nonces (snd (request this x net w)) = nonces w1).
Proof.
  intros Ep Et. split.
  - intros status hdrs e Ea Es. exists (incoming (p_opts p) status hdrs).
    rewrite (request_prepared _ _ _ _ _ _ Ep).
    rewrite (exchange_stream_failed _ _ _ _ _ _ _ _ Et Ea Es). cbn [fst snd on_rejected raise thrown].
    split; [done|]. split; [apply incoming_status|].
    split; [intros k Hk; by apply incoming_header | apply incoming_no_body].
  - intros e Ea.
    rewrite (request_nonces _ _ _ _ _ _ Ep), (request_prepared _ _ _ _ _ _ Ep).
    rewrite (exchange_errored _ _ _ _ _ _ Et Ea). cbn [fst snd on_rejected raise].
    split; [done|]. exact (transmit_keeps_nonces _ _ _ _ Et).
Qed.

(** X14: form fields that encode to the empty text (a truthy [form]
    such as [{}], with no JSON payload).  On the http transport the
    request goes out with the form content type and nothing is written.
    On the http2 transport [send] is given an empty body and a content
    type: it calls [removeHeader] on the stream, which has no such
    method, and the call fails with that TypeError, without a response,
    after the stream has been opened; nothing is sent, ended, closed or
    destroyed. *)
Theorem empty_form_over_http2_fails this x net w p w1 :
  prepare this x w = (Ok p, w1) ->
  otruthy (p_json p) = false ->
  otruthy (p_form p) = true ->
  querystring_stringify (p_form p) = "" ->
  let w' := snd (request this x net w) in
  (p_req p = ClientRequest ->
     sent p w1 = [EvRemoveHeader "content-type";
                  EvSetHeader "content-type" (VStr "application/x-www-form-urlencoded");
                  EvEnd] /\
     wire_body (calls w w') = []) /\
  (p_req p = ClientHttp2Stream ->
     fst (request this x net w) = raise (TypeError "req.removeHeader is not a function") /\
     trace w' = trace w1 /\
     connections (calls w w') = 1 /\
     nonces w' = nonces w1).
Proof.
  intros Ep Hj Hf He w'. subst w'.
  destruct (sent_by_send p w1) as (body & ct & Hs & Hr & Hbc).
  rewrite Hj, Hf, He in Hbc. injection Hbc as -> ->.
  destruct (send_runs (p_req p) (OVal (VStr "")) (Some "application/x-www-form-urlencoded") w1)
    as (r & evs & E & Hm).
  destruct (send_calls _ _ _ _ _ _ E) as [Hr' Hc]. rewrite Hr' in Hr. rewrite Hc in Hs.
  split; intros Hreq; rewrite Hreq in Hm; cbn in Hm; destruct Hm as [-> ->].
  - split; [done|].
    destruct (request_wire _ _ net _ _ _ Ep) as [_ Hw]. by rewrite Hw, Hs.
  - assert (transmit p w1 = (raise (TypeError "req.removeHeader is not a function"),
                             snd (transmit p w1))) as Et.
    { rewrite (surjective_pairing (transmit p w1)). by rewrite Hr. }
    pose proof (sent_trace p w1) as Htr. rewrite Hs, app_nil_r in Htr.
    split; [|split; [|split]].
    + rewrite (request_prepared _ _ _ _ _ _ Ep), (exchange_unsent _ _ _ _ _ Et). done.
    + rewrite (request_trace _ _ _ _ _ _ Ep), (exchange_unsent _ _ _ _ _ Et). done.
    + destruct (request_stages this x net w)
        as (a & b & c & d & e & -> & Fa & _ & Fb & _ & _ & Hcon & Fd & Fe & _).
      rewrite !connections_app, Hcon, Ep.
      rewrite (connections_other 0 a), (connections_other 1 b),
        (connections_other 3 d), (connections_other 4 e) by done.
      reflexivity.
    + rewrite (request_nonces _ _ _ _ _ _ Ep), (exchange_unsent _ _ _ _ _ Et).
      cbn [fst snd]. exact (transmit_keeps_nonces _ _ _ _ Et).
Qed.

(** ** The nonce cache (lines 66, 107 and 243 to 248) *)

Lemma defaultsDeep_keeps_nonces t srcs : respects (keeps nonces) (defaultsDeep t srcs).
Proof. unfold defaultsDeep. by_steps. Qed.

Lemma alloc_lobj_keeps_nonces o : respects (keeps nonces) (alloc_lobj o).
Proof. induction o as [|[k [v|f|l]] o IH]; simpl; by_steps. Qed.

Lemma assign_keeps_nonces t k v : respects (keeps nonces) (assign t k v).
Proof. unfold assign. by_steps. Qed.

Lemma strip_headers_keeps_nonces o : respects (keeps nonces) (strip_headers o).
Proof. unfold strip_headers. by_steps. Qed.

Lemma parse_url_keeps_nonces : respects (keeps nonces) parse_url.
Proof. unfold parse_url. by_steps. Qed.

Lemma open_request_keeps_nonces url o j f b :
  respects (keeps nonces) (open_request url o j f b).
Proof. unfold open_request. by_steps. Qed.

Lemma call_hook_keeps_nonces f url m : respects (keeps nonces) (call_hook f url m).
Proof.
  intros w r w' E. unfold call_hook in E.
  by destruct (f url m (heap w)) as [ws [r0|e]]; injection E as <- <-.
Qed.

#[local] Hint Resolve defaultsDeep_keeps_nonces alloc_lobj_keeps_nonces
  assign_keeps_nonces strip_headers_keeps_nonces parse_url_keeps_nonces
  open_request_keeps_nonces call_hook_keeps_nonces : stepwise.

Lemma merge_options_keeps_nonces this url : respects (keeps nonces) (merge_options this url).
Proof. unfold merge_options. by_steps. Qed.

#[local] Hint Resolve merge_options_keeps_nonces : stepwise.

Lemma resolve_keeps_nonces this x url k : respects (keeps nonces) (resolve this x url k).
Proof. unfold resolve. by_steps. Qed.

Lemma prop_delete_length {A} (c : list (string * A)) k :
  length (prop_delete c k) <= length c.
Proof.
  induction c as [|[k' v'] c IH]; simpl; [lia|].
  destruct (String.eqb k k'); simpl; lia.
Qed.

Lemma prop_delete_shrinks {A} (c : list (string * A)) k v :
  prop_lookup c k = Some v -> length (prop_delete c k) < length c.
Proof.
  induction c as [|[k' v'] c IH]; simpl; [done|].
  destruct (String.eqb k k').
  - intros _. pose proof (prop_delete_length c k). lia.
  - intros E. specialize (IH E). simpl. lia.
Qed.

Lemma prop_delete_Forall {A} (P : string * A -> Prop) c k :
  Forall P c -> Forall P (prop_delete c k).
Proof.
  induction 1 as [|[k' v'] c Hc _ IH]; simpl; [constructor|].
  destruct (String.eqb k k'); [done | by constructor].
Qed.

Lemma lru_get_ok c k : cache_ok c -> cache_ok (snd (lru_get c k)).
Proof.
  intros [F L]. unfold lru_get.
  destruct (prop_lookup c k) as [v|] eqn:E; [|done]. cbn [snd]. split.
  - constructor; [|by apply prop_delete_Forall].
    apply prop_lookup_In, list_elem_of_In in E.
    rewrite Forall_forall in F. exact (F _ E).
  - pose proof (prop_delete_shrinks _ _ _ E). simpl. lia.
Qed.

Lemma lru_set_ok c k v : cache_ok c -> cacheable v = true -> cache_ok (lru_set c k v).
Proof.
  intros [F L] Hv. split; [|apply lru_set_bounded].
  unfold lru_set. apply Forall_take. constructor; [done | by apply prop_delete_Forall].
Qed.

Lemma keeps_nonces_ok {A} (m : M A) :
  respects (keeps nonces) m -> respects keeps_cache_ok m.
Proof.
  intros Hm w r w' E Hc. specialize (Hm _ _ _ E). unfold keeps in Hm. by rewrite Hm.
Qed.

Lemma inject_proof_keeps_cache_ok this x url key :
  respects keeps_cache_ok (inject_proof this x url key).
Proof.
  intros wa r wb E Hc.
  destruct (otruthy (DPoP x)) eqn:Hd; [destruct (dpopProof this) as [prove|] eqn:Hp|].
  - rewrite (inject_proof_runs _ _ _ _ _ _ Hd Hp) in E.
    unfold proof_request in E. cbv zeta in E.
    destruct (prove _ _ _) as [proof|e].
    + apply assign_keeps_nonces in E. unfold keeps in E. rewrite E. cbn [nonces].
      by apply lru_get_ok.
    + injection E as <- <-. cbn [nonces]. by apply lru_get_ok.
  - rewrite inject_proof_skipped in E by (by right). by injection E as <- <-.
  - rewrite inject_proof_skipped in E by (by left). by injection E as <- <-.
Qed.

Lemma prepare_keeps_cache_ok this x : respects keeps_cache_ok (prepare this x).
Proof.
  unfold prepare.
  apply respects_bind; [typeclasses eauto | apply keeps_nonces_ok, parse_url_keeps_nonces |].
  intros url. cbv zeta.
  apply respects_bind; [typeclasses eauto | apply inject_proof_keeps_cache_ok |].
  intros _. apply keeps_nonces_ok, resolve_keeps_nonces.
Qed.

(** X15: the nonce cache holds only values that pass the test of the
    completion step (truthy, and made of [NQCHAR] characters), and never
    more than 100 entries: a call, whatever its arguments and its
    outcome, keeps both. *)
Theorem nonce_cache_stays_valid this x net w :
  cache_ok (nonces w) -> cache_ok (nonces (snd (request this x net w))).
Proof.
  intros Hc.
  destruct (prepare this x w) as [[p|e] w1] eqn:Ep.
  - pose proof (prepare_keeps_cache_ok _ _ _ _ _ Ep Hc) as H1.
    rewrite (request_nonces _ _ _ _ _ _ Ep), exchange_keeps_nonces.
    destruct (fst (fst (exchange p net w1))) as [r|]; [|done].
    destruct (cacheable _) eqn:Hv; [by apply lru_set_ok | done].
  - rewrite (request_rejected _ _ _ _ _ _ Ep). cbn [snd].
    exact (prepare_keeps_cache_ok _ _ _ _ _ Ep Hc).
Qed.

(** ** Proof injection (lines 101 to 112) *)

Lemma parse_url_options w url :
  URL_parse (OToString (oget (options w) "url")) = Some url ->
  options (snd (parse_url w)) = prop_delete (options w) "url".
Proof.
  intros E. unfold parse_url, bind, read, set_options, ret, throw. rewrite E. cbn.
  by destruct (http_protocol (protocol url)).
Qed.

Lemma inject_proof_keeps_options_skipped this x url key wa :
  otruthy (DPoP x) = false \/ dpopProof this = None ->
  snd (inject_proof this x url key wa) = wa.
Proof. intros Hs. by rewrite inject_proof_skipped. Qed.

(** X16: when proof-of-possession is not requested ([DPoP] is falsy),
    or the client has no [dpopProof] capability, no proof is asked for at
    any point of the call, the nonce cache is not read (the order of its
    entries stays as it is until the completion step), and the caller's
    options lose their [url], once it has parsed, and nothing else: no
    [headers] object is put on them. *)
Theorem proof_skipped_without_capability this x net w :
  otruthy (DPoP x) = false \/ dpopProof this = None ->
  let w' := snd (request this x net w) in
  Forall (fun e => stage e <> 0) (calls w w') /\
  nonces (snd (prepare this x w)) = nonces w /\
  (forall url, URL_parse (OToString (oget (options w) "url")) = Some url ->
     options w' = prop_delete (options w) "url").
Proof.
  intros Hs w'. subst w'. split; [|split].
  - destruct (request_stages this x net w)
      as (a & b & c & d & e & -> & _ & _ & Fb & _ & Fc & _ & Fd & Fe & Ha).
    rewrite (Ha Hs). cbn [app].
    repeat apply Forall_app_2;
      (eapply Forall_impl; [eassumption|]); intros ev Hev;
      unfold at_stage in Hev; apply Nat.eqb_eq in Hev; lia.
  - unfold prepare.
    destruct (parse_url w) as [[url|err] wa] eqn:E1;
      [rewrite (bind_ok _ _ _ _ _ E1) | rewrite (bind_throw _ _ _ _ _ E1)];
      pose proof (parse_url_keeps_nonces _ _ _ E1) as Hn; unfold keeps in Hn; [|done].
    cbv zeta. rewrite (bind_ok _ _ _ _ wa (inject_proof_skipped _ _ _ _ _ Hs)).
    rewrite <- Hn.
    exact (resolve_keeps_nonces _ _ _ _ _ _ _ (surjective_pairing _)).
  - intros url Hu.
    destruct (request_world this x net w) as [_ ->].
    rewrite <- (parse_url_options _ _ Hu). unfold prepare.
    destruct (parse_url w) as [[url'|err] wa] eqn:E1;
      [rewrite (bind_ok _ _ _ _ _ E1) | by rewrite (bind_throw _ _ _ _ _ E1)].
    cbv zeta. rewrite (bind_ok _ _ _ _ wa (inject_proof_skipped _ _ _ _ _ Hs)).
    cbn [snd].
    exact (resolve_keeps_options _ _ _ _ _ _ _ (surjective_pairing _)).
Qed.

(** X17: when the proof capability throws, the call fails with that
    error, without a response; the capability is the only host call made
    (the hook is not called and no connection is opened).  The caller's
    options have by then been given a [headers] object if they had
    none. *)
Theorem failing_capability_aborts this x net w url prove e :
  URL_parse (OToString (oget (options w) "url")) = Some url ->
  http_protocol (protocol url) = true ->
  otruthy (DPoP x) = true ->
  dpopProof this = Some prove ->
  let key := (origin url ++ pathname url)%string in
  let payload :=
    {| htu := key; htm := oget (options w) "method";
       nonce := lru_peek (nonces w) key |} in
  prove payload (DPoP x) (accessToken x) = Throws e ->
  let w' := snd (request this x net w) in
  fst (request this x net w) = raise e /\
  calls w w' = [EvDpopProof payload (DPoP x) (accessToken x)] /\
  otruthy (oget (options w') "headers") = true.
Proof.
  intros Hu Hp Hd Hc key payload He w'. subst w'.
  pose proof (parse_url_ok _ _ Hu Hp) as E1.
  set (wa := {| heap := heap w; DEFAULT_HTTP_OPTIONS := DEFAULT_HTTP_OPTIONS w;
                nonces := nonces w; trace := trace w;
                options := prop_delete (options w) "url" |}) in E1.
  pose proof (inject_proof_runs this x url key wa prove Hd Hc) as E2.
  pose proof (proof_request_payload x url key wa) as Hpay.
  destruct (proof_request x url key wa) as [[hs pl] wb] eqn:Epr.
  cbn [fst snd] in Hpay. cbv beta iota in E2.
  assert (pl = payload) as ->.
  { rewrite Hpay. subst payload wa. cbn [options nonces].
    by rewrite oget_delete_ne by discriminate. }
  rewrite He in E2.
  assert (prepare this x w = (raise e, wb)) as Ep.
  { unfold prepare. rewrite (bind_ok _ _ _ _ _ E1). cbv zeta.
    by rewrite (bind_throw _ _ _ _ _ E2). }
  rewrite (request_rejected _ _ _ _ _ _ Ep). cbn [fst snd].
  pose proof (f_equal snd Epr) as Ewb. cbn [snd] in Ewb. rewrite <- Ewb.
  unfold proof_request. cbv zeta. cbn [snd trace options].
  split; [done|]. split.
  - apply calls_app. subst wa. cbn [trace options nonces]. f_equal. f_equal.
    subst payload. f_equal.
    rewrite oget_set_ne, oget_delete_ne by discriminate. by rewrite lru_get_peek.
  - rewrite oget_set_eq.
    by destruct (otruthy (oget (options wa) "headers")) eqn:Eh.
Qed.

(** ** [NQCHAR] (line 19) *)

Lemma nqchar_printable c : nqchar c = printable_unquoted c.
Proof. by destruct c as [[] [] [] [] [] [] [] []]. Qed.

(** X18: [NQCHAR] accepts exactly the non-empty strings of printable
    ASCII characters other than the space, the double quote and the
    backslash; in particular it rejects the empty string, and a string
    is accepted exactly when each of its characters is, so that no part
    of an accepted value holds a separator or a control character. *)
Theorem NQCHAR_printable_unquoted s :
  (NQCHAR_test s = true <->
     s <> "" /\
     Forall (fun c => printable_unquoted c = true) (list_ascii_of_string s)) /\
  NQCHAR_test "" = false /\
  (forall s', s <> "" -> s' <> "" ->
     NQCHAR_test (s ++ s') = NQCHAR_test s && NQCHAR_test s').
Proof.
  assert (forall t, t <> "" -> NQCHAR_test t = forallb nqchar (list_ascii_of_string t)) as Hne.
  { intros t Ht. unfold NQCHAR_test. destruct t; [done|]. reflexivity. }
  split; [|split; [done|]].
  - destruct (String.eqb_spec s "") as [->|Hs].
    + split; [done | by intros [? _]].
    + rewrite (Hne _ Hs), forallb_forall, Forall_forall. split.
      * intros Ha. split; [done|]. intros c Hc. rewrite <- nqchar_printable.
        by apply Ha, list_elem_of_In.
      * intros [_ Ha] c Hc. rewrite nqchar_printable. by apply Ha, list_elem_of_In.
  - intros s' Hs Hs'.
    assert (s ++ s' <> "")%string as Hss by (destruct s; [done | discriminate]).
    rewrite (Hne _ Hs), (Hne _ Hs'), (Hne _ Hss).
    rewrite <- forallb_app. f_equal.
    clear. induction s as [|c s IH]; simpl; [done | by rewrite IH].
Qed.

End More.

(** * The properties on example runs *)

Section Runs.
Import Scenario.
#[local] Existing Instance Reference.host.

(** An unsupported mode with a non-empty body: the error comes after the
    exchange, with the response attached. *)
Lemma unsupported_mode_witness :
  exists p w1 w2,
    prepare plain_client no_extras (calling text_options []) = (Ok p, w1) /\
    transmit p w1 = (Ok tt, w2) /\
    fst (request plain_client no_extras (replies 200 [] [utf8 "hi"])
           (calling text_options [])) =
      Throw {| thrown := unsupported_responseType;
               err_response := Some (incoming (p_opts p) 200 []) |}.
Proof.
  eexists _, _, _.
  split; [vm_compute; reflexivity|]. split; [vm_compute; reflexivity|].
  refine (proj1 (proj2 (unsupported_mode_checked_after_collection
            plain_client no_extras (replies 200 [] [utf8 "hi"])
            (calling text_options []) _ _ tt _ 200 [] _ _ _ _ _)) _);
    try (vm_compute; reflexivity).
  discriminate.
Defined.

(** The claim C1 fails: with [responseType: 'text'] the request is sent
    (a socket is opened) whatever the body will be, and when the body is
    empty the call does not fail at all. *)
Lemma unsupported_mode_counterexample :
  decode_mode (oget text_options "responseType") = None /\
  (exists r w', request plain_client no_extras (replies 200 [] [])
                  (calling text_options []) = (Ok r, w') /\
                existsb opens_socket (trace w') = true) /\
  (exists e w', request plain_client no_extras (replies 200 [] [utf8 "hi"])
                  (calling text_options []) = (Throw e, w') /\
                existsb opens_socket (trace w') = true).
Proof.
  split; [reflexivity|].
  split; eexists _, _; (split; [vm_compute; reflexivity|]); vm_compute; reflexivity.
Qed.

(** Invalid JSON in "json" mode. *)
Lemma json_decode_failure_witness :
  exists p w1 r w',
    prepare plain_client no_extras (calling json_options []) = (Ok p, w1) /\
    request plain_client no_extras (replies 200 [] [utf8 "{oops"])
      (calling json_options []) = (Ok r, w') /\
    get_body r =
      (Throw {| thrown := SyntaxError;
                err_response := Some (define_body r (Data (VBuf (utf8 "{oops")))) |},
       define_body r (Data (VBuf (utf8 "{oops")))).
Proof.
  eexists _, _, _, _.
  split; [vm_compute; reflexivity|]. split; [vm_compute; reflexivity|].
  refine (proj1 (json_decode_failure_keeps_raw_bytes
            plain_client no_extras (replies 200 [] [utf8 "{oops"])
            (calling json_options []) _ _ _ _ _ _ _ _ _));
    try (vm_compute; reflexivity).
  discriminate.
Defined.

(** The claim C2 fails: after the failed read the [body] property is not
    backed by the getter any more; it holds the raw bytes, and a second
    read returns them instead of throwing. *)
Lemma json_decode_failure_counterexample :
  exists r w' e r1,
    request plain_client no_extras (replies 200 [] [utf8 "{oops"])
      (calling json_options []) = (Ok r, w') /\
    getter_backed r = true /\
    get_body r = (Throw e, r1) /\
    getter_backed r1 = false /\
    body r1 = Data (VBuf (utf8 "{oops")) /\
    get_body r1 = (Ok (VBuf (utf8 "{oops")), r1).
Proof.
  eexists _, _, _, _. repeat (split; [vm_compute; reflexivity|]).
  vm_compute; reflexivity.
Qed.


(** The hook sets [timeout] to 1000 and the caller to 5000: the merged
    options have the hook's value; the hook's [responseType], which is
    not on the allow-list, is ignored.  The header map of the merged
    options is the one the hook made, filled in: [X-Trace] is the hook's,
    [Accept] the caller's and [User-Agent] the default. *)
Lemma hook_result_overrides_witness :
  let w := calling [("timeout", OVal (VNum 5000)); ("headers", ORef 1)] [tuned_headers] in
  exists opts w' ws r L,
    merge_options hook_client example_url w = (Ok opts, w') /\
    hook_answer hook_client example_url w = Some (ws, Returns r) /\
    oget opts "timeout" = OVal (VNum 1000) /\
    oget opts "responseType" = OVal VUndef /\
    oget opts "headers" = ORef L /\
    header_of (heap w') (ORef L) "X-Trace" = VStr "on" /\
    header_of (heap w') (ORef L) "Accept" = VStr "application/json" /\
    header_of (heap w') (ORef L) "User-Agent" =
      header_of (heap w) (source_get (DEFAULT_HTTP_OPTIONS w) "headers") "User-Agent" /\
    header_of (heap w') (ORef L) "User-Agent" <> VUndef.
Proof.
  intros w. subst w. eexists _, _, _, _, _.
  split; [vm_compute; reflexivity|]. split; [vm_compute; reflexivity|].
  edestruct (hook_result_overrides_call_options hook_client example_url
               (calling [("timeout", OVal (VNum 5000)); ("headers", ORef 1)]
                  [tuned_headers]))
    as (user & Hshape & Hout & _ & Hin & Hdeep);
    [compute_done | compute_done | vm_compute; reflexivity |].
  assert (hook_answer hook_client example_url
            (calling [("timeout", OVal (VNum 5000)); ("headers", ORef 1)] [tuned_headers])
          = Some ([], Returns [("timeout", LVal (VNum 1000));
                                ("headers", LObj [("X-Trace", VStr "on")]);
                                ("responseType", LVal (VStr "json"))])) as Hans
    by (vm_compute; reflexivity).
  assert (forall k' l, user k' = ORef l -> k' = "headers") as Hflat.
  { intros k' l Hk.
    destruct (decide (k' ∈ allowed)) as [Hal|Hnal];
      [|rewrite (Hout k' Hnal) in Hk; discriminate].
    pose proof (Hin _ _ k' Hans Hal) as Hc.
    unfold allowed in Hal. rewrite !elem_of_cons, elem_of_nil in Hal.
    repeat destruct Hal as [->|Hal]; try done; cbn in Hc;
      try congruence; destruct Hc; congruence. }
  pose proof (Hin _ _ "headers" Hans ltac:(compute_done)) as Hc.
  cbn in Hc. destruct Hc as (l & o & Hul & Hol & Hf & _).
  vm_compute in Hol. injection Hol as <-.
  unshelve epose proof
    (fun k => Hdeep 2 [("X-Trace", VStr "on")] k Hflat _ _ _ _ Hf) as Hmap.
  { apply flat_check. vm_compute; reflexivity. }
  { apply flat_check. vm_compute; reflexivity. }
  { apply well_keyed_check. vm_compute; reflexivity. }
  { vm_compute; reflexivity. }
  rewrite Hul in Hmap.
  split.
  - pose proof (Hin _ _ "timeout" Hans ltac:(compute_done)) as Ht.
    vm_compute in Ht. apply Ht. reflexivity.
  - split.
    { rewrite (Hshape "responseType") by (vm_compute; reflexivity).
      rewrite (Hout "responseType") by compute_done. vm_compute. reflexivity. }
    split; [vm_compute; reflexivity|].
    split; [etransitivity; [exact (Hmap "X-Trace" eq_refl) | vm_compute; reflexivity]|].
    split; [etransitivity; [exact (Hmap "Accept" eq_refl) | vm_compute; reflexivity]|].
    split; [etransitivity; [exact (Hmap "User-Agent" eq_refl) | vm_compute; reflexivity]|].
    vm_compute. discriminate.
Defined.

(** The claim C3 fails: the caller passes [timeout: 5000], the hook
    returns [timeout: 1000], and the request is made with 1000. *)
Lemma hook_beats_caller_counterexample :
  exists p w1,
    prepare hook_client no_extras (calling tuned_options [tuned_headers]) = (Ok p, w1) /\
    oget tuned_options "timeout" = OVal (VNum 5000) /\
    oget (p_opts p) "timeout" = OVal (VNum 1000).
Proof.
  eexists _, _. repeat (split; [vm_compute; reflexivity|]).
  vm_compute; reflexivity.
Qed.

(** A response carrying [dpop-nonce: abc123], and one carrying
    [bad nonce]. *)
Lemma nonce_cached_witness :
  exists p w1 w2,
    prepare plain_client no_extras (calling dpop_options []) = (Ok p, w1) /\
    transmit p w1 = (Ok tt, w2) /\
    lru_peek
      (nonces (snd (request plain_client no_extras
                      (replies 401 [("dpop-nonce", VStr "abc123")] [])
                      (calling dpop_options []))))
      (p_nonceKey p) = VStr "abc123" /\
    nonces (snd (request plain_client no_extras
                   (replies 401 [("dpop-nonce", VStr "bad nonce")] [])
                   (calling dpop_options []))) = nonces w1.
Proof.
  eexists _, _, _.
  split; [vm_compute; reflexivity|]. split; [vm_compute; reflexivity|].
  split.
  - edestruct (nonce_cached_once_per_attempt plain_client no_extras
                 (replies 401 [("dpop-nonce", VStr "abc123")] [])
                 (calling dpop_options [])) as (_ & _ & Hpeek & _);
      [vm_compute; reflexivity | vm_compute; reflexivity | vm_compute; reflexivity |].
    apply Hpeek. vm_compute; reflexivity.
  - edestruct (nonce_cached_once_per_attempt plain_client no_extras
                 (replies 401 [("dpop-nonce", VStr "bad nonce")] [])
                 (calling dpop_options [])) as (_ & _ & _ & Hbad);
      [vm_compute; reflexivity | vm_compute; reflexivity | vm_compute; reflexivity |].
    apply (Hbad "bad nonce"); [vm_compute; reflexivity|].
    apply Exists_exists. exists " "%char. split; [|reflexivity].
    vm_compute. do 3 right. by left.
Defined.



(** A server that never answers within the default timeout. *)
Lemma timeout_witness :
  exists p w1 w2,
    prepare plain_client no_extras (calling (post_options true) []) = (Ok p, w1) /\
    transmit p w1 = (Ok tt, w2) /\
    thrown_by (fst (request plain_client no_extras silence
                      (calling (post_options true) []))) =
      Some (RPError ("outgoing request timed out after " ++ pretty 3500%Z ++ "ms")) /\
    trace (snd (request plain_client no_extras silence (calling (post_options true) [])))
    = trace w2 ++ [EvDestroy].
Proof.
  eexists _, _, _.
  split; [vm_compute; reflexivity|]. split; [vm_compute; reflexivity|].
  edestruct (timeout_destroys_and_raises plain_client no_extras silence
               (calling (post_options true) []))
    as (_ & Hms & Htrace & _);
    [vm_compute; reflexivity | vm_compute; reflexivity | reflexivity |].
  split; [apply Hms; vm_compute; reflexivity | exact Htrace].
Defined.


(** A relative URL, and a successful exchange. *)
Lemma url_validated_witness :
  absolute_http_url [("url", OVal (VStr "/token"))] = false /\
  fst (request plain_client no_extras (replies 200 [] [])
         (calling [("url", OVal (VStr "/token"))] [])) = raise invalid_url /\
  trace (snd (request plain_client no_extras (replies 200 [] [])
                (calling [("url", OVal (VStr "/token"))] [])))
  = trace (calling [("url", OVal (VStr "/token"))] []) /\
  exists r, fst (request plain_client no_extras (replies 204 [] [])
                   (calling text_options [])) = Ok r /\
            statusCode r = VNum 204.
Proof.
  split; [vm_compute; reflexivity|].
  destruct (url_validated_before_dispatch plain_client no_extras (replies 200 [] [])
              (calling [("url", OVal (VStr "/token"))] [])) as (Hbad & _).
  destruct Hbad as (Hres & Htr & _); [vm_compute; reflexivity|].
  split; [exact Hres|]. split; [exact Htr|].
  destruct (url_validated_before_dispatch plain_client no_extras (replies 204 [] [])
              (calling text_options [])) as (_ & Hgood & _).
  edestruct Hgood as (_ & r & Hr & Hs);
    [vm_compute; reflexivity | vm_compute; reflexivity | reflexivity | reflexivity
    | by left |].
  exists r. by split.
Defined.

(** Reading a JSON body three more times after the first read. *)
Lemma body_decoded_once_witness :
  let r := {| statusCode := VNum 200; headers := [];
              body := Getter ModeJson [utf8 (Reference.stringify (JObj [("a", JNum 1)]))] |} in
  let v := VJson (JObj [("a", JNum 1)]) in
  get_body r = (Ok v, define_body r (Data v)) /\
  read_body 3 (define_body r (Data v)) = ([Ok v; Ok v; Ok v], 0, define_body r (Data v)) /\
  snd (fst (read_body 4 r)) <= 1.
Proof.
  intros r v.
  destruct (body_decoded_at_most_once r) as (Hcount & _ & Hstable).
  assert (get_body r = (Ok v, define_body r (Data v))) as Hget
    by (vm_compute; reflexivity).
  split; [exact Hget|]. split; [exact (Hstable v _ Hget 3) | exact (Hcount 4)].
Defined.




(** ** The further properties on example runs *)

(** A body sent on an http request, with a content type. *)
Lemma send_witness :
  let w := calling bare_options [] in
  fst (send ClientRequest (OVal (VStr "a=1")) (Some "text/plain") w) = Ok tt /\
  wire_body (calls w (snd (send ClientRequest (OVal (VStr "a=1")) (Some "text/plain") w)))
  = utf8 "a=1" /\
  vget (wire_headers
          (calls w (snd (send ClientRequest (OVal (VStr "a=1")) (Some "text/plain") w))))
    "content-length" = VNum 3.
Proof.
  cbv zeta.
  destruct (send_writes_then_ends ClientRequest (OVal (VStr "a=1")) (Some "text/plain")
              (calling bare_options [])) as [_ Hok]; [discriminate | reflexivity |].
  destruct Hok as (Hr & Hb & _ & Hl & _); [intros (Hq & _); discriminate|].
  split; [exact Hr|]. split; [rewrite Hb; vm_compute; reflexivity|].
  unfold wire_headers. rewrite Hl by reflexivity. vm_compute; reflexivity.
Defined.

(** [state] is replaced, [nonce] is added, [scope] and [ui] stay; the
    elements of an array go under their indices. *)
Lemma search_parameters_witness :
  otruthy (oget search_options "searchParams") = true /\
  searchParams (merge_search [] search_url search_options) =
    [("scope", "openid"); ("ui", "page"); ("state", "new"); ("nonce", "n1")] /\
  searchParams
    (merge_search [] search_url
       [("searchParams", OVal (VJson (JArr [JStr "a"; JNum 2])))]) =
    [("scope", "openid"); ("state", "old"); ("ui", "page"); ("0", "a"); ("1", "2")].
Proof.
  split; [reflexivity|].
  destruct (search_parameters_replace [] search_url search_options) as [_ Hm].
  destruct Hm as [Hs _]; [reflexivity | compute_done |].
  destruct (search_parameters_replace [] search_url
              [("searchParams", OVal (VJson (JArr [JStr "a"; JNum 2])))]) as [_ Hm'].
  destruct Hm' as [Hs' _]; [reflexivity | compute_done |].
  split; [rewrite Hs | rewrite Hs']; vm_compute; reflexivity.
Defined.

(** A JSON body, read in "json" mode. *)
Lemma body_decoded_witness :
  let text := utf8 (Reference.stringify (JObj [("a", JNum 1)])) in
  exists p w1 r w',
    prepare plain_client no_extras (calling json_options []) = (Ok p, w1) /\
    request plain_client no_extras (replies 200 [] [text]) (calling json_options [])
      = (Ok r, w') /\
    fst (get_body r) = Ok (VJson (JObj [("a", JNum 1)])).
Proof.
  cbv zeta. eexists _, _, _, _.
  split; [vm_compute; reflexivity|]. split; [vm_compute; reflexivity|].
  edestruct (body_decoded_on_read plain_client no_extras
               (replies 200 [] [utf8 (Reference.stringify (JObj [("a", JNum 1)]))])
               (calling json_options [])) as (_ & _ & Hj);
    [vm_compute; reflexivity | vm_compute; reflexivity |].
  rewrite (Hj (JObj [("a", JNum 1)]));
    [reflexivity | discriminate | vm_compute; reflexivity | vm_compute; reflexivity].
Defined.

(** Mutual TLS without any material. *)
Lemma mTLS_witness :
  mTLS mtls_extras = true /\
  fst (request plain_client mtls_extras (replies 200 [] []) (calling bare_options []))
  = raise mTLS_missing.
Proof.
  split; [reflexivity|].
  destruct (mTLS_material_required plain_client mtls_extras (replies 200 [] [])
              (calling bare_options []) eq_refl) as [Hfail _].
  edestruct Hfail as [Hr _];
    [vm_compute; reflexivity | vm_compute; reflexivity | vm_compute; reflexivity |].
  rewrite Hr. reflexivity.
Defined.

(** Form fields, on http and on http2; the [body] option is ignored. *)
Lemma form_payload_witness :
  exists p w1 p2 w2,
    prepare plain_client no_extras (calling (form_options false) []) = (Ok p, w1) /\
    prepare plain_client no_extras (calling (form_options true) []) = (Ok p2, w2) /\
    p_req p = ClientRequest /\ p_req p2 = ClientHttp2Stream /\
    let evs := calls (calling (form_options false) [])
                 (snd (request plain_client no_extras (replies 200 [] [])
                         (calling (form_options false) []))) in
    let evs2 := calls (calling (form_options true) [])
                  (snd (request plain_client no_extras (replies 200 [] [])
                          (calling (form_options true) []))) in
    fields (wire_headers evs) "content-type" = [VStr "application/x-www-form-urlencoded"] /\
    fields (wire_headers evs2) "content-type" = [VStr "application/x-www-form-urlencoded"] /\
    fields (wire_headers evs2) "content-length" = [VNum 24] /\
    wire_body evs = utf8 "grant_type=refresh_token" /\
    wire_body evs2 = utf8 "grant_type=refresh_token".
Proof.
  eexists _, _, _, _.
  split; [vm_compute; reflexivity|]. split; [vm_compute; reflexivity|].
  split; [reflexivity|]. split; [reflexivity|].
  edestruct (form_payload_on_the_wire plain_client no_extras (replies 200 [] [])
               (calling (form_options false) []))
    as (_ & _ & Hb & Hf);
    [vm_compute; reflexivity | vm_compute; reflexivity | vm_compute; reflexivity
    | vm_compute; discriminate |].
  edestruct (form_payload_on_the_wire plain_client no_extras (replies 200 [] [])
               (calling (form_options true) []))
    as (_ & _ & Hb2 & Hf2);
    [vm_compute; reflexivity | vm_compute; reflexivity | vm_compute; reflexivity
    | vm_compute; discriminate |].
  destruct Hf as [Hct _]; [discriminate|].
  destruct Hf2 as [Hct2 Hcl2];
    [intros _; apply payload_fields_check; vm_compute; reflexivity|].
  cbv zeta. split; [exact Hct|]. split; [exact Hct2|].
  split; [rewrite Hcl2; vm_compute; reflexivity|].
  split; [rewrite Hb | rewrite Hb2]; vm_compute; reflexivity.
Defined.

(** A raw body on http2. *)
Lemma raw_body_witness :
  exists p w1,
    prepare plain_client no_extras (calling (body_options true) []) = (Ok p, w1) /\
    let evs := calls (calling (body_options true) [])
                 (snd (request plain_client no_extras (replies 200 [] [])
                         (calling (body_options true) []))) in
    fields (wire_headers evs) "content-length" = [VNum 3] /\
    wire_body evs = utf8 "a=1".
Proof.
  eexists _, _. split; [vm_compute; reflexivity|].
  edestruct (raw_body_on_the_wire plain_client no_extras (replies 200 [] [])
               (calling (body_options true) []))
    as (_ & Hb & Hf);
    [vm_compute; reflexivity | vm_compute; reflexivity | vm_compute; reflexivity
    | vm_compute; reflexivity | vm_compute; reflexivity |].
  cbv zeta. split; [|rewrite Hb; vm_compute; reflexivity].
  rewrite Hf; [vm_compute; reflexivity|].
  intros _. apply payload_fields_check. vm_compute; reflexivity.
Defined.

(** The payload [{x: 1}] over HTTP/1.1 and over HTTP/2. *)
Lemma json_payload_witness :
  exists p w1 p2 w2,
    prepare plain_client no_extras (calling (post_options false) []) = (Ok p, w1) /\
    prepare plain_client no_extras (calling (post_options true) []) = (Ok p2, w2) /\
    p_req p = ClientRequest /\ p_req p2 = ClientHttp2Stream /\
    let evs := calls (calling (post_options false) [])
                 (snd (request plain_client no_extras (replies 200 [] [])
                         (calling (post_options false) []))) in
    let evs2 := calls (calling (post_options true) [])
                  (snd (request plain_client no_extras (replies 200 [] [])
                          (calling (post_options true) []))) in
    fields (wire_headers evs) "content-type" = [VStr "application/json"] /\
    fields (wire_headers evs) "content-length" = [VNum 7] /\
    fields (wire_headers evs2) "content-type" = [VStr "application/json"] /\
    fields (wire_headers evs2) "content-length" = [VNum 7] /\
    wire_body evs2 = wire_body evs.
Proof.
  eexists _, _, _, _.
  split; [vm_compute; reflexivity|]. split; [vm_compute; reflexivity|].
  split; [reflexivity|]. split; [reflexivity|].
  edestruct (json_payload_on_the_wire plain_client no_extras (replies 200 [] [])
               (calling (post_options false) []))
    as (_ & _ & _ & Hf & Hsame);
    [vm_compute; reflexivity | vm_compute; reflexivity | vm_compute; discriminate |].
  edestruct (json_payload_on_the_wire plain_client no_extras (replies 200 [] [])
               (calling (post_options true) []))
    as (_ & _ & _ & Hf2 & _);
    [vm_compute; reflexivity | vm_compute; reflexivity | vm_compute; discriminate |].
  destruct Hf as [Hct Hcl]; [discriminate|].
  destruct Hf2 as [Hct2 Hcl2];
    [intros _; apply payload_fields_check; vm_compute; reflexivity|].
  cbv zeta. split; [exact Hct|]. split; [rewrite Hcl; vm_compute; reflexivity|].
  split; [exact Hct2|]. split; [rewrite Hcl2; vm_compute; reflexivity|].
  eapply Hsame; [vm_compute; reflexivity | vm_compute; reflexivity].
Defined.

(** No payload on http. *)
Lemma no_payload_witness :
  exists p w1,
    prepare plain_client no_extras (calling (get_options false) []) = (Ok p, w1) /\
    has_payload p = false /\
    sent p w1 = [EvEnd] /\
    wire_body (calls (calling (get_options false) [])
                 (snd (request plain_client no_extras (replies 200 [] [])
                         (calling (get_options false) [])))) = [].
Proof.
  eexists _, _. split; [vm_compute; reflexivity|]. split; [vm_compute; reflexivity|].
  edestruct (no_payload_nothing_written plain_client no_extras (replies 200 [] [])
               (calling (get_options false) []))
    as (Hs & Hb & _);
    [vm_compute; reflexivity | vm_compute; reflexivity |].
  split; [exact Hs | exact Hb].
Defined.



(** An http2 exchange that ends well, and one whose stream breaks. *)
Lemma stream_closed_witness :
  exists p w1 w2,
    prepare plain_client no_extras (calling (get_options true) []) = (Ok p, w1) /\
    transmit p w1 = (Ok tt, w2) /\
    trace (snd (request plain_client no_extras (replies 200 [] [])
                  (calling (get_options true) [])))
    = trace w2 ++ [EvCloseStream; EvCloseSession] /\
    trace (snd (request plain_client no_extras (broken 200 [])
                  (calling (get_options true) [])))
    = trace w2.
Proof.
  eexists _, _, _.
  split; [vm_compute; reflexivity|]. split; [vm_compute; reflexivity|].
  edestruct (stream_closed_after_drain plain_client no_extras (replies 200 [] [])
               (calling (get_options true) [])) as (Hok & _ & _);
    [vm_compute; reflexivity | vm_compute; reflexivity |].
  edestruct (stream_closed_after_drain plain_client no_extras (broken 200 [])
               (calling (get_options true) [])) as (_ & Hbad & _);
    [vm_compute; reflexivity | vm_compute; reflexivity |].
  split.
  - rewrite (Hok 200%Z []); [vm_compute; reflexivity | reflexivity | reflexivity].
  - rewrite (Hbad 200%Z [] (HostError 2)); [vm_compute; reflexivity | reflexivity | reflexivity].
Defined.

(** A stream that breaks after a 502, and a connection that is refused. *)
Lemma transport_errors_witness :
  exists p w1 r,
    prepare plain_client no_extras (calling bare_options []) = (Ok p, w1) /\
    fst (request plain_client no_extras (broken 502 [("via", VStr "proxy")])
           (calling bare_options []))
    = Throw {| thrown := HostError 2; err_response := Some r |} /\
    statusCode r = VNum 502 /\ vget (headers r) "via" = VStr "proxy" /\
    fst (request plain_client no_extras refused (calling bare_options []))
    = raise (HostError 1).
Proof.
  edestruct (transport_errors_carry_the_response plain_client no_extras
               (broken 502 [("via", VStr "proxy")]) (calling bare_options []))
    as (Hbad & _);
    [vm_compute; reflexivity | vm_compute; reflexivity |].
  edestruct (transport_errors_carry_the_response plain_client no_extras
               refused (calling bare_options []))
    as (_ & Href);
    [vm_compute; reflexivity | vm_compute; reflexivity |].
  destruct (Hbad 502%Z [("via", VStr "proxy")] (HostError 2) eq_refl eq_refl)
    as (r & Hr & Hs & Hh & _).
  destruct (Href (HostError 1) eq_refl) as [Hr' _].
  eexists _, _, r. split; [vm_compute; reflexivity|].
  split; [exact Hr|]. split; [exact Hs|].
  split; [rewrite Hh; [reflexivity | discriminate] | exact Hr'].
Defined.

(** The form [{}] on http2. *)
Lemma empty_form_witness :
  exists p w1,
    prepare plain_client no_extras (calling (empty_form_options true) []) = (Ok p, w1) /\
    p_req p = ClientHttp2Stream /\
    fst (request plain_client no_extras (replies 200 [] [])
           (calling (empty_form_options true) []))
    = raise (TypeError "req.removeHeader is not a function").
Proof.
  eexists _, _. split; [vm_compute; reflexivity|]. split; [reflexivity|].
  edestruct (empty_form_over_http2_fails plain_client no_extras (replies 200 [] [])
               (calling (empty_form_options true) []))
    as (_ & Hh2);
    [vm_compute; reflexivity | vm_compute; reflexivity | vm_compute; reflexivity
    | vm_compute; reflexivity |].
  apply Hh2. reflexivity.
Defined.

(** The cache after a first nonce has been stored. *)
Lemma nonce_cache_witness :
  cache_ok (nonces (calling dpop_options [])) /\
  cache_ok (nonces (snd (request plain_client no_extras
                           (replies 401 [("dpop-nonce", VStr "abc123")] [])
                           (calling dpop_options [])))).
Proof.
  assert (cache_ok (nonces (calling dpop_options []))) as Hc.
  { split; [constructor | vm_compute; lia]. }
  split; [exact Hc|].
  exact (nonce_cache_stays_valid plain_client no_extras
           (replies 401 [("dpop-nonce", VStr "abc123")] []) (calling dpop_options []) Hc).
Defined.

(** [DPoP] is given but the client has no capability. *)
Lemma proof_skipped_witness :
  dpopProof plain_client = None /\
  options (snd (request plain_client dpop_extras (replies 200 [] [])
                  (calling dpop_options [])))
  = [("method", OVal (VStr "POST"))].
Proof.
  split; [reflexivity|].
  destruct (proof_skipped_without_capability plain_client dpop_extras (replies 200 [] [])
              (calling dpop_options []) (or_intror eq_refl)) as (_ & _ & Ho).
  rewrite (Ho example_url); vm_compute; reflexivity.
Defined.

(** A capability that throws. *)
Lemma failing_capability_witness :
  fst (request failing_client dpop_extras (replies 200 [] []) (calling dpop_options []))
  = raise (HostError 7) /\
  length (calls (calling dpop_options [])
            (snd (request failing_client dpop_extras (replies 200 [] [])
                    (calling dpop_options [])))) = 1.
Proof.
  edestruct (failing_capability_aborts failing_client dpop_extras (replies 200 [] [])
               (calling dpop_options []) example_url) as (Hr & Hc & _);
    [vm_compute; reflexivity | vm_compute; reflexivity | vm_compute; reflexivity
    | reflexivity | reflexivity |].
  split; [exact Hr | by rewrite Hc].
Defined.

End Runs.
